(** * fc_net: the two-layer and the fully-connected classifiers

    A shallow embedding of [cs231n/classifiers/fc_net.py].  The two classes
    of the file, [TwoLayerNet] and [FullyConnectedNet], are translated method
    by method.  Python's mutable object, the global random generator of numpy
    and the exceptions raised by dictionary and list accesses are threaded
    through a small state-and-exception monad.  The elementary layers
    ([cs231n.layers]) and the numpy array operations are an interface
    ([Layers]); the development is parametric in it. *)

From Stdlib Require Import Ascii.
From stdpp Require Import gmap strings list pretty.

Set Default Proof Using "Type".

(** ** Python values and exceptions *)

(** The exceptions the translated code can raise: a missing dictionary key,
    a list index out of range, and numpy's rejection of a negative
    dimension. *)
Inductive exn :=
  | KeyError (k : string)
  | IndexError
  | ValueError.

(** Values stored in the configuration dictionaries [dropout_param] and
    [bn_params[i]]: strings (['mode']), integers (['seed']), numbers (['p'])
    and arrays (the running statistics). *)
Inductive pyval (T S : Type) :=
  | PStr (s : string)
  | PInt (n : Z)
  | PNum (x : S)
  | PTensor (t : T).
Arguments PStr {T S} s.
Arguments PInt {T S} n.
Arguments PNum {T S} x.
Arguments PTensor {T S} t.

Global Instance pyval_eq_dec {T S : Type} `{!EqDecision T, !EqDecision S} :
  EqDecision (pyval T S).
Proof. solve_decision. Defined.

(** The layer primitives, by the names they have in [cs231n.layers]. *)
Inductive call :=
  | affine_forward_call
  | affine_backward_call
  | relu_forward_call
  | relu_backward_call
  | batchnorm_forward_call
  | batchnorm_backward_alt_call
  | layernorm_forward_call
  | layernorm_backward_call
  | dropout_forward_call
  | dropout_backward_call
  | softmax_loss_call.

Global Instance call_eq_dec : EqDecision call.
Proof. solve_decision. Defined.

(** ** The interface of the numeric collaborators

    Arrays, numbers and the layer primitives are not defined in [fc_net.py];
    the file imports them.  Every primitive is a function of its arguments;
    the two that carry state say so in their type: [batchnorm_forward]
    returns the updated [bn_param] dictionary (it stores the running
    statistics there), [dropout_forward] consumes numpy's random
    generator. *)
Class Layers := {
  tensor : Type;
  scalar : Type;
  labels : Type;
  np_dtype : Type;
  rng : Type;
  affine_cache : Type;
  relu_cache : Type;
  norm_cache : Type;
  dropout_cache : Type;
  scalar_eq_dec :: EqDecision scalar;
  (* the literals [0], [0.5] and [1] *)
  s_zero : scalar;
  s_half : scalar;
  s_one : scalar;
  (* [a + b] and [a * b] on numbers *)
  s_add : scalar → scalar → scalar;
  s_mul : scalar → scalar → scalar;
  (* [a < 0] on numbers: what [np.random.normal] rejects as a scale *)
  s_negative : scalar → bool;
  (* [np.sum(a)], [a ** 2], [a + b] on arrays, [c * a] *)
  np_sum : tensor → scalar;
  t_sq : tensor → tensor;
  t_add : tensor → tensor → tensor;
  t_scale : scalar → tensor → tensor;
  (* [a.astype(dtype)], [np.copy(a)] *)
  astype : tensor → np_dtype → tensor;
  np_copy : tensor → tensor;
  (* [np.random.normal(loc, scale, size=(d1, d2))], [np.zeros(d)],
     [np.ones(d)] for non-negative dimensions *)
  np_random_normal : scalar → scalar → Z → Z → rng → tensor * rng;
  np_zeros : Z → tensor;
  np_ones : Z → tensor;
  (* cs231n.layers *)
  affine_forward : tensor → tensor → tensor → tensor * affine_cache;
  affine_backward : tensor → affine_cache → tensor * tensor * tensor;
  relu_forward : tensor → tensor * relu_cache;
  relu_backward : tensor → relu_cache → tensor;
  batchnorm_forward :
    tensor → tensor → tensor → gmap string (pyval tensor scalar) →
    tensor * norm_cache * gmap string (pyval tensor scalar);
  batchnorm_backward_alt : tensor → norm_cache → tensor * tensor * tensor;
  layernorm_forward :
    tensor → tensor → tensor → gmap string (pyval tensor scalar) →
    tensor * norm_cache;
  layernorm_backward : tensor → norm_cache → tensor * tensor * tensor;
  dropout_forward :
    tensor → gmap string (pyval tensor scalar) → rng →
    tensor * dropout_cache * rng;
  dropout_backward : tensor → dropout_cache → tensor;
  softmax_loss : tensor → labels → scalar * tensor;
}.

(** The contract of [dropout_forward] that the network relies on at test
    time: with ['mode'] set to ['test'] the output is the input. *)
Class DropoutTestIdentity (L : Layers) : Prop :=
  dropout_test_identity :
    ∀ x (dp : gmap string (pyval tensor scalar)) g,
      dp !! "mode" = Some (PStr "test") → (dropout_forward x dp g).1.1 = x.

(** ** State and exceptions *)

Section monad.
Context `{L : Layers}.

(** What a method call can read and change: the object itself, numpy's
    global random generator, and the log of layer primitives invoked so
    far (oldest first). *)
Record world (Self : Type) := World {
  self : Self;
  np_random : rng;
  calls : list call;
}.
Global Arguments World {_} _ _ _.
Global Arguments self {_} _.
Global Arguments np_random {_} _.
Global Arguments calls {_} _.

(** A computation returns a value or raises; the state survives a raise,
    as it does in Python. *)
Definition M (Self A : Type) : Type :=
  world Self → (exn + A) * world Self.

Definition ret {Self A} (a : A) : M Self A := λ w, (inr a, w).

Definition bind {Self A B} (m : M Self A) (k : A → M Self B) : M Self B :=
  λ w, match m w with
       | (inr a, w') => k a w'
       | (inl e, w') => (inl e, w')
       end.

Definition raise {Self A} (e : exn) : M Self A := λ w, (inl e, w).

Definition get_self {Self} : M Self Self := λ w, (inr (self w), w).

Definition modify_self {Self} (f : Self → Self) : M Self unit :=
  λ w, (inr tt, World (f (self w)) (np_random w) (calls w)).

(** Invoking a layer primitive: the call is logged, its result returned. *)
Definition invoke {Self A} (c : call) (a : A) : M Self A :=
  λ w, (inr a, World (self w) (np_random w) (calls w ++ [c])).

(** Invoking a primitive that draws from [np.random]. *)
Definition invoke_random {Self A} (c : call) (f : rng → A * rng) : M Self A :=
  λ w, let '(a, g) := f (np_random w) in
       (inr a, World (self w) g (calls w ++ [c])).

(** Drawing from [np.random] outside the layers (parameter
    initialisation). *)
Definition draw {Self A} (f : rng → A * rng) : M Self A :=
  λ w, let '(a, g) := f (np_random w) in
       (inr a, World (self w) g (calls w)).

(** [d[k]] on a dictionary. *)
Definition getitem {Self V} (d : gmap string V) (k : string) : M Self V :=
  match d !! k with
  | Some v => ret v
  | None => raise (KeyError k)
  end.

(** [l[k]] on a list: a negative index counts from the end. *)
Definition py_index {V} (l : list V) (k : Z) : option V :=
  if bool_decide (0 ≤ k)%Z then l !! Z.to_nat k
  else if bool_decide (- Z.of_nat (length l) ≤ k)%Z
       then l !! Z.to_nat (Z.of_nat (length l) + k)
       else None.

Definition index {Self V} (l : list V) (k : Z) : M Self V :=
  match py_index l k with
  | Some v => ret v
  | None => raise IndexError
  end.

(** [l[k] = v] on a list. *)
Definition py_setindex {V} (l : list V) (k : Z) (v : V) : list V :=
  if bool_decide (0 ≤ k)%Z then <[Z.to_nat k := v]> l
  else <[Z.to_nat (Z.of_nat (length l) + k) := v]> l.

(** [str(i)] and ['W' + str(i)]. *)
Definition str (i : Z) : string := pretty i.
Definition key (prefix : string) (i : Z) : string := prefix +:+ str i.
End monad.

Global Instance M_ret `{L : Layers} Self : MRet (M Self) := λ _ a, ret a.
Global Instance M_bind `{L : Layers} Self : MBind (M Self) :=
  λ _ _ k m, bind m k.

(** ** cs231n.layer_utils *)

Section layer_utils.
Context `{L : Layers}.

(** Modelled from the spec: [cs231n/layer_utils.py] is not among the
    sources.  [affine_relu_forward] is the convenience layer that performs
    the affine stage followed by the rectified-linear activation, and keeps
    the two caches as a pair. *)
Definition affine_relu_forward {Self} (x w b : tensor) :
    M Self (tensor * (affine_cache * relu_cache)) :=
  '(a, fc_cache) ← invoke affine_forward_call (affine_forward x w b);
  '(out, relu_cache) ← invoke relu_forward_call (relu_forward a);
  mret (out, (fc_cache, relu_cache)).

(** Modelled from the spec: the backward pass of the convenience layer,
    through the rectifier and then through the affine stage. *)
Definition affine_relu_backward {Self} (dout : tensor)
    (cache : affine_cache * relu_cache) : M Self (tensor * tensor * tensor) :=
  let '(fc_cache, relu_cache) := cache in
  da ← invoke relu_backward_call (relu_backward dout relu_cache);
  invoke affine_backward_call (affine_backward da fc_cache).

(** [np.random.normal(scale=scale, size=(d1, d2))] raises [ValueError] for a
    negative scale, before it allocates.  numpy's allocation routines accept
    any non-negative dimension (zero gives an empty array) and raise
    [ValueError] on a negative one. *)
Definition random_normal {Self} (scale : scalar) (d1 d2 : Z) : M Self tensor :=
  if s_negative scale then raise ValueError
  else if bool_decide (d1 < 0 ∨ d2 < 0)%Z then raise ValueError
  else draw (np_random_normal s_zero scale d1 d2).

Definition zeros {Self} (d : Z) : M Self tensor :=
  if bool_decide (d < 0)%Z then raise ValueError else mret (np_zeros d).

Definition ones {Self} (d : Z) : M Self tensor :=
  if bool_decide (d < 0)%Z then raise ValueError else mret (np_ones d).

(** What [loss] returns: the scores at test time, the loss and the
    gradients at training time. *)
Inductive loss_result :=
  | Scores (scores : tensor)
  | LossGrads (loss : scalar) (grads : gmap string tensor).
End layer_utils.

(** ** TwoLayerNet *)

Module TwoLayerNet.
Section two_layer_net.
Context `{L : Layers}.

Record t := Build {
  params : gmap string tensor;
  reg : scalar;
}.

(** [TwoLayerNet.__init__] *)
Definition __init__ (input_dim hidden_dim num_classes : Z)
    (weight_scale reg : scalar) : M unit t :=
  let params : gmap string tensor := ∅ in
  W1 ← random_normal weight_scale input_dim hidden_dim;
  let params := <["W1" := W1]> params in
  b1 ← zeros hidden_dim;
  let params := <["b1" := b1]> params in
  W2 ← random_normal weight_scale hidden_dim num_classes;
  let params := <["W2" := W2]> params in
  b2 ← zeros num_classes;
  let params := <["b2" := b2]> params in
  mret (Build params reg).

(** [TwoLayerNet.loss] *)
Definition loss (X : tensor) (y : option labels) : M t loss_result :=
  self ← get_self;
  W1 ← getitem (params self) "W1";
  b1 ← getitem (params self) "b1";
  '(out1, cache1) ← affine_relu_forward X W1 b1;
  W2 ← getitem (params self) "W2";
  b2 ← getitem (params self) "b2";
  '(out2, cache2) ← invoke affine_forward_call (affine_forward out1 W2 b2);
  let scores := out2 in
  match y with
  | None => mret (Scores scores)
  | Some y =>
    let grads : gmap string tensor := ∅ in
    '(loss, dprob) ← invoke softmax_loss_call (softmax_loss out2 y);
    W1 ← getitem (params self) "W1";
    W2 ← getitem (params self) "W2";
    let loss :=
      s_add loss (s_mul (s_mul s_half (reg self))
                        (s_add (np_sum (t_sq W1)) (np_sum (t_sq W2)))) in
    '(dout1, dW2, db2) ← invoke affine_backward_call (affine_backward dprob cache2);
    '(dX, dW1, db1) ← affine_relu_backward dout1 cache1;
    W2 ← getitem (params self) "W2";
    let grads := <["W2" := t_add dW2 (t_scale (reg self) W2)]> grads in
    let grads := <["b2" := db2]> grads in
    W1 ← getitem (params self) "W1";
    let grads := <["W1" := t_add dW1 (t_scale (reg self) W1)]> grads in
    let grads := <["b1" := db1]> grads in
    mret (LossGrads loss grads)
  end.
End two_layer_net.
End TwoLayerNet.

(** ** FullyConnectedNet *)

Module FullyConnectedNet.
Section fully_connected_net.
Context `{L : Layers}.

Local Abbreviation dict := (gmap string (pyval tensor scalar)).

Record t := Build {
  normalization : option string;
  use_dropout : bool;
  reg : scalar;
  num_layers : Z;
  dtype : np_dtype;
  params : gmap string tensor;
  dropout_param : dict;
  bn_params : list dict;
}.

Definition set_dropout_param (f : dict → dict) (o : t) : t :=
  Build (normalization o) (use_dropout o) (reg o) (num_layers o) (dtype o)
        (params o) (f (dropout_param o)) (bn_params o).

Definition set_bn_params (f : list dict → list dict) (o : t) : t :=
  Build (normalization o) (use_dropout o) (reg o) (num_layers o) (dtype o)
        (params o) (dropout_param o) (f (bn_params o)).

(** *** [__init__] *)

(** The local variables of the loop over [hidden_dims]. *)
Record init_locals := InitLocals {
  prev_dim : Z;
  cur_layer : Z;
  init_params : gmap string tensor;
}.

(** One round of [for i in hidden_dims]. *)
Definition init_body (normalization : option string) (weight_scale : scalar)
    (i : Z) (st : init_locals) : M unit init_locals :=
  W ← random_normal weight_scale (prev_dim st) i;
  b ← zeros i;
  let params := <[key "W" (cur_layer st) := W]> (init_params st) in
  let params := <[key "b" (cur_layer st) := b]> params in
  params ←
    (if bool_decide (normalization ≠ None) then
       gamma ← ones i;
       beta ← zeros i;
       let params := <[key "gamma" (cur_layer st) := gamma]> params in
       mret (<[key "beta" (cur_layer st) := beta]> params)
     else mret params);
  mret (InitLocals i (cur_layer st + 1) params).

Fixpoint init_loop (normalization : option string) (weight_scale : scalar)
    (hidden_dims : list Z) (st : init_locals) : M unit init_locals :=
  match hidden_dims with
  | [] => mret st
  | i :: rest =>
    st ← init_body normalization weight_scale i st;
    init_loop normalization weight_scale rest st
  end.

(** [range(n)] has [n] elements, none when [n] is negative. *)
Definition range_len (n : Z) : nat := Z.to_nat n.

Definition __init__ (hidden_dims : list Z) (input_dim num_classes : Z)
    (dropout : scalar) (normalization : option string) (reg : scalar)
    (weight_scale : scalar) (dtype : np_dtype) (seed : option Z) : M unit t :=
  let use_dropout := bool_decide (dropout ≠ s_one) in
  let num_layers := (1 + Z.of_nat (length hidden_dims))%Z in
  st ← init_loop normalization weight_scale hidden_dims
         (InitLocals input_dim 1 ∅);
  W ← random_normal weight_scale (prev_dim st) num_classes;
  b ← zeros num_classes;
  let params := <[key "W" (cur_layer st) := W]> (init_params st) in
  let params := <[key "b" (cur_layer st) := b]> params in
  let dropout_param : dict :=
    if use_dropout then
      let d : dict := <["p" := PNum dropout]> {["mode" := PStr "train"]} in
      match seed with
      | Some seed => <["seed" := PInt seed]> d
      | None => d
      end
    else ∅ in
  let bn_params : list dict := [] in
  let bn_params :=
    if bool_decide (normalization = Some "batchnorm")
    then replicate (range_len (num_layers - 1)) {["mode" := PStr "train"]}
    else bn_params in
  let bn_params :=
    if bool_decide (normalization = Some "layernorm")
    then replicate (range_len (num_layers - 1)) ∅
    else bn_params in
  let params := (λ v, astype v dtype) <$> params in
  mret (Build normalization use_dropout reg num_layers dtype params
              dropout_param bn_params).

(** *** [loss]: the forward pass *)

(** The local variables of the forward loop. *)
Record fwd := Fwd {
  f_i : Z;
  f_cur_layer : tensor;
  caches : list (affine_cache * relu_cache);
  bnorm_caches : list norm_cache;
  drop_caches : list dropout_cache;
  reg_sum : scalar;
}.

(** One round of [for _ in range(self.num_layers-1)]. *)
Definition forward_body (fs : fwd) : M t fwd :=
  let i := f_i fs in
  self ← get_self;
  W_i ← getitem (params self) (key "W" i);
  b_i ← getitem (params self) (key "b" i);
  '(out_i, cache_i) ← affine_relu_forward (f_cur_layer fs) W_i b_i;
  let caches := caches fs ++ [cache_i] in
  let reg_sum := s_add (reg_sum fs) (np_sum (t_sq W_i)) in
  '(out_i, bnorm_caches) ←
    (if bool_decide (normalization self = Some "batchnorm") then
       gamma_i ← getitem (params self) (key "gamma" i);
       beta_i ← getitem (params self) (key "beta" i);
       bn_param ← index (bn_params self) (i - 1);
       '(out_i, bnorm_cache_i, bn_param) ←
         invoke batchnorm_forward_call
                (batchnorm_forward out_i gamma_i beta_i bn_param);
       modify_self (set_bn_params (λ l, py_setindex l (i - 1) bn_param));;
       mret (out_i, bnorm_caches fs ++ [bnorm_cache_i])
     else if bool_decide (normalization self = Some "layernorm") then
       gamma_i ← getitem (params self) (key "gamma" i);
       beta_i ← getitem (params self) (key "beta" i);
       ln_param ← index (bn_params self) (i - 1);
       '(out_i, bnorm_cache_i) ←
         invoke layernorm_forward_call
                (layernorm_forward out_i gamma_i beta_i ln_param);
       mret (out_i, bnorm_caches fs ++ [bnorm_cache_i])
     else mret (out_i, bnorm_caches fs));
  '(out_i, drop_caches) ←
    (if use_dropout self then
       '(out_i, drop_i) ←
         invoke_random dropout_forward_call
                       (dropout_forward out_i (dropout_param self));
       mret (out_i, drop_caches fs ++ [drop_i])
     else mret (out_i, drop_caches fs));
  mret (Fwd (i + 1) out_i caches bnorm_caches drop_caches reg_sum).

Fixpoint forward_loop (n : nat) (fs : fwd) : M t fwd :=
  match n with
  | O => mret fs
  | S n => fs ← forward_body fs; forward_loop n fs
  end.

(** *** [loss]: the backward pass *)

(** The local variables of the backward loop. *)
Record bwd := Bwd {
  b_i : Z;
  b_cur_dout : tensor;
  b_grads : gmap string tensor;
}.

(** One round of [for cache in reversed(caches)]. *)
Definition backward_body (fs : fwd) (cache : affine_cache * relu_cache)
    (bs : bwd) : M t bwd :=
  let i := b_i bs in
  let cur_dout := b_cur_dout bs in
  let grads := b_grads bs in
  self ← get_self;
  cur_dout ←
    (if use_dropout self then
       drop_cache ← index (drop_caches fs) (i - 1);
       invoke dropout_backward_call (dropout_backward cur_dout drop_cache)
     else mret cur_dout);
  '(cur_dout, grads) ←
    (if bool_decide (normalization self = Some "batchnorm") then
       bnorm_cache ← index (bnorm_caches fs) (i - 1);
       '(cur_dout, dGamma_i, dBeta_i) ←
         invoke batchnorm_backward_alt_call
                (batchnorm_backward_alt cur_dout bnorm_cache);
       let grads := <[key "gamma" i := dGamma_i]> grads in
       mret (cur_dout, <[key "beta" i := dBeta_i]> grads)
     else if bool_decide (normalization self = Some "layernorm") then
       bnorm_cache ← index (bnorm_caches fs) (i - 1);
       '(cur_dout, dGamma_i, dBeta_i) ←
         invoke layernorm_backward_call
                (layernorm_backward cur_dout bnorm_cache);
       let grads := <[key "gamma" i := dGamma_i]> grads in
       mret (cur_dout, <[key "beta" i := dBeta_i]> grads)
     else mret (cur_dout, grads));
  '(cur_dout, dW_i, db_i) ← affine_relu_backward cur_dout cache;
  W_i ← getitem (params self) (key "W" i);
  let grads := <[key "W" i := t_add dW_i (t_scale (reg self) W_i)]> grads in
  let grads := <[key "b" i := db_i]> grads in
  mret (Bwd (i - 1) cur_dout grads).

Fixpoint backward_loop (fs : fwd)
    (reversed_caches : list (affine_cache * relu_cache)) (bs : bwd) : M t bwd :=
  match reversed_caches with
  | [] => mret bs
  | cache :: rest =>
    bs ← backward_body fs cache bs; backward_loop fs rest bs
  end.

(** *** [loss] *)

Definition mode_of (y : option labels) : string :=
  match y with None => "test" | Some _ => "train" end.

Definition loss (X : tensor) (y : option labels) : M t loss_result :=
  self ← get_self;
  let X := astype X (dtype self) in
  let mode := mode_of y in
  (if use_dropout self
   then modify_self (set_dropout_param (λ d, <["mode" := PStr mode]> d))
   else mret tt);;
  (if bool_decide (normalization self = Some "batchnorm")
   then modify_self (set_bn_params (fmap (λ d, <["mode" := PStr mode]> d)))
   else mret tt);;
  fs ← forward_loop (range_len (num_layers self - 1))
         (Fwd 1 (np_copy X) [] [] [] s_zero);
  let i := f_i fs in
  W_i ← getitem (params self) (key "W" i);
  b_i ← getitem (params self) (key "b" i);
  '(out_last, cache_last) ←
    invoke affine_forward_call (affine_forward (f_cur_layer fs) W_i b_i);
  let scores := out_last in
  match y with
  | None => mret (Scores scores)
  | Some y =>
    let grads : gmap string tensor := ∅ in
    '(loss, dprob) ← invoke softmax_loss_call (softmax_loss scores y);
    let loss := s_add loss (s_mul (s_mul s_half (reg self)) (reg_sum fs)) in
    '(cur_dout, dW_last, db_last) ←
      invoke affine_backward_call (affine_backward dprob cache_last);
    let grads := <[key "W" i := dW_last]> grads in
    let grads := <[key "b" i := db_last]> grads in
    let i := (i - 1)%Z in
    bs ← backward_loop fs (reverse (caches fs)) (Bwd i cur_dout grads);
    mret (LossGrads loss (b_grads bs))
  end.
End fully_connected_net.
End FullyConnectedNet.

(** ** A symbolic instance of the interface

    Arrays and numbers are terms: every primitive returns the term that
    names its own application, so the result of a run spells out which
    primitives produced it, from which arguments, in which nesting. *)

Module Symbolic.
Inductive term :=
  | Var (name : string)       (* a value supplied by the caller *)
  | Lit (n : Z)               (* an integer literal *)
  | Half                      (* the literal 0.5 *)
  | Fn (f : string)           (* a primitive *)
  | Ap (t u : term)           (* application to one more argument *)
  | Proj (k : nat) (t : term) (* component [k] of a returned tuple *).

Global Instance term_eq_dec : EqDecision term.
Proof. solve_decision. Defined.

Definition ap (f : string) (args : list term) : term :=
  foldl Ap (Fn f) args.

(** The entry of a configuration dictionary as an argument. *)
Definition entry (d : gmap string (pyval term term)) (k : string) : term :=
  match d !! k with
  | Some (PStr s) => Var s
  | Some (PInt n) => Lit n
  | Some (PNum x) => x
  | Some (PTensor a) => a
  | None => Fn "None"
  end.

Definition pair_of (c : term) : term * term := (Proj 0 c, Proj 1 c).
Definition triple_of (c : term) : term * term * term :=
  (Proj 0 c, Proj 1 c, Proj 2 c).

(** Modelled from the spec: [cs231n/layers.py] is not among the sources.
    Batch normalisation keeps its running statistics in [bn_param], and
    updates them in ['train'] mode only. *)
Definition sym_batchnorm_forward (x gamma beta : term)
    (bn_param : gmap string (pyval term term)) :
    term * term * gmap string (pyval term term) :=
  let c := ap "batchnorm_forward"
              [x; gamma; beta; entry bn_param "mode";
               entry bn_param "running_mean"; entry bn_param "running_var"] in
  (Proj 0 c, Proj 1 c,
   if bool_decide (bn_param !! "mode" = Some (PStr "train"))
   then <["running_var" := PTensor (Proj 3 c)]>
          (<["running_mean" := PTensor (Proj 2 c)]> bn_param)
   else bn_param).

(** Modelled from the spec: [cs231n/layers.py] is not among the sources.
    In ['test'] mode dropout is the identity (no scaling, no mask); in
    ['train'] mode it draws a mask from the random generator. *)
Definition sym_dropout_forward (x : term)
    (dropout_param : gmap string (pyval term term)) (g : term) :
    term * term * term :=
  if bool_decide (dropout_param !! "mode" = Some (PStr "test"))
  then (x, ap "dropout_cache" [entry dropout_param "p"; Fn "None"], g)
  else
    let c := ap "dropout_forward"
                [x; entry dropout_param "p"; entry dropout_param "seed"; g] in
    (Proj 0 c, Proj 1 c, Proj 2 c).

(** The terms that are negative numbers: the negative literals.  A named
    value stands for a number that numpy accepts where it is used. *)
Definition sym_negative (a : term) : bool :=
  match a with
  | Lit n => bool_decide (n < 0)%Z
  | _ => false
  end.

Global Instance layers : Layers := {|
  tensor := term;
  scalar := term;
  labels := term;
  np_dtype := string;
  rng := term;
  affine_cache := term;
  relu_cache := term;
  norm_cache := term;
  dropout_cache := term;
  s_zero := Lit 0;
  s_half := Half;
  s_one := Lit 1;
  s_add a b := ap "+" [a; b];
  s_mul a b := ap "*" [a; b];
  s_negative := sym_negative;
  np_sum a := ap "np.sum" [a];
  t_sq a := ap "**" [a; Lit 2];
  t_add a b := ap "+" [a; b];
  t_scale c a := ap "*" [c; a];
  astype a dt := ap "astype" [a; Var dt];
  np_copy a := ap "np.copy" [a];
  np_random_normal loc scale d1 d2 g :=
    pair_of (ap "np.random.normal" [loc; scale; Lit d1; Lit d2; g]);
  np_zeros d := ap "np.zeros" [Lit d];
  np_ones d := ap "np.ones" [Lit d];
  affine_forward x w b := pair_of (ap "affine_forward" [x; w; b]);
  affine_backward dout cache := triple_of (ap "affine_backward" [dout; cache]);
  relu_forward x := pair_of (ap "relu_forward" [x]);
  relu_backward dout cache := ap "relu_backward" [dout; cache];
  batchnorm_forward := sym_batchnorm_forward;
  batchnorm_backward_alt dout cache :=
    triple_of (ap "batchnorm_backward_alt" [dout; cache]);
  layernorm_forward x gamma beta ln_param :=
    pair_of (ap "layernorm_forward" [x; gamma; beta]);
  layernorm_backward dout cache :=
    triple_of (ap "layernorm_backward" [dout; cache]);
  dropout_forward := sym_dropout_forward;
  dropout_backward dout cache := ap "dropout_backward" [dout; cache];
  softmax_loss scores y := pair_of (ap "softmax_loss" [scores; y]);
|}.

(** The state a call starts from: the object, a named generator state,
    and an empty log. *)
Definition start {Self} (o : Self) : world Self := World o (Var "rng") [].

(** *** Example networks

    Their parameters are named values, as an optimizer may have left
    them. *)

(** No hidden layer: [FullyConnectedNet([], reg=reg)]. *)
Definition net0 : FullyConnectedNet.t :=
  FullyConnectedNet.Build None false (Var "reg") 1 "float64"
    (list_to_map [("W1", Var "W1"); ("b1", Var "b1")]) ∅ [].

(** One hidden layer, layer normalisation, dropout with [p = 0.5]:
    [FullyConnectedNet([H], dropout=0.5, normalization='layernorm',
    reg=reg)]. *)
Definition net1 : FullyConnectedNet.t :=
  FullyConnectedNet.Build (Some "layernorm") true (Var "reg") 2 "float64"
    (list_to_map [("W1", Var "W1"); ("b1", Var "b1");
                  ("gamma1", Var "gamma1"); ("beta1", Var "beta1");
                  ("W2", Var "W2"); ("b2", Var "b2")])
    (list_to_map [("mode", PStr "train"); ("p", PNum Half)])
    [∅].

(** The network that
    [FullyConnectedNet([5], input_dim=4, num_classes=3, dropout=1,
    weight_scale=weight_scale, dtype=float32)] constructs. *)
Definition constructed_net : FullyConnectedNet.t :=
  match (FullyConnectedNet.__init__ [5%Z] 4 3 (Lit 1) None (Lit 0)
           (Var "weight_scale") "float32" None (start tt)).1 with
  | inr o => o
  | inl _ => net0
  end.

(** A [TwoLayerNet] with named parameters. *)
Definition two_layer_net : TwoLayerNet.t :=
  TwoLayerNet.Build
    (list_to_map [("W1", Var "W1"); ("b1", Var "b1");
                  ("W2", Var "W2"); ("b2", Var "b2")])
    (Var "reg").

(** One hidden layer, no normalisation, no dropout:
    [FullyConnectedNet([H], reg=reg)], with the parameters of
    [two_layer_net]. *)
Definition net_plain : FullyConnectedNet.t :=
  FullyConnectedNet.Build None false (Var "reg") 2 "float64"
    (list_to_map [("W1", Var "W1"); ("b1", Var "b1");
                  ("W2", Var "W2"); ("b2", Var "b2")]) ∅ [].

(** One hidden layer with batch normalisation:
    [FullyConnectedNet([H], normalization='batchnorm', reg=reg)]. *)
Definition net_bn : FullyConnectedNet.t :=
  FullyConnectedNet.Build (Some "batchnorm") false (Var "reg") 2 "float64"
    (list_to_map [("W1", Var "W1"); ("b1", Var "b1");
                  ("gamma1", Var "gamma1"); ("beta1", Var "beta1");
                  ("W2", Var "W2"); ("b2", Var "b2")])
    ∅ [{["mode" := PStr "train"]}].

(** A network whose parameter dictionary has been emptied. *)
Definition net_without_params : FullyConnectedNet.t :=
  FullyConnectedNet.Build None true (Var "reg") 2 "float64" ∅
    (list_to_map [("mode", PStr "train"); ("p", PNum Half)]) [].
End Symbolic.

(** ** Specifications *)

Section specifications.
Context `{L : Layers}.

(** [wp m Q E w]: run from [w], the computation [m] returns a value and a
    state that satisfy [Q], or raises an exception in a state that
    satisfy [E]. *)
Definition wp {Self A} (m : M Self A) (Q : A → world Self → Prop)
    (E : exn → world Self → Prop) (w : world Self) : Prop :=
  match m w with
  | (inr a, w') => Q a w'
  | (inl e, w') => E e w'
  end.

(** The names of the parameters of layer [i]. *)
Definition layer_names (norm : bool) (i : Z) : gset string :=
  {[key "W" i; key "b" i]} ∪
  (if norm then {[key "gamma" i; key "beta" i]} else ∅).

(** The names of the parameters of the hidden layers [1..n]. *)
Fixpoint hidden_names (norm : bool) (n : nat) : gset string :=
  match n with
  | O => ∅
  | S k => hidden_names norm k ∪ layer_names norm (Z.of_nat (S k))
  end.

(** The names of the parameters of a network with [n] hidden layers: the
    hidden layers, and the final layer, which has no scale and shift. *)
Definition param_names (norm : bool) (n : nat) : gset string :=
  hidden_names norm n ∪ layer_names false (Z.of_nat (S n)).

(** The sum of [np.sum(W_i ** 2)] over the hidden layers [1..n], in the
    order the forward loop accumulates it. *)
Fixpoint hidden_reg_sum (params : gmap string tensor) (n : nat) :
    option scalar :=
  match n with
  | O => Some s_zero
  | S k =>
    acc ← hidden_reg_sum params k;
    W ← params !! key "W" (Z.of_nat (S k));
    Some (s_add acc (np_sum (t_sq W)))
  end.

(** The number of hidden layers. *)
Definition hidden_layers (o : FullyConnectedNet.t) : nat :=
  FullyConnectedNet.range_len (FullyConnectedNet.num_layers o - 1).

(** What construction establishes and an optimizer's updates of the
    parameter values keep: at least the final layer, one of the three
    documented normalisation settings, the parameter names of the
    architecture, and one normalisation dictionary per hidden layer. *)
Record well_formed (o : FullyConnectedNet.t) : Prop := WellFormed {
  wf_num_layers : (1 ≤ FullyConnectedNet.num_layers o)%Z;
  wf_normalization :
    FullyConnectedNet.normalization o = None ∨
    FullyConnectedNet.normalization o = Some "batchnorm" ∨
    FullyConnectedNet.normalization o = Some "layernorm";
  wf_params :
    dom (FullyConnectedNet.params o) =
    param_names (bool_decide (FullyConnectedNet.normalization o ≠ None))
                (hidden_layers o);
  wf_bn_params :
    FullyConnectedNet.normalization o ≠ None →
    length (FullyConnectedNet.bn_params o) = hidden_layers o;
}.

(** The same network with dropout disabled, as [dropout=1] constructs it. *)
Definition without_dropout (o : FullyConnectedNet.t) : FullyConnectedNet.t :=
  FullyConnectedNet.Build
    (FullyConnectedNet.normalization o) false (FullyConnectedNet.reg o)
    (FullyConnectedNet.num_layers o) (FullyConnectedNet.dtype o)
    (FullyConnectedNet.params o) ∅ (FullyConnectedNet.bn_params o).

Definition with_self {Self Self'} (o : Self') (w : world Self) : world Self' :=
  World o (np_random w) (calls w).
End specifications.

(** ** Invariants of the two methods *)

Section invariants.
Context `{L : Layers}.
Import FullyConnectedNet.

(** The four prefixes of parameter names. *)
Definition prefixes : list string := ["W"; "b"; "gamma"; "beta"].

(** The dimensions along the network: the input, the hidden layers, the
    classes.  Layer [i] maps dimension [i-1] to dimension [i]. *)
Definition layer_dims (input_dim : Z) (hidden_dims : list Z) (num_classes : Z) :
    list Z :=
  input_dim :: hidden_dims ++ [num_classes].

(** The state of [np.random] before the weights of layer [k+1] are
    drawn: each earlier layer has drawn its weight matrix once. *)
Fixpoint rng_at (ws : scalar) (dims : list Z) (g : rng) (k : nat) : rng :=
  match k with
  | O => g
  | S j =>
    (np_random_normal s_zero ws (dims !!! j) (dims !!! S j)
                      (rng_at ws dims g j)).2
  end.

(** The parameters of layer [k+1] in [p]: a weight matrix drawn by
    [np.random.normal] with mean [0] and deviation [ws], of shape
    [(dims[k], dims[k+1])]; a bias of zeros; if [norm], a scale of ones and a
    shift of zeros, and none otherwise; each passed through [cast]. *)
Definition layer_allocated (cast : tensor → tensor) (norm : bool)
    (ws : scalar) (dims : list Z) (g : rng) (p : gmap string tensor)
    (k : nat) : Prop :=
  let i := Z.of_nat (S k) in
  let d_in := dims !!! k in
  let d_out := dims !!! S k in
  p !! key "W" i =
    Some (cast (np_random_normal s_zero ws d_in d_out (rng_at ws dims g k)).1) ∧
  p !! key "b" i = Some (cast (np_zeros d_out)) ∧
  p !! key "gamma" i = (if norm then Some (cast (np_ones d_out)) else None) ∧
  p !! key "beta" i = (if norm then Some (cast (np_zeros d_out)) else None).

(** The invariant of the loop of [__init__], after [k] rounds. *)
Definition init_inv (norm : bool) (ws : scalar) (dims : list Z) (g : rng)
    (k : nat) (st : init_locals) (w : world ()) : Prop :=
  cur_layer st = Z.of_nat (S k) ∧
  prev_dim st = dims !!! k ∧
  np_random w = rng_at ws dims g k ∧
  dom (init_params st) = hidden_names norm k ∧
  (∀ j, (j < k)%nat → layer_allocated id norm ws dims g (init_params st) j) ∧
  (∀ p j, p ∈ prefixes → (k ≤ j)%nat →
          init_params st !! key p (Z.of_nat (S j)) = None).

(** What [__init__] establishes. *)
Record constructed (hidden_dims : list Z) (input_dim num_classes : Z)
    (dropout : scalar) (norm : option string) (reg : scalar) (ws : scalar)
    (dt : np_dtype) (seed : option Z) (g : rng) (o : t) : Prop := Constructed {
  c_normalization : normalization o = norm;
  c_use_dropout : use_dropout o = bool_decide (dropout ≠ s_one);
  c_reg : FullyConnectedNet.reg o = reg;
  c_num_layers : num_layers o = (1 + Z.of_nat (length hidden_dims))%Z;
  c_dtype : dtype o = dt;
  c_dropout_param :
    dropout_param o =
    if bool_decide (dropout ≠ s_one) then
      let d : gmap string (pyval tensor scalar) :=
        <["p" := PNum dropout]> {["mode" := PStr "train"]} in
      match seed with Some seed => <["seed" := PInt seed]> d | None => d end
    else ∅;
  c_bn_params :
    bn_params o =
    if bool_decide (norm = Some "batchnorm")
    then replicate (length hidden_dims) {["mode" := PStr "train"]}
    else if bool_decide (norm = Some "layernorm")
         then replicate (length hidden_dims) ∅
         else [];
  c_hidden : ∀ k, (k < length hidden_dims)%nat →
    layer_allocated (λ v, astype v dt) (bool_decide (norm ≠ None)) ws
      (layer_dims input_dim hidden_dims num_classes) g (params o) k;
  c_final :
    layer_allocated (λ v, astype v dt) false ws
      (layer_dims input_dim hidden_dims num_classes) g (params o)
      (length hidden_dims);
  c_dom :
    dom (params o) =
    param_names (bool_decide (norm ≠ None)) (length hidden_dims);
}.

(** No dropout primitive occurs in a log of calls. *)
Definition no_dropout_call (l : list call) : Prop :=
  dropout_forward_call ∉ l ∧ dropout_backward_call ∉ l.

(** What [loss] never changes between the state [w] it starts from and
    a later state [w']: the parameters and the configuration of the object;
    and, when dropout is disabled, [dropout_param] and the absence of
    dropout calls. *)
Record frame (w w' : world FullyConnectedNet.t) : Prop := Frame {
  frame_params : params (self w') = params (self w);
  frame_normalization : normalization (self w') = normalization (self w);
  frame_use_dropout : use_dropout (self w') = use_dropout (self w);
  frame_reg : reg (self w') = reg (self w);
  frame_num_layers : num_layers (self w') = num_layers (self w);
  frame_dtype : dtype (self w') = dtype (self w);
  frame_bn_params : length (bn_params (self w')) = length (bn_params (self w));
  frame_dropout_param :
    use_dropout (self w) = false →
    dropout_param (self w') = dropout_param (self w);
  frame_calls :
    ∃ l, calls w' = calls w ++ l ∧
         (use_dropout (self w) = false → no_dropout_call l);
}.

(** Normalisation is enabled. *)
Definition norm_on (o : t) : bool := bool_decide (normalization o ≠ None).

(** How many times the primitive [c] occurs in a log of calls. *)
Definition calls_of (c : call) (l : list call) : nat := count_occ call_eq_dec l c.

(** The invariant of the forward loop, after [k] rounds from the state
    [w0]. *)
Record fwd_inv (w0 : world t) (k : nat) (fs : fwd) (w : world t) : Prop := FwdInv {
  fi_i : f_i fs = Z.of_nat (S k);
  fi_caches : length (caches fs) = k;
  fi_bnorm_caches :
    length (bnorm_caches fs) = if norm_on (self w0) then k else 0%nat;
  fi_drop_caches :
    length (drop_caches fs) = if use_dropout (self w0) then k else 0%nat;
  fi_reg_sum : hidden_reg_sum (params (self w0)) k = Some (reg_sum fs);
  fi_forward_calls :
    calls_of dropout_forward_call (calls w) =
    (calls_of dropout_forward_call (calls w0) +
     if use_dropout (self w0) then k else 0)%nat;
  fi_backward_calls :
    calls_of dropout_backward_call (calls w) =
    calls_of dropout_backward_call (calls w0);
}.

(** One round of the backward loop, on hidden layer [j+1]. *)
Record bwd_step (w0 : world t) (j : nat) (bs : bwd) (w : world t)
    (bs' : bwd) (w' : world t) : Prop := BwdStep {
  bw_i : b_i bs' = Z.of_nat j;
  bw_dom :
    dom (b_grads bs') =
    dom (b_grads bs) ∪ layer_names (norm_on (self w0)) (Z.of_nat (S j));
  bw_other : ∀ p m, p ∈ prefixes → m ≠ j →
    b_grads bs' !! key p (Z.of_nat (S m)) = b_grads bs !! key p (Z.of_nat (S m));
  bw_weight : ∃ dW W,
    params (self w0) !! key "W" (Z.of_nat (S j)) = Some W ∧
    b_grads bs' !! key "W" (Z.of_nat (S j)) =
      Some (t_add dW (t_scale (reg (self w0)) W));
  bw_forward_calls :
    calls_of dropout_forward_call (calls w') =
    calls_of dropout_forward_call (calls w);
  bw_backward_calls :
    calls_of dropout_backward_call (calls w') =
    (calls_of dropout_backward_call (calls w) +
     if use_dropout (self w0) then 1 else 0)%nat;
}.

(** The whole backward loop, over the hidden layers [n..1]. *)
Record bwd_done (w0 : world t) (n : nat) (bs : bwd) (w : world t)
    (bs' : bwd) (w' : world t) : Prop := BwdDone {
  bd_dom :
    dom (b_grads bs') =
    dom (b_grads bs) ∪ hidden_names (norm_on (self w0)) n;
  bd_other : ∀ p m, p ∈ prefixes → (n ≤ m)%nat →
    b_grads bs' !! key p (Z.of_nat (S m)) = b_grads bs !! key p (Z.of_nat (S m));
  bd_weight : ∀ j, (j < n)%nat → ∃ dW W,
    params (self w0) !! key "W" (Z.of_nat (S j)) = Some W ∧
    b_grads bs' !! key "W" (Z.of_nat (S j)) =
      Some (t_add dW (t_scale (reg (self w0)) W));
  bd_forward_calls :
    calls_of dropout_forward_call (calls w') =
    calls_of dropout_forward_call (calls w);
  bd_backward_calls :
    calls_of dropout_backward_call (calls w') =
    (calls_of dropout_backward_call (calls w) +
     if use_dropout (self w0) then n else 0)%nat;
}.

(** The outcome of a training-time call of [loss] from the state [w0]:
    [h] is the activation that enters the final layer. *)
Inductive trained (w0 : world t) (y : labels) : loss_result → world t → Prop :=
  | Trained h W b rs g w' :
    let n := hidden_layers (self w0) in
    let out := affine_forward h W b in
    let data := softmax_loss out.1 y in
    let back := affine_backward data.2 out.2 in
    params (self w0) !! key "W" (Z.of_nat (S n)) = Some W →
    params (self w0) !! key "b" (Z.of_nat (S n)) = Some b →
    hidden_reg_sum (params (self w0)) n = Some rs →
    dom g = dom (params (self w0)) →
    g !! key "W" (Z.of_nat (S n)) = Some back.1.2 →
    g !! key "b" (Z.of_nat (S n)) = Some back.2 →
    (∀ j, (j < n)%nat → ∃ dW Wj,
       params (self w0) !! key "W" (Z.of_nat (S j)) = Some Wj ∧
       g !! key "W" (Z.of_nat (S j)) =
         Some (t_add dW (t_scale (reg (self w0)) Wj))) →
    calls_of dropout_forward_call (calls w') =
      (calls_of dropout_forward_call (calls w0) +
       if use_dropout (self w0) then n else 0)%nat →
    calls_of dropout_backward_call (calls w') =
      (calls_of dropout_backward_call (calls w0) +
       if use_dropout (self w0) then n else 0)%nat →
    trained w0 y
      (LossGrads (s_add data.1 (s_mul (s_mul s_half (reg (self w0))) rs)) g)
      w'.

(** The outcome of a test-time call of [loss] from the state [w0]. *)
Inductive tested (w0 : world t) : loss_result → world t → Prop :=
  | Tested h W b w' :
    let n := hidden_layers (self w0) in
    params (self w0) !! key "W" (Z.of_nat (S n)) = Some W →
    params (self w0) !! key "b" (Z.of_nat (S n)) = Some b →
    calls_of dropout_forward_call (calls w') =
      (calls_of dropout_forward_call (calls w0) +
       if use_dropout (self w0) then n else 0)%nat →
    calls_of dropout_backward_call (calls w') =
      calls_of dropout_backward_call (calls w0) →
    tested w0 (Scores (affine_forward h W b).1) w'.

(** Two runs in lockstep: both return, with related results and states, or
    both raise the same exception. *)
Definition rwp {A B} (m1 : M t A) (m2 : M t B)
    (Q : A → world t → B → world t → Prop) (w1 w2 : world t) : Prop :=
  match m1 w1, m2 w2 with
  | (inr a, w1'), (inr b, w2') => Q a w1' b w2'
  | (inl e1, _), (inl e2, _) => e1 = e2
  | _, _ => False
  end.

(** The second run has dropout disabled; the first, if it uses dropout,
    is in test mode.  Everything else about the two objects agrees. *)
Record sim (w1 w2 : world t) : Prop := Sim {
  sim_params : params (self w1) = params (self w2);
  sim_normalization : normalization (self w1) = normalization (self w2);
  sim_num_layers : num_layers (self w1) = num_layers (self w2);
  sim_dtype : dtype (self w1) = dtype (self w2);
  sim_bn_params : bn_params (self w1) = bn_params (self w2);
  sim_no_dropout : use_dropout (self w2) = false;
  sim_test :
    use_dropout (self w1) = true →
    dropout_param (self w1) !! "mode" = Some (PStr "test");
}.

(** The locals of the forward loop that the scores depend on agree. *)
Definition fwd_sim (fs1 fs2 : fwd) : Prop :=
  f_i fs1 = f_i fs2 ∧ f_cur_layer fs1 = f_cur_layer fs2.

(** The same network with another regularisation strength. *)
Definition set_reg (r : scalar) (o : t) : t :=
  Build (normalization o) (use_dropout o) r (num_layers o) (dtype o)
        (params o) (dropout_param o) (bn_params o).

(** The same state, the network given the regularisation strength [r]. *)
Definition with_reg (r : scalar) (w : world t) : world t :=
  World (set_reg r (self w)) (np_random w) (calls w).

(** Two states that agree on everything but the log and [reg], which is
    [r1] in the first and [r2] in the second; [pm] are the parameters. *)
Record reg_sim (pm : gmap string tensor) (r1 r2 : scalar)
    (w1 w2 : world t) : Prop := RegSim {
  rs_reg1 : reg (self w1) = r1;
  rs_reg2 : reg (self w2) = r2;
  rs_params1 : params (self w1) = pm;
  rs_params : params (self w1) = params (self w2);
  rs_normalization : normalization (self w1) = normalization (self w2);
  rs_use_dropout : use_dropout (self w1) = use_dropout (self w2);
  rs_num_layers : num_layers (self w1) = num_layers (self w2);
  rs_dtype : dtype (self w1) = dtype (self w2);
  rs_dropout_param : dropout_param (self w1) = dropout_param (self w2);
  rs_bn_params : bn_params (self w1) = bn_params (self w2);
  rs_np_random : np_random w1 = np_random w2;
}.

(** Two dictionaries of gradients, from runs with the strengths [r1] and
    [r2]: the weight gradients of the layers [lo+1..hi] are a common
    tensor plus the layer's own [r * W]; all other entries are equal. *)
Definition grads_sim (pm : gmap string tensor) (r1 r2 : scalar) (lo hi : Z)
    (g1 g2 : gmap string tensor) : Prop :=
  ∀ p j, p ∈ prefixes →
    if bool_decide (p = "W" ∧ lo < j ≤ hi)%Z
    then ∃ d W, pm !! key "W" j = Some W ∧
                g1 !! key p j = Some (t_add d (t_scale r1 W)) ∧
                g2 !! key p j = Some (t_add d (t_scale r2 W))
    else g1 !! key p j = g2 !! key p j.

(** The locals of the backward loop in two runs: the same layer, the same
    upstream gradient, related dictionaries of gradients. *)
Definition bwd_sim (pm : gmap string tensor) (r1 r2 : scalar) (hi : Z)
    (bs1 bs2 : bwd) : Prop :=
  b_i bs1 = b_i bs2 ∧ b_cur_dout bs1 = b_cur_dout bs2 ∧ (b_i bs1 ≤ hi)%Z ∧
  grads_sim pm r1 r2 (b_i bs1) hi (b_grads bs1) (b_grads bs2).

(** The normalisation primitive of kind [kind], as [forward_body] calls it. *)
Definition normalize (kind : string) (x gamma beta : tensor)
    (p : gmap string (pyval tensor scalar)) : tensor :=
  if bool_decide (kind = "batchnorm")
  then (batchnorm_forward x gamma beta p).1.1
  else (layernorm_forward x gamma beta p).1.

(** The name under which that primitive is logged. *)
Definition normalize_call (kind : string) : call :=
  if bool_decide (kind = "batchnorm")
  then batchnorm_forward_call else layernorm_forward_call.

(** The first of the four parameter names of [TwoLayerNet] that a
    dictionary lacks, in the order in which [TwoLayerNet.loss] reads them. *)
Definition first_missing (params : gmap string tensor) : option string :=
  List.find (λ k, match params !! k with None => true | Some _ => false end)
            ["W1"; "b1"; "W2"; "b2"].

(** The state in which [TwoLayerNet.loss] runs on the object [o]. *)
Definition two_layer_world (o : TwoLayerNet.t) (w : world t) :
    world TwoLayerNet.t :=
  World o (np_random w) (calls w).

(** The primitives that one hidden layer invokes on the way forward, in
    the order of the calls. *)
Definition layer_forward_calls (o : t) : list call :=
  [affine_forward_call; relu_forward_call] ++
  (if bool_decide (normalization o = Some "batchnorm")
   then [batchnorm_forward_call]
   else if bool_decide (normalization o = Some "layernorm")
        then [layernorm_forward_call] else []) ++
  (if use_dropout o then [dropout_forward_call] else []).

(** The primitives that one hidden layer invokes on the way back. *)
Definition layer_backward_calls (o : t) : list call :=
  (if use_dropout o then [dropout_backward_call] else []) ++
  (if bool_decide (normalization o = Some "batchnorm")
   then [batchnorm_backward_alt_call]
   else if bool_decide (normalization o = Some "layernorm")
        then [layernorm_backward_call] else []) ++
  [relu_backward_call; affine_backward_call].

(** The primitives that a whole call of [loss] invokes on a network with
    [n] hidden layers. *)
Definition loss_calls (o : t) (n : nat) (y : option labels) : list call :=
  mjoin (replicate n (layer_forward_calls o)) ++ [affine_forward_call] ++
  match y with
  | None => []
  | Some _ =>
    [softmax_loss_call; affine_backward_call] ++
    mjoin (replicate n (layer_backward_calls o))
  end.

(** What the loops of [loss] leave of the two configuration dictionaries
    between the states [w] and [w']: [dropout_param] as it is, and
    [bn_params] as it is unless batch normalisation is in use. *)
Definition keeps_config (w w' : world t) : Prop :=
  normalization (self w') = normalization (self w) ∧
  dropout_param (self w') = dropout_param (self w) ∧
  (normalization (self w) ≠ Some "batchnorm" →
   bn_params (self w') = bn_params (self w)).

(** The errors of a dictionary or list access of [loss]: a missing
    parameter name, or an index out of range. *)
Definition lookup_error (e : exn) : Prop :=
  e = IndexError ∨ ∃ p i, p ∈ prefixes ∧ e = KeyError (key p i).

(** One round of the backward pass on layer [i] that reads the layer's
    affine-relu cache by its index, [caches[i-1]], as it reads the
    normalisation and the dropout caches. *)
Definition backward_layer (fs : fwd) (bs : bwd) : M t bwd :=
  cache ← index (caches fs) (b_i bs - 1);
  backward_body fs cache bs.

(** The backward pass over the layers [n..1], by index. *)
Fixpoint backward_by_index (fs : fwd) (n : nat) (bs : bwd) : M t bwd :=
  match n with
  | O => mret bs
  | S n => bs ← backward_layer fs bs; backward_by_index fs n bs
  end.

(** The network has the weights and biases of its [n] hidden layers and of
    its final layer; it may have more parameters. *)
Definition has_affine_params (o : t) (n : nat) : Prop :=
  ∀ j, (j ≤ n)%nat →
    is_Some (params o !! key "W" (Z.of_nat (S j))) ∧
    is_Some (params o !! key "b" (Z.of_nat (S j))).

(** [loss] runs no normalisation: [normalization] is neither of the two
    values it compares with. *)
Definition unnormalized (o : t) : Prop :=
  normalization o ≠ Some "batchnorm" ∧ normalization o ≠ Some "layernorm".

(** The normalisation dictionaries after [k] rounds of the forward loop
    with batch normalisation, started with the dictionaries [start]: the
    dictionary of each of the first [k] layers is what the layer's own
    call of [batchnorm_forward] returned for it, the others are as they
    were. *)
Definition bn_updated (params : gmap string tensor)
    (start now : list (gmap string (pyval tensor scalar))) (k : nat) : Prop :=
  length now = length start ∧
  (∀ j, (k ≤ j)%nat → now !! j = start !! j) ∧
  (∀ j, (j < k)%nat → ∃ h gamma beta p,
     start !! j = Some p ∧
     params !! key "gamma" (Z.of_nat (S j)) = Some gamma ∧
     params !! key "beta" (Z.of_nat (S j)) = Some beta ∧
     now !! j = Some (batchnorm_forward h gamma beta p).2).
End invariants.

(** ** Reasoning rules *)

Section rules.
Context `{L : Layers} {Self : Type}.
Implicit Types w : world Self.

Lemma wp_ret {A} (a : A) Q E w : Q a w → wp (mret a : M Self A) Q E w.
Proof. done. Qed.

Lemma wp_raise {A} e (Q : A → world Self → Prop) E w :
  E e w → wp (raise e) Q E w.
Proof. done. Qed.

Lemma wp_bind {A B} (m : M Self A) (k : A → M Self B) Q E w :
  wp m (λ a w', wp (k a) Q E w') E w → wp (m ≫= k) Q E w.
Proof.
  unfold wp, mbind, M_bind, bind. by destruct (m w) as [[e|a] w'].
Qed.

Lemma wp_mono {A} (m : M Self A) (Q Q' : A → world Self → Prop)
    (E E' : exn → world Self → Prop) w :
  wp m Q E w →
  (∀ a w', Q a w' → Q' a w') → (∀ e w', E e w' → E' e w') →
  wp m Q' E' w.
Proof. unfold wp. destruct (m w) as [[e|a] w']; auto. Qed.

Lemma wp_get_self Q E w : Q (self w) w → wp get_self Q E w.
Proof. done. Qed.

Lemma wp_modify_self (f : Self → Self) Q E w :
  Q tt (World (f (self w)) (np_random w) (calls w)) →
  wp (modify_self f) Q E w.
Proof. done. Qed.

Lemma wp_invoke {A} c (a : A) Q E w :
  Q a (World (self w) (np_random w) (calls w ++ [c])) →
  wp (invoke c a) Q E w.
Proof. done. Qed.

Lemma wp_invoke_random {A} c (f : rng → A * rng) Q E w :
  Q (f (np_random w)).1 (World (self w) (f (np_random w)).2 (calls w ++ [c])) →
  wp (invoke_random c f) Q E w.
Proof. unfold wp, invoke_random. by destruct (f _). Qed.

Lemma wp_draw {A} (f : rng → A * rng) Q E w :
  Q (f (np_random w)).1 (World (self w) (f (np_random w)).2 (calls w)) →
  wp (draw f) Q E w.
Proof. unfold wp, draw. by destruct (f _). Qed.

Lemma wp_getitem {V} (d : gmap string V) k Q E w :
  match d !! k with Some v => Q v w | None => E (KeyError k) w end →
  wp (getitem d k) Q E w.
Proof. unfold getitem. by destruct (d !! k). Qed.

Lemma wp_index {V} (l : list V) k Q E w :
  match py_index l k with Some v => Q v w | None => E IndexError w end →
  wp (index l k) Q E w.
Proof. unfold index. by destruct (py_index l k). Qed.

Lemma wp_if {A} (b : bool) (m1 m2 : M Self A) Q E w :
  (if b then wp m1 Q E w else wp m2 Q E w) →
  wp (if b then m1 else m2) Q E w.
Proof. by destruct b. Qed.

(** The outcome of a run, read off a [wp]. *)
Lemma wp_elim {A} (m : M Self A) Q E w :
  wp m Q E w →
  match (m w).1 with inr a => Q a (m w).2 | inl e => E e (m w).2 end.
Proof. unfold wp. by destruct (m w) as [[e|a] w']. Qed.

Lemma wp_intro {A} (m : M Self A) w :
  wp m (λ a w', m w = (inr a, w')) (λ e w', m w = (inl e, w')) w.
Proof. unfold wp. by destruct (m w) as [[e|a] w']. Qed.

Lemma py_index_pos {V} (l : list V) (i : Z) :
  (1 ≤ i)%Z → py_index l (i - 1) = l !! Z.to_nat (i - 1).
Proof. intros. unfold py_index. by rewrite bool_decide_eq_true_2 by lia. Qed.

Lemma affine_relu_forward_wp (x W b : tensor) Q E w :
  Q ((relu_forward (affine_forward x W b).1).1,
     ((affine_forward x W b).2, (relu_forward (affine_forward x W b).1).2))
    (World (self w) (np_random w)
           (calls w ++ [affine_forward_call; relu_forward_call])) →
  wp (affine_relu_forward x W b) Q E w.
Proof.
  intros HQ. unfold affine_relu_forward.
  apply wp_bind, wp_invoke. destruct (affine_forward x W b) as [a fc]; simpl in *.
  apply wp_bind, wp_invoke. destruct (relu_forward a) as [out rc]; simpl in *.
  apply wp_ret. by rewrite <-app_assoc.
Qed.

Lemma affine_relu_backward_wp (dout : tensor) cache Q E w :
  Q (affine_backward (relu_backward dout cache.2) cache.1)
    (World (self w) (np_random w)
           (calls w ++ [relu_backward_call; affine_backward_call])) →
  wp (affine_relu_backward dout cache) Q E w.
Proof.
  intros HQ. unfold affine_relu_backward. destruct cache as [fc rc].
  apply wp_bind, wp_invoke; simpl. apply wp_invoke; simpl.
  by rewrite <-app_assoc.
Qed.
End rules.

(** One step of symbolic execution of a [wp] goal. *)
Ltac wp_step :=
  lazymatch goal with
  | |- wp (mbind _ _) _ _ _ => apply wp_bind
  | |- wp (mret _) _ _ _ => apply wp_ret
  | |- wp (raise _) _ _ _ => apply wp_raise
  | |- wp get_self _ _ _ => apply wp_get_self
  | |- wp (modify_self _) _ _ _ => apply wp_modify_self
  | |- wp (invoke _ _) _ _ _ => apply wp_invoke
  | |- wp (invoke_random _ _) _ _ _ => apply wp_invoke_random
  | |- wp (draw _) _ _ _ => apply wp_draw
  | |- wp (getitem _ _) _ _ _ => apply wp_getitem
  | |- wp (index _ _) _ _ _ => apply wp_index
  | |- wp (affine_relu_forward _ _ _) _ _ _ => apply affine_relu_forward_wp
  | |- wp (affine_relu_backward _ _) _ _ _ => apply affine_relu_backward_wp
  | |- wp (let '(_, _) := ?p in _) _ _ _ => destruct p eqn:?
  | |- wp (match ?p with (_, _) => _ end _) _ _ _ => destruct p eqn:?
  end.
Ltac wp_steps := repeat (wp_step; cbn beta iota).

(** ** Parameter names and construction *)

Section keys.
Context `{L : Layers}.

Lemma pretty_N_go_head_ne c x : ∀ s,
  (∀ n, pretty_N_char n ≠ c) →
  (∀ s', s ≠ String c s') → s ≠ "" ∨ (0 < x)%N →
  ∀ s', pretty_N_go x s ≠ String c s'.
Proof.
  induction (N.lt_wf_0 x) as [x _ IH]; intros s Hc Hs Hne s'.
  assert (x = 0 ∨ 0 < x)%N as [->|?] by lia.
  - rewrite pretty_N_go_0. apply Hs.
  - rewrite pretty_N_go_step by done. apply IH; auto.
    + by apply N.div_lt.
    + intros s''. injection 1. intros _ ?. by eapply Hc.
Qed.

Lemma str_head_ne c i s :
  (∀ n, pretty_N_char n ≠ c) → c ≠ "-"%char → str i ≠ String c s.
Proof.
  intros Hc Hdash. unfold str, pretty, pretty_Z. destruct i as [|p|p].
  - injection 1. intros _ ?. by apply (Hc 0%N).
  - unfold pretty, pretty_positive, pretty, pretty_N.
    rewrite decide_False by done.
    apply pretty_N_go_head_ne; auto. lia.
  - simpl. intros [= ? _]. congruence.
Qed.

Lemma str_not_e i s : str i ≠ String "e" s.
Proof.
  apply str_head_ne; [|done].
  intros n. unfold pretty_N_char. by repeat case_match.
Qed.

Lemma key_inj p i j : key p i = key p j → i = j.
Proof.
  unfold key. intros H. apply (inj (String.app p)) in H.
  by apply (inj pretty) in H.
Qed.

Lemma key_eq_inv p q i j :
  p ∈ prefixes → q ∈ prefixes → key p i = key q j → p = q ∧ i = j.
Proof.
  unfold prefixes. rewrite !elem_of_cons, !elem_of_nil.
  intros Hp Hq Heq.
  destruct Hp as [->|[->|[->|[->|[]]]]], Hq as [->|[->|[->|[->|[]]]]];
    first [ by split; [|apply (key_inj _ _ _ Heq)]
          | exfalso; unfold key in Heq; simpl in Heq;
            first [ discriminate Heq
                  | injection Heq as Heq; by apply str_not_e in Heq
                  | injection Heq as Heq; symmetry in Heq;
                    by apply str_not_e in Heq ] ].
Qed.

Lemma lookup_insert_key {V} (m : gmap string V) p q i j v :
  p ∈ prefixes → q ∈ prefixes →
  <[key p i := v]> m !! key q j =
  if decide (p = q ∧ i = j) then Some v else m !! key q j.
Proof.
  intros Hp Hq. case_decide as H.
  - destruct H as [-> ->]. apply lookup_insert_eq.
  - apply lookup_insert_ne. intros Heq. by apply key_eq_inv in Heq.
Qed.
End keys.

Ltac prefix_solve :=
  unfold prefixes; rewrite !elem_of_cons; tauto.

Ltac lookup_keys :=
  rewrite ?lookup_insert_key by prefix_solve;
  repeat first
    [ rewrite decide_False by (intros [? ?]; first [discriminate | lia])
    | rewrite decide_True by (split; first [reflexivity | lia]) ].

Section init.
Context `{L : Layers}.
Import FullyConnectedNet.

Lemma random_normal_wp {Self} ws d1 d2 Q E (w : world Self) :
  (if s_negative ws then E ValueError w
   else if bool_decide (0 ≤ d1 ∧ 0 ≤ d2)%Z
   then Q (np_random_normal s_zero ws d1 d2 (np_random w)).1
          (World (self w) (np_random_normal s_zero ws d1 d2 (np_random w)).2
                 (calls w))
   else E ValueError w) →
  wp (random_normal ws d1 d2) Q E w.
Proof.
  unfold random_normal. destruct (s_negative ws); [by intros; apply wp_raise|].
  do 2 case_bool_decide; try lia; intros;
    first [by apply wp_raise | by apply wp_draw].
Qed.

Lemma zeros_wp {Self} d Q E (w : world Self) :
  (if bool_decide (0 ≤ d)%Z then Q (np_zeros d) w else E ValueError w) →
  wp (zeros d) Q E w.
Proof. unfold zeros. do 2 case_bool_decide; try lia; done. Qed.

Lemma ones_wp {Self} d Q E (w : world Self) :
  (if bool_decide (0 ≤ d)%Z then Q (np_ones d) w else E ValueError w) →
  wp (ones d) Q E w.
Proof. unfold ones. do 2 case_bool_decide; try lia; done. Qed.

Local Ltac init_step :=
  first
    [ wp_step
    | apply random_normal_wp;
      try match goal with H : s_negative _ = _ |- _ => rewrite H end
    | apply zeros_wp
    | apply ones_wp ].

Lemma init_body_outcome norm ws i st w :
  wp (init_body norm ws i st)
     (λ st' w', s_negative ws = false ∧ (0 ≤ prev_dim st)%Z ∧ (0 ≤ i)%Z ∧
                prev_dim st' = i)
     (λ e w', e = ValueError ∧
              ¬ (s_negative ws = false ∧ 0 ≤ prev_dim st ∧ 0 ≤ i)%Z) w.
Proof.
  unfold init_body. destruct (s_negative ws) eqn:Hneg.
  { init_step. init_step. cbn iota. split; [done|]. by intros []. }
  repeat (first [init_step | case_bool_decide]; cbn beta iota zeta;
          try done).
  all: try (repeat split; first [done | lia]).
  all: split; [done|]; intros (_ & ? & ?); lia.
Qed.

Lemma last_cons_default {A} (l : list A) a d d' :
  List.last (a :: l) d = List.last (a :: l) d'.
Proof. revert a. induction l as [|b l IH]; intros a; [done|]. apply IH. Qed.

Lemma init_loop_outcome norm ws hs : ∀ st w,
  wp (init_loop norm ws hs st)
     (λ st' w', Forall (λ d, 0 ≤ d)%Z hs ∧
                (hs ≠ [] → s_negative ws = false ∧ 0 ≤ prev_dim st)%Z ∧
                prev_dim st' = List.last hs (prev_dim st))
     (λ e w', e = ValueError ∧
              ¬ (s_negative ws = false ∧
                 Forall (λ d, 0 ≤ d)%Z (prev_dim st :: hs))) w.
Proof.
  induction hs as [|i hs IH]; intros st w.
  - by apply wp_ret.
  - simpl init_loop. apply wp_bind.
    eapply wp_mono; [apply init_body_outcome|..]; cbn beta.
    + intros st' w' (Hneg & ? & ? & Hp).
      eapply wp_mono; [apply IH|..]; cbn beta.
      * intros st'' w'' (? & ? & ->). split; [by constructor|]. split; [done|].
        rewrite Hp. destruct hs as [|z hs]; [done|].
        exact (last_cons_default hs z i (prev_dim st)).
      * intros e w'' [-> Hn]. split; [done|]. rewrite Hp in Hn.
        rewrite !Forall_cons in *. tauto.
    + intros e w' [-> Hn]. split; [done|].
      rewrite !Forall_cons. tauto.
Qed.

Lemma init_outcome hidden_dims input_dim num_classes dropout norm reg ws dt
    seed w :
  wp (__init__ hidden_dims input_dim num_classes dropout norm reg ws dt seed)
     (λ _ _, s_negative ws = false ∧
             Forall (λ d, 0 ≤ d)%Z (layer_dims input_dim hidden_dims num_classes))
     (λ e _, e = ValueError ∧
             ¬ (s_negative ws = false ∧
                Forall (λ d, 0 ≤ d)%Z
                       (layer_dims input_dim hidden_dims num_classes)))
     w.
Proof.
  unfold __init__, layer_dims. apply wp_bind.
  eapply wp_mono; [apply init_loop_outcome|..]; cbn beta.
  - intros st w' (Hhs & Hin & Hp).
    assert (0 ≤ prev_dim st → 0 ≤ input_dim ∧ 0 ≤ prev_dim st)%Z as Hprev.
    { destruct hidden_dims; [simpl in Hp; lia|].
      destruct Hin as [_ ?]; [done|]. tauto. }
    assert (0 ≤ input_dim → Forall (λ d, 0 ≤ d)%Z hidden_dims →
            0 ≤ prev_dim st)%Z as Hlast.
    { intros ??. rewrite Hp. clear Hp Hin Hprev.
      revert input_dim H. induction Hhs as [|?? ?? IH]; intros; simpl; [done|].
      destruct l; [done|]. by apply IH. }
    destruct (s_negative ws) eqn:Hneg.
    { init_step. init_step. cbn iota. split; [done|]. by intros []. }
    repeat (first [init_step | case_bool_decide]; cbn beta iota zeta; try done).
    + split; [done|].
      rewrite Forall_cons, Forall_app, Forall_singleton. tauto.
    + lia.
    + split; [done|].
      rewrite Forall_cons, Forall_app, Forall_singleton. tauto.
  - intros e w' [-> Hn]. split; [done|].
    rewrite !Forall_cons, Forall_app in *. tauto.
Qed.

Lemma init_body_content norm ws dims g k i st w :
  init_inv (bool_decide (norm ≠ None)) ws dims g k st w →
  dims !! S k = Some i →
  wp (init_body norm ws i st)
     (λ st' w', init_inv (bool_decide (norm ≠ None)) ws dims g (S k) st' w')
     (λ _ _, True) w.
Proof.
  intros (Hcur & Hprev & Hrng & Hdom & Hlay & Hfree) Hi.
  apply list_lookup_total_correct in Hi.
  unfold init_body. destruct (s_negative ws) eqn:Hneg.
  { init_step. init_step. cbn iota. exact I. }
  repeat (first [init_step | case_bool_decide]; cbn beta iota zeta; try done).
  all: unfold init_inv; simpl; rewrite Hcur, Hprev, Hrng, <-Hi.
  all: split; [lia|]; split; [done|]; split; [done|].
  all: split; [rewrite !dom_insert_L, Hdom; unfold layer_names; set_solver|].
  all: split;
    [ intros j Hj; destruct (decide (j = k)) as [->|Hne];
      unfold layer_allocated; cbn zeta; lookup_keys;
      [ rewrite ?Hfree by first [prefix_solve | lia]; done
      | apply Hlay; lia ]
    | intros p j Hp Hj; pose proof Hp as Hp';
      unfold prefixes in Hp'; rewrite !elem_of_cons, elem_of_nil in Hp';
      destruct Hp' as [->|[->|[->|[->|[]]]]]; lookup_keys;
      (apply Hfree; [prefix_solve|lia]) ].
Qed.

Lemma init_loop_content norm ws dims g hs : ∀ k st w,
  init_inv (bool_decide (norm ≠ None)) ws dims g k st w →
  (∀ j i, hs !! j = Some i → dims !! (S k + j)%nat = Some i) →
  wp (init_loop norm ws hs st)
     (λ st' w', init_inv (bool_decide (norm ≠ None)) ws dims g
                         (k + length hs) st' w')
     (λ _ _, True) w.
Proof.
  induction hs as [|i hs IH]; intros k st w Hinv Hdims.
  - apply wp_ret. by rewrite Nat.add_0_r.
  - simpl init_loop. apply wp_bind.
    eapply wp_mono; [apply (init_body_content _ _ _ _ _ _ _ _ Hinv)|..];
      cbn beta; [|intros st' w' Hinv'|done].
    { specialize (Hdims 0%nat i eq_refl). by rewrite Nat.add_0_r in Hdims. }
    eapply wp_mono; [apply (IH _ _ _ Hinv')|..]; cbn beta; [| |done].
    + intros j i' Hj. specialize (Hdims (S j) i' Hj).
      by replace (S (S k) + j)%nat with (S k + S j)%nat by lia.
    + intros st'' w''. simpl length.
      by replace (k + S (length hs))%nat with (S k + length hs)%nat by lia.
Qed.

Lemma layer_allocated_cast cast norm ws dims g p k :
  layer_allocated id norm ws dims g p k →
  layer_allocated cast norm ws dims g (cast <$> p) k.
Proof.
  unfold layer_allocated. cbn zeta. rewrite !lookup_fmap.
  intros (-> & -> & -> & ->). by destruct norm.
Qed.

Lemma init_content hidden_dims input_dim num_classes dropout norm reg ws dt
    seed w :
  wp (__init__ hidden_dims input_dim num_classes dropout norm reg ws dt seed)
     (λ o _, constructed hidden_dims input_dim num_classes dropout norm reg
                         ws dt seed (np_random w) o)
     (λ _ _, True) w.
Proof.
  unfold __init__. apply wp_bind.
  set (dims := layer_dims input_dim hidden_dims num_classes).
  set (nb := bool_decide (norm ≠ None)).
  eapply wp_mono;
    [apply (init_loop_content norm ws dims (np_random w) hidden_dims 0)|..];
    cbn beta; [| | |done].
  { unfold init_inv; simpl. repeat split; try done; intros; lia. }
  { intros j i Hj. unfold dims, layer_dims. simpl.
    by rewrite lookup_app_l by (by eapply lookup_lt_Some). }
  simpl. intros st w' (Hcur & Hprev & Hrng & Hdom & Hlay & Hfree).
  set (n := length hidden_dims) in *.
  assert (dims !!! S n = num_classes) as Hnc.
  { unfold dims, layer_dims. simpl.
    apply list_lookup_total_correct. by rewrite lookup_app_r, Nat.sub_diag. }
  assert (range_len (1 + Z.of_nat n - 1) = n) as Hlen.
  { unfold range_len. lia. }
  apply wp_bind, random_normal_wp.
  destruct (s_negative ws); [exact I|].
  destruct (bool_decide (0 ≤ prev_dim st ∧ 0 ≤ num_classes)%Z);
    [cbn beta|exact I].
  apply wp_bind, zeros_wp.
  destruct (bool_decide (0 ≤ num_classes)%Z); [cbn beta|exact I].
  apply wp_ret. split; simpl; rewrite ?Hlen; try done.
  - repeat case_bool_decide; first [congruence | done].
  - intros k Hk. apply layer_allocated_cast.
    specialize (Hlay k Hk). unfold layer_allocated in *. cbn zeta in *.
    rewrite Hcur. fold nb. lookup_keys. done.
  - apply layer_allocated_cast. unfold layer_allocated. cbn zeta.
    fold dims n. rewrite Hcur, Hprev, Hrng, Hnc. lookup_keys.
    rewrite !Hfree by first [prefix_solve | lia]. done.
  - rewrite dom_fmap_L, !dom_insert_L, Hdom, Hcur.
    unfold param_names, layer_names. fold nb n. set_solver.
Qed.

Lemma wp_conj {Self A} (m : M Self A) Q1 Q2 E1 E2 w :
  wp m Q1 E1 w → wp m Q2 E2 w →
  wp m (λ a w', Q1 a w' ∧ Q2 a w') (λ e w', E1 e w' ∧ E2 e w') w.
Proof. unfold wp. destruct (m w) as [[e|a] w']; auto. Qed.
End init.

(** ** What [loss] leaves unchanged *)

Section frame.
Context `{L : Layers}.
Import FullyConnectedNet.

Lemma frame_refl w : frame w w.
Proof.
  split; try done. exists []. rewrite app_nil_r. split; [done|].
  intros _. split; apply not_elem_of_nil.
Qed.

Lemma py_setindex_length {V} (l : list V) k v :
  length (py_setindex l k v) = length l.
Proof. unfold py_setindex. case_bool_decide; apply length_insert. Qed.

Lemma app_prefix {A} (a b l x : list A) :
  a = b ++ l → a ++ x = b ++ (l ++ x).
Proof. intros ->. by rewrite app_assoc. Qed.

Lemma no_dropout_call_app l1 l2 :
  no_dropout_call l1 → no_dropout_call l2 → no_dropout_call (l1 ++ l2).
Proof. unfold no_dropout_call. rewrite !elem_of_app. naive_solver. Qed.

Lemma no_dropout_call_cons c l :
  c ≠ dropout_forward_call → c ≠ dropout_backward_call →
  no_dropout_call l → no_dropout_call (c :: l).
Proof. unfold no_dropout_call. rewrite !elem_of_cons. naive_solver. Qed.

Lemma no_dropout_call_nil : no_dropout_call [].
Proof. split; apply not_elem_of_nil. Qed.

End frame.

Ltac no_dropout_solve :=
  repeat first
    [ assumption
    | apply no_dropout_call_nil
    | apply no_dropout_call_app
    | apply no_dropout_call_cons; [discriminate|discriminate|] ].

Ltac frame_finish :=
  lazymatch goal with
  | Hf : frame ?w0 ?w |- frame ?w0 _ =>
    let l := fresh "l" in
    let Hl := fresh "Hl" in
    let Hno := fresh "Hno" in
    destruct Hf as [? ? ? ? ? ? ? ? (l & Hl & Hno)];
    split; simpl;
    try first
      [ done
      | rewrite ?py_setindex_length, ?length_fmap; done
      | intros; congruence
      | eexists; split;
        [ first [ exact Hl
                | rewrite <-?app_assoc; apply (app_prefix _ _ _ _ Hl) ]
        | let Hd := fresh in
          intros Hd; first [congruence | specialize (Hno Hd); no_dropout_solve] ] ]
  end.

Ltac frame_auto :=
  repeat (first [wp_step | case_match | case_bool_decide];
          cbn beta iota zeta; simpl self; simpl calls; simpl np_random;
          try done).

Section frame_lemmas.
Context `{L : Layers}.
Import FullyConnectedNet.

Lemma forward_body_frame fs w0 w :
  frame w0 w →
  wp (forward_body fs) (λ _ w', frame w0 w') (λ _ w', frame w0 w') w.
Proof.
  intros Hf. unfold forward_body.
  repeat (first [wp_step | case_match | case_bool_decide]; cbn beta iota zeta; simpl self; simpl calls; simpl np_random; try done).
  all: frame_finish.
Qed.

Lemma forward_loop_frame n : ∀ fs w0 w,
  frame w0 w →
  wp (forward_loop n fs) (λ _ w', frame w0 w') (λ _ w', frame w0 w') w.
Proof.
  induction n as [|n IH]; intros fs w0 w Hf; simpl.
  - by apply wp_ret.
  - apply wp_bind. eapply wp_mono; [by apply forward_body_frame|..]; simpl; auto.
Qed.

Lemma backward_body_frame fs cache bs w0 w :
  frame w0 w →
  wp (backward_body fs cache bs) (λ _ w', frame w0 w') (λ _ w', frame w0 w') w.
Proof.
  intros Hf. unfold backward_body.
  repeat (first [wp_step | case_match | case_bool_decide]; cbn beta iota zeta; simpl self; simpl calls; simpl np_random; try done).
  all: frame_finish.
Qed.

Lemma backward_loop_frame fs l : ∀ bs w0 w,
  frame w0 w →
  wp (backward_loop fs l bs) (λ _ w', frame w0 w') (λ _ w', frame w0 w') w.
Proof.
  induction l as [|c l IH]; intros bs w0 w Hf; simpl.
  - by apply wp_ret.
  - apply wp_bind. eapply wp_mono; [by apply backward_body_frame|..]; simpl; auto.
Qed.

Lemma loss_frame X y w0 w :
  frame w0 w →
  wp (loss X y) (λ _ w', frame w0 w') (λ _ w', frame w0 w') w.
Proof.
  intros Hf. unfold loss.
  wp_step. wp_step. cbn beta.
  wp_step. apply wp_if.
  set (Q := λ _ w', wp _ _ _ w').
  assert (∀ w', frame w0 w' → Q tt w') as HQ; last first.
  { destruct (use_dropout (self w)) eqn:?; wp_step; apply HQ; by frame_finish. }
  clear Hf. intros w1 Hf. subst Q. cbn beta.
  wp_step.
  set (Q := λ _ w', wp _ _ _ w').
  assert (∀ w', frame w0 w' → Q tt w') as HQ; last first.
  { case_bool_decide; wp_step; apply HQ; by frame_finish. }
  clear dependent w1. intros w1 Hf. subst Q. cbn beta.
  wp_step. eapply wp_mono; [by apply forward_loop_frame| |done].
  clear dependent w1. cbn beta. intros fs w1 Hf.
  frame_auto; try by frame_finish.
  eapply (wp_mono _ (λ _ w', frame w0 w') _ (λ _ w', frame w0 w'));
    [apply backward_loop_frame; by frame_finish| |done].
  cbn beta. intros bs w2 Hf2. by wp_step.
Qed.
End frame_lemmas.

(** ** [loss] on a well-formed network *)

Section total.
Context `{L : Layers}.
Import FullyConnectedNet.

Lemma layer_names_hidden nb k n :
  (k < n)%nat → layer_names nb (Z.of_nat (S k)) ⊆ hidden_names nb n.
Proof.
  induction n as [|n IH]; [lia|]. intros Hk. simpl hidden_names.
  destruct (decide (k = n)) as [->|]; [set_solver|].
  etrans; [apply IH; lia|set_solver].
Qed.

Lemma params_hidden (o : t) k :
  well_formed o → (k < hidden_layers o)%nat →
  is_Some (params o !! key "W" (Z.of_nat (S k))) ∧
  is_Some (params o !! key "b" (Z.of_nat (S k))) ∧
  (normalization o ≠ None →
   is_Some (params o !! key "gamma" (Z.of_nat (S k))) ∧
   is_Some (params o !! key "beta" (Z.of_nat (S k)))).
Proof.
  intros [_ _ Hdom _] Hk.
  pose proof (layer_names_hidden (bool_decide (normalization o ≠ None)) _ _ Hk)
    as Hsub.
  rewrite <-!elem_of_dom, Hdom. unfold param_names, layer_names in *.
  case_bool_decide as Hn.
  - split; [set_solver|]. split; [set_solver|]. intros _. set_solver.
  - split; [set_solver|]. split; [set_solver|]. done.
Qed.

Lemma params_final (o : t) :
  well_formed o →
  is_Some (params o !! key "W" (Z.of_nat (S (hidden_layers o)))) ∧
  is_Some (params o !! key "b" (Z.of_nat (S (hidden_layers o)))).
Proof.
  intros [_ _ Hdom _]. rewrite <-!elem_of_dom, Hdom.
  unfold param_names, layer_names. set_solver.
Qed.

Lemma calls_of_app c l1 l2 :
  calls_of c (l1 ++ l2) = (calls_of c l1 + calls_of c l2)%nat.
Proof. apply count_occ_app. Qed.

Lemma calls_of_snoc c l c' :
  calls_of c (l ++ [c']) =
  (calls_of c l + if decide (c' = c) then 1 else 0)%nat.
Proof.
  rewrite calls_of_app. by f_equal.
Qed.

Lemma frame_well_formed w0 w :
  well_formed (self w0) → frame w0 w → well_formed (self w).
Proof.
  intros [H1 H2 H3 H4] [Hp Hn Hd Hr Hl Ht Hb _ _].
  split; unfold hidden_layers in *; rewrite ?Hp, ?Hn, ?Hl, ?Hb; auto.
Qed.

Ltac fwd_finish Hno Hud :=
  repeat match goal with
         | H : length _ = (if _ then _ else _) |- _ => rewrite ?Hno, ?Hud in H
         end;
  split; simpl; rewrite ?Hno, ?Hud, ?length_app; simpl;
  rewrite ?calls_of_snoc, ?calls_of_app; simpl;
  repeat match goal with H : calls_of _ _ = _ |- _ => rewrite H end;
  rewrite ?Hno, ?Hud;
  first [done | lia].

Lemma forward_body_spec w0 w fs k :
  well_formed (self w0) → frame w0 w → (k < hidden_layers (self w0))%nat →
  fwd_inv w0 k fs w →
  wp (forward_body fs) (λ fs' w', fwd_inv w0 (S k) fs' w') (λ _ _, False) w.
Proof.
  intros Hwf0 Hf Hk [Hi Hc Hbc Hdc Hrs Hfc Hbk].
  pose proof (frame_well_formed _ _ Hwf0 Hf) as Hwf.
  destruct Hf as [Hp Hn Hd Hr Hl Ht Hb _ _]. symmetry in Hd.
  assert (hidden_layers (self w) = hidden_layers (self w0)) as Hhl.
  { unfold hidden_layers. by rewrite Hl. }
  destruct (params_hidden (self w) k Hwf) as (HW & Hbias & Hnorm); [lia|].
  destruct HW as [W HW], Hbias as [b Hbias].
  unfold forward_body. rewrite Hi.
  wp_step. wp_step. cbn beta.
  wp_step. apply wp_getitem. rewrite HW.
  wp_step. apply wp_getitem. rewrite Hbias.
  wp_step. wp_step. cbn beta iota.
  assert (hidden_reg_sum (params (self w0)) (S k) =
          Some (s_add (reg_sum fs) (np_sum (t_sq W)))) as Hrs'.
  { simpl. rewrite Hrs. simpl. rewrite <-Hp, HW. done. }
  assert (norm_on (self w0) = bool_decide (normalization (self w) ≠ None))
    as Hno by (unfold norm_on; by rewrite Hn).
  assert (∀ (l : list (gmap string (pyval tensor scalar))),
            py_index l (Z.of_nat (S k) - 1) = l !! k) as Hidx.
  { intros l. rewrite py_index_pos by lia. f_equal. lia. }
  assert (normalization (self w) ≠ None →
          is_Some (bn_params (self w) !! k)) as Hbnp.
  { intros Hne. apply lookup_lt_is_Some_2.
    rewrite (wf_bn_params _ Hwf Hne). lia. }
  destruct (wf_normalization _ Hwf) as [Hnone|[Hbn|Hln]].
  - rewrite Hnone in *.
    rewrite !bool_decide_eq_false_2 by done.
    rewrite bool_decide_eq_false_2 in Hno by naive_solver.
    wp_step. wp_step. cbn beta iota.
    destruct (use_dropout (self w)) eqn:Hdrop; wp_steps; fwd_finish Hno Hd.
  - rewrite Hbn in *.
    destruct Hnorm as [[gamma Hgamma] [beta Hbeta]]; [done|].
    destruct Hbnp as [bn Hbnp]; [done|].
    rewrite bool_decide_eq_true_2 by done.
    rewrite bool_decide_eq_true_2 in Hno by done.
    wp_step. wp_step. apply wp_getitem. rewrite Hgamma.
    wp_step. apply wp_getitem. rewrite Hbeta.
    wp_step. apply wp_index. rewrite Hidx, Hbnp.
    wp_steps. simpl.
    destruct (use_dropout (self w)) eqn:Hdrop; wp_steps; fwd_finish Hno Hd.
  - rewrite Hln in *.
    destruct Hnorm as [[gamma Hgamma] [beta Hbeta]]; [done|].
    destruct Hbnp as [bn Hbnp]; [done|].
    rewrite bool_decide_eq_false_2 by done.
    rewrite bool_decide_eq_true_2 by done.
    rewrite bool_decide_eq_true_2 in Hno by done.
    wp_step. wp_step. apply wp_getitem. rewrite Hgamma.
    wp_step. apply wp_getitem. rewrite Hbeta.
    wp_step. apply wp_index. rewrite Hidx, Hbnp.
    wp_steps. simpl.
    destruct (use_dropout (self w)) eqn:Hdrop; wp_steps; fwd_finish Hno Hd.
Qed.

Lemma forward_loop_spec w0 n : ∀ k fs w,
  well_formed (self w0) → frame w0 w →
  (k + n ≤ hidden_layers (self w0))%nat →
  fwd_inv w0 k fs w →
  wp (forward_loop n fs)
     (λ fs' w', fwd_inv w0 (k + n) fs' w' ∧ frame w0 w') (λ _ _, False) w.
Proof.
  induction n as [|n IH]; intros k fs w Hwf Hf Hk Hinv; simpl.
  - apply wp_ret. by rewrite Nat.add_0_r.
  - apply wp_bind.
    eapply wp_mono;
      [apply wp_conj;
        [apply (forward_body_spec w0 w fs k); [done..|lia|done]
        |by apply (forward_body_frame fs w0 w)]|..];
      cbn beta; [|tauto].
    intros fs' w' [Hinv' Hf'].
    replace (k + S n)%nat with (S k + n)%nat by lia.
    apply IH; auto. lia.
Qed.

Ltac bwd_finish Hno Hud :=
  split; simpl; rewrite ?Hno, ?Hud; simpl;
  [ f_equal; lia
  | rewrite ?dom_insert_L; unfold layer_names; set_solver
  | let q := fresh "q" in
    let m := fresh "m" in
    let Hq := fresh "Hq" in
    let Hm := fresh "Hm" in
    intros q m Hq Hm;
    unfold prefixes in Hq; rewrite !elem_of_cons, elem_of_nil in Hq;
    destruct Hq as [->|[->|[->|[->|[]]]]]; lookup_keys; done
  | eexists _, _; split;
    [ match goal with
      | Hp : params _ = params _, HW : params _ !! _ = Some _ |- _ =>
        rewrite <-Hp; exact HW
      end
    | lookup_keys;
      match goal with Hr : reg _ = reg _ |- _ => by rewrite Hr end ]
  | rewrite ?calls_of_snoc, ?calls_of_app; simpl; lia
  | rewrite ?calls_of_snoc, ?calls_of_app; simpl; lia ].

Lemma backward_body_spec w0 w fs cache bs j :
  well_formed (self w0) → frame w0 w → (j < hidden_layers (self w0))%nat →
  length (bnorm_caches fs) =
    (if norm_on (self w0) then hidden_layers (self w0) else 0%nat) →
  length (drop_caches fs) =
    (if use_dropout (self w0) then hidden_layers (self w0) else 0%nat) →
  b_i bs = Z.of_nat (S j) →
  wp (backward_body fs cache bs)
     (λ bs' w', bwd_step w0 j bs w bs' w') (λ _ _, False) w.
Proof.
  intros Hwf0 Hf Hj Hbc Hdc Hi.
  pose proof (frame_well_formed _ _ Hwf0 Hf) as Hwf.
  destruct Hf as [Hp Hn Hd Hr Hl Ht Hb _ _]. symmetry in Hd.
  assert (hidden_layers (self w) = hidden_layers (self w0)) as Hhl.
  { unfold hidden_layers. by rewrite Hl. }
  destruct (params_hidden (self w) j Hwf) as (HW & _ & _); [lia|].
  destruct HW as [W HW].
  assert (norm_on (self w0) = bool_decide (normalization (self w) ≠ None))
    as Hno by (unfold norm_on; by rewrite Hn).
  assert (∀ V (l : list V),
            py_index l (Z.of_nat (S j) - 1) = l !! j) as Hidx.
  { intros V l. rewrite py_index_pos by lia. f_equal. lia. }
  unfold backward_body. rewrite Hi.
  wp_step. wp_step. cbn beta.
  assert (normalization (self w) ≠ None →
          is_Some (bnorm_caches fs !! j)) as Hbcj.
  { intros Hne. apply lookup_lt_is_Some_2. rewrite Hbc, Hno.
    rewrite bool_decide_eq_true_2 by done. lia. }
  assert (use_dropout (self w) = true → is_Some (drop_caches fs !! j))
    as Hdcj.
  { intros Hud. apply lookup_lt_is_Some_2. rewrite Hdc, Hd, Hud. lia. }
  destruct (wf_normalization _ Hwf) as [Hnone|[Hbn|Hln]].
  - rewrite Hnone in *.
    rewrite !bool_decide_eq_false_2 by done.
    rewrite bool_decide_eq_false_2 in Hno by naive_solver.
    destruct (use_dropout (self w)) eqn:Hdrop.
    + destruct Hdcj as [dc Hdcj]; [done|].
      wp_step. wp_step. apply wp_index. rewrite Hidx, Hdcj.
      wp_steps. simpl. rewrite HW. wp_steps. bwd_finish Hno Hd.
    + wp_steps. simpl. rewrite HW. wp_steps. bwd_finish Hno Hd.
  - rewrite Hbn in *.
    rewrite !bool_decide_eq_true_2 by done.
    rewrite bool_decide_eq_true_2 in Hno by done.
    destruct Hbcj as [bc Hbcj]; [done|].
    destruct (use_dropout (self w)) eqn:Hdrop.
    + destruct Hdcj as [dc Hdcj]; [done|].
      wp_step. wp_step. apply wp_index. rewrite Hidx, Hdcj.
      wp_step. wp_step. wp_step. apply wp_index. rewrite Hidx, Hbcj.
      wp_steps. simpl. rewrite HW. wp_steps. bwd_finish Hno Hd.
    + wp_step. wp_step. wp_step. wp_step. apply wp_index. rewrite Hidx, Hbcj.
      wp_steps. simpl. rewrite HW. wp_steps. bwd_finish Hno Hd.
  - rewrite Hln in *.
    rewrite bool_decide_eq_false_2 by done.
    rewrite !bool_decide_eq_true_2 by done.
    rewrite bool_decide_eq_true_2 in Hno by done.
    destruct Hbcj as [bc Hbcj]; [done|].
    destruct (use_dropout (self w)) eqn:Hdrop.
    + destruct Hdcj as [dc Hdcj]; [done|].
      wp_step. wp_step. apply wp_index. rewrite Hidx, Hdcj.
      wp_step. wp_step. wp_step. apply wp_index. rewrite Hidx, Hbcj.
      wp_steps. simpl. rewrite HW. wp_steps. bwd_finish Hno Hd.
    + wp_step. wp_step. wp_step. wp_step. apply wp_index. rewrite Hidx, Hbcj.
      wp_steps. simpl. rewrite HW. wp_steps. bwd_finish Hno Hd.
Qed.

Lemma backward_loop_spec w0 fs l : ∀ bs w,
  well_formed (self w0) → frame w0 w →
  (length l ≤ hidden_layers (self w0))%nat →
  length (bnorm_caches fs) =
    (if norm_on (self w0) then hidden_layers (self w0) else 0%nat) →
  length (drop_caches fs) =
    (if use_dropout (self w0) then hidden_layers (self w0) else 0%nat) →
  b_i bs = Z.of_nat (length l) →
  wp (backward_loop fs l bs)
     (λ bs' w', bwd_done w0 (length l) bs w bs' w' ∧ frame w0 w')
     (λ _ _, False) w.
Proof.
  induction l as [|c l IH]; intros bs w Hwf Hf Hlen Hbc Hdc Hi.
  - apply wp_ret. split; [|done]. split; simpl; try done.
    + set_solver.
    + intros; lia.
    + by destruct (use_dropout _).
  - simpl backward_loop. simpl length in *. apply wp_bind.
    eapply wp_mono;
      [apply wp_conj;
        [apply (backward_body_spec w0 w fs c bs (length l)); [done..|lia|done|done|done]
        |by apply (backward_body_frame fs c bs w0 w)]|..];
      cbn beta; [|tauto].
    intros bs1 w1 [[Hi1 Hdom1 Hoth1 Hw1 Hfc1 Hbk1] Hf1].
    eapply wp_mono; [apply (IH bs1 w1); auto; lia|..]; cbn beta; [|done].
    intros bs2 w2 [[Hdom2 Hoth2 Hw2 Hfc2 Hbk2] Hf2]. split; [|done].
    split.
    + rewrite Hdom2, Hdom1. simpl. set_solver.
    + intros p m Hp Hm. rewrite Hoth2, Hoth1 by first [done | lia]. done.
    + intros j Hj. destruct (decide (j = length l)) as [->|Hne].
      * destruct Hw1 as (dW & W & HW & Hg). exists dW, W. split; [done|].
        rewrite Hoth2 by first [prefix_solve | lia]. done.
      * apply Hw2. lia.
    + by rewrite Hfc2, Hfc1.
    + rewrite Hbk2, Hbk1. destruct (use_dropout _); lia.
Qed.

Lemma loss_spec X y w :
  well_formed (self w) →
  wp (loss X y)
     (λ r w', match y with
              | Some y => trained w y r w'
              | None => tested w r w'
              end)
     (λ _ _, False) w.
Proof.
  intros Hwf. pose proof (frame_refl w) as Hf. unfold loss.
  set (n := hidden_layers (self w)).
  wp_step. wp_step. cbn beta.
  wp_step. apply wp_if.
  set (Q := λ _ w', wp _ _ _ w').
  assert (∀ w', frame w w' → calls w' = calls w → Q tt w') as HQ; last first.
  { destruct (use_dropout (self w)) eqn:?; wp_step; apply HQ; try done;
      by frame_finish. }
  clear Hf. intros w1 Hf Hc1. subst Q. cbn beta.
  wp_step.
  set (Q := λ _ w', wp _ _ _ w').
  assert (∀ w', frame w w' → calls w' = calls w → Q tt w') as HQ; last first.
  { case_bool_decide; wp_step; apply HQ; try done; by frame_finish. }
  clear dependent w1. intros w1 Hf Hc1. subst Q. cbn beta.
  wp_step.
  eapply wp_mono;
    [apply (forward_loop_spec w n 0 _ w1 Hwf Hf); [done|]|..];
    cbn beta; [| |done].
  { split; simpl; rewrite ?Hc1; try done.
    - by destruct (norm_on _).
    - by destruct (use_dropout _).
    - destruct (use_dropout _); lia. }
  clear dependent w1. simpl. intros fs w1 [[Hi Hc Hbc Hdc Hrs Hfc Hbk] Hf].
  destruct (params_final _ Hwf) as [[W HW] [b Hb]]. fold n in HW, Hb.
  rewrite Hi. wp_step. apply wp_getitem. rewrite HW.
  wp_step. apply wp_getitem. rewrite Hb.
  wp_step. wp_step. destruct (affine_forward _ W b) as [out cache] eqn:Hout.
  cbn beta iota.
  destruct y as [y|].
  - wp_step. wp_step. destruct (softmax_loss out y) as [l dprob] eqn:Hdata.
    cbn beta iota.
    wp_step. wp_step.
    destruct (affine_backward dprob cache) as [[dx dW] db] eqn:Hback.
    cbn beta iota. wp_step.
    eapply wp_mono;
      [apply (backward_loop_spec w fs (reverse (caches fs)) _ _ Hwf);
         rewrite ?length_reverse, ?Hc; try done;
         [by frame_finish | simpl; f_equal; lia]|..];
      cbn beta; [|done].
    rewrite length_reverse, Hc. fold n.
    intros bs w2 [[Hdom Hoth Hwt Hfc2 Hbk2] Hf2]. wp_step.
    simpl in Hdom, Hoth, Hfc2, Hbk2.
    pose proof (Trained w y (f_cur_layer fs) W b (reg_sum fs) (b_grads bs) w2)
      as HT.
    cbn zeta in HT. rewrite Hout in HT. simpl in HT.
    rewrite Hdata in HT. simpl in HT. rewrite Hback in HT. simpl in HT.
    apply HT; clear HT; try done.
    + rewrite Hdom, !dom_insert_L, dom_empty_L, (wf_params _ Hwf).
      unfold param_names, layer_names, norm_on. fold n. set_solver.
    + rewrite Hoth by first [prefix_solve | lia]. lookup_keys. done.
    + rewrite Hoth by first [prefix_solve | lia]. lookup_keys. done.
    + rewrite Hfc2, !calls_of_snoc, Hfc. simpl. fold n. lia.
    + rewrite Hbk2, !calls_of_snoc, Hbk. simpl. fold n. lia.
  - wp_step.
    pose proof (Tested w (f_cur_layer fs) W b
                  (World (self w1) (np_random w1)
                         (calls w1 ++ [affine_forward_call]))) as HT.
    cbn zeta in HT. rewrite Hout in HT. simpl in HT.
    apply HT; clear HT; try done.
    + rewrite calls_of_snoc, Hfc. simpl. fold n. lia.
    + rewrite calls_of_snoc, Hbk. simpl. lia.
Qed.
End total.

(** ** Two runs in lockstep *)

Section relational.
Context `{L : Layers}.
Import FullyConnectedNet.

Lemma rwp_ret {A B} (a : A) (b : B) Q w1 w2 :
  Q a w1 b w2 → rwp (mret a) (mret b) Q w1 w2.
Proof. done. Qed.

Lemma rwp_bind {A A' B B'} (m1 : M t A) (m2 : M t B)
    (k1 : A → M t A') (k2 : B → M t B') Q w1 w2 :
  rwp m1 m2 (λ a w1' b w2', rwp (k1 a) (k2 b) Q w1' w2') w1 w2 →
  rwp (m1 ≫= k1) (m2 ≫= k2) Q w1 w2.
Proof.
  unfold rwp, mbind, M_bind, bind.
  by destruct (m1 w1) as [[?|?] ?], (m2 w2) as [[?|?] ?].
Qed.

Lemma rwp_mono {A B} (m1 : M t A) (m2 : M t B) (Q Q' : A → world t → B → world t → Prop) w1 w2 :
  rwp m1 m2 Q w1 w2 →
  (∀ a w1' b w2', Q a w1' b w2' → Q' a w1' b w2') →
  rwp m1 m2 Q' w1 w2.
Proof.
  unfold rwp. destruct (m1 w1) as [[?|?] ?], (m2 w2) as [[?|?] ?]; auto.
Qed.

Lemma rwp_get_self Q w1 w2 :
  Q (self w1) w1 (self w2) w2 → rwp get_self get_self Q w1 w2.
Proof. done. Qed.

Lemma rwp_getitem {V} (d1 d2 : gmap string V) k Q w1 w2 :
  d1 = d2 →
  (∀ v, d1 !! k = Some v → Q v w1 v w2) →
  rwp (getitem d1 k) (getitem d2 k) Q w1 w2.
Proof.
  intros <- HQ. unfold rwp, getitem. destruct (d1 !! k); simpl; auto.
Qed.

Lemma rwp_index {V} (l1 l2 : list V) k Q w1 w2 :
  l1 = l2 →
  (∀ v, py_index l1 k = Some v → Q v w1 v w2) →
  rwp (index l1 k) (index l2 k) Q w1 w2.
Proof.
  intros <- HQ. unfold rwp, index. destruct (py_index l1 k); simpl; auto.
Qed.

Lemma rwp_invoke {A B} c1 c2 (a : A) (b : B) Q w1 w2 :
  Q a (World (self w1) (np_random w1) (calls w1 ++ [c1]))
    b (World (self w2) (np_random w2) (calls w2 ++ [c2])) →
  rwp (invoke c1 a) (invoke c2 b) Q w1 w2.
Proof. done. Qed.

Lemma rwp_modify_self f1 f2 Q w1 w2 :
  Q tt (World (f1 (self w1)) (np_random w1) (calls w1))
    tt (World (f2 (self w2)) (np_random w2) (calls w2)) →
  rwp (modify_self f1) (modify_self f2) Q w1 w2.
Proof. done. Qed.

Lemma rwp_affine_relu_forward x W b Q w1 w2 :
  (∀ l, Q ((relu_forward (affine_forward x W b).1).1,
     ((affine_forward x W b).2, (relu_forward (affine_forward x W b).1).2))
    (World (self w1) (np_random w1) (calls w1 ++ l))
    ((relu_forward (affine_forward x W b).1).1,
     ((affine_forward x W b).2, (relu_forward (affine_forward x W b).1).2))
    (World (self w2) (np_random w2) (calls w2 ++ l))) →
  rwp (affine_relu_forward x W b) (affine_relu_forward x W b) Q w1 w2.
Proof.
  intros HQ. unfold affine_relu_forward.
  apply rwp_bind, rwp_invoke. destruct (affine_forward x W b) as [a fc]; simpl in *.
  apply rwp_bind, rwp_invoke. destruct (relu_forward a) as [out rc]; simpl in *.
  apply rwp_ret. rewrite <-!app_assoc. apply HQ.
Qed.

Lemma sim_self w1 w2 w1' w2' :
  self w1' = self w1 → self w2' = self w2 → sim w1 w2 → sim w1' w2'.
Proof. intros H1 H2 []. split; rewrite ?H1, ?H2; done. Qed.

Lemma sim_calls w1 w2 g1 g2 c1 c2 :
  sim w1 w2 →
  sim (World (self w1) g1 c1) (World (self w2) g2 c2).
Proof. by intros []. Qed.

Lemma sim_set_bn_params w1 w2 f g1 g2 c1 c2 :
  sim w1 w2 →
  sim (World (set_bn_params f (self w1)) g1 c1)
      (World (set_bn_params f (self w2)) g2 c2).
Proof. intros []. split; simpl; try done. congruence. Qed.

Lemma forward_body_sim `{!DropoutTestIdentity L} fs1 fs2 w1 w2 :
  sim w1 w2 → fwd_sim fs1 fs2 →
  rwp (forward_body fs1) (forward_body fs2)
      (λ fs1' w1' fs2' w2', fwd_sim fs1' fs2' ∧ sim w1' w2') w1 w2.
Proof.
  intros Hs [Hi Hx]. pose proof Hs as [Hp Hn Hl Ht Hb Hd2 Hd1].
  unfold forward_body. rewrite <-Hi, <-Hx.
  apply rwp_bind, rwp_get_self.
  apply rwp_bind, rwp_getitem; [done|]. intros W _.
  apply rwp_bind, rwp_getitem; [done|]. intros b _.
  apply rwp_bind, rwp_affine_relu_forward. intros l. cbn beta iota.
  simpl self. rewrite <-Hn, Hd2.
  set (h := (relu_forward _).1).
  set (W1 := World (self w1) _ _). set (W2 := World (self w2) _ _).
  assert (sim W1 W2) as Hs' by by apply sim_calls.
  clearbody W1 W2 h.
  apply rwp_bind.
  eapply (rwp_mono _ _ (λ a w1' b w2', a.1 = b.1 ∧ sim w1' w2')).
  { repeat case_bool_decide.
    - apply rwp_bind, rwp_getitem; [done|]. intros gamma _.
      apply rwp_bind, rwp_getitem; [done|]. intros beta _.
      apply rwp_bind, rwp_index; [done|]. intros bn _.
      apply rwp_bind, rwp_invoke.
      destruct (batchnorm_forward h gamma beta bn) as [[out c] bn'].
      apply rwp_bind, rwp_modify_self. apply rwp_ret.
      split; [done|]. apply sim_set_bn_params. by apply sim_calls.
    - apply rwp_bind, rwp_getitem; [done|]. intros gamma _.
      apply rwp_bind, rwp_getitem; [done|]. intros beta _.
      apply rwp_bind, rwp_index; [done|]. intros bn _.
      apply rwp_bind, rwp_invoke.
      destruct (layernorm_forward h gamma beta bn) as [out c].
      apply rwp_ret. split; [done|]. by apply sim_calls.
    - by apply rwp_ret. }
  clear dependent W1 W2. cbn beta.
  intros [o1 c1] W1 [o2 c2] W2 [Ho Hs']. simpl in Ho. subst o2.
  apply rwp_bind.
  eapply (rwp_mono _ _ (λ a w1' b w2', a.1 = b.1 ∧ sim w1' w2')).
  { destruct (use_dropout (self w1)) eqn:Hud.
    - unfold rwp, mbind, M_bind, bind, invoke_random.
      pose proof (dropout_test_identity o1 (dropout_param (self w1))
                    (np_random W1) (Hd1 eq_refl)) as Hid.
      destruct (dropout_forward o1 _ _) as [[o d] g]. simpl in *.
      split; [done|]. by apply (sim_self W1 W2).
    - by apply rwp_ret. }
  cbn beta. intros [o1' d1] W1' [o2' d2] W2' [Ho Hs'']. simpl in Ho. subst.
  apply rwp_ret. by split.
Qed.

Lemma forward_loop_sim `{!DropoutTestIdentity L} n : ∀ fs1 fs2 w1 w2,
  sim w1 w2 → fwd_sim fs1 fs2 →
  rwp (forward_loop n fs1) (forward_loop n fs2)
      (λ fs1' w1' fs2' w2', fwd_sim fs1' fs2' ∧ sim w1' w2') w1 w2.
Proof.
  induction n as [|n IH]; intros fs1 fs2 w1 w2 Hs Hfs; simpl.
  - by apply rwp_ret.
  - apply rwp_bind.
    eapply rwp_mono; [by apply forward_body_sim|]. cbn beta.
    intros fs1' w1' fs2' w2' [??]. by apply IH.
Qed.

Lemma loss_test_sim `{!DropoutTestIdentity L} X w1 w2 :
  params (self w1) = params (self w2) →
  normalization (self w1) = normalization (self w2) →
  num_layers (self w1) = num_layers (self w2) →
  dtype (self w1) = dtype (self w2) →
  bn_params (self w1) = bn_params (self w2) →
  use_dropout (self w2) = false →
  rwp (loss X None) (loss X None) (λ r1 _ r2 _, r1 = r2) w1 w2.
Proof.
  intros Hp Hn Hl Ht Hb Hd2. unfold loss.
  apply rwp_bind, rwp_get_self. rewrite Hd2, <-Hn, <-Hl, <-Ht. simpl mode_of.
  apply rwp_bind.
  eapply (rwp_mono _ _ (λ _ w1' _ w2', sim w1' w2')).
  { destruct (use_dropout (self w1)) eqn:Hud.
    - unfold rwp, modify_self. simpl. split; simpl; try done.
      intros _. apply lookup_insert_eq.
    - apply rwp_ret. split; try done. congruence. }
  cbn beta. intros _ W1 _ W2 Hs.
  apply rwp_bind.
  eapply (rwp_mono _ _ (λ _ w1' _ w2', sim w1' w2')).
  { case_bool_decide.
    - apply rwp_modify_self. by apply sim_set_bn_params.
    - by apply rwp_ret. }
  clear dependent W1 W2. cbn beta. intros _ W1 _ W2 Hs.
  apply rwp_bind.
  eapply rwp_mono; [apply forward_loop_sim; [done|by split]|]. cbn beta.
  clear dependent W1 W2. intros fs1 W1 fs2 W2 [[Hi Hx] Hs].
  rewrite <-Hi, <-Hx.
  apply rwp_bind, rwp_getitem; [done|]. intros W _.
  apply rwp_bind, rwp_getitem; [done|]. intros b _.
  apply rwp_bind, rwp_invoke. destruct (affine_forward _ W b) as [out cache].
  by apply rwp_ret.
Qed.
End relational.

(** ** Two runs with different regularisation strengths *)

Section reg.
Context `{L : Layers}.
Import FullyConnectedNet.

Lemma rwp_invoke_random {A} c (f : rng → A * rng) Q w1 w2 :
  np_random w1 = np_random w2 →
  Q (f (np_random w1)).1
    (World (self w1) (f (np_random w1)).2 (calls w1 ++ [c]))
    (f (np_random w1)).1
    (World (self w2) (f (np_random w1)).2 (calls w2 ++ [c])) →
  rwp (invoke_random c f) (invoke_random c f) Q w1 w2.
Proof.
  intros Hg HQ. unfold rwp, invoke_random. rewrite <-Hg.
  by destruct (f (np_random w1)).
Qed.

Lemma reg_sim_self pm r1 r2 w1 w2 w1' w2' :
  self w1' = self w1 → self w2' = self w2 → np_random w1' = np_random w2' →
  reg_sim pm r1 r2 w1 w2 → reg_sim pm r1 r2 w1' w2'.
Proof. intros H1 H2 Hg []. split; rewrite ?H1, ?H2; done. Qed.

Lemma reg_sim_calls pm r1 r2 w1 w2 c1 c2 :
  reg_sim pm r1 r2 w1 w2 →
  reg_sim pm r1 r2 (World (self w1) (np_random w1) c1)
    (World (self w2) (np_random w2) c2).
Proof. by intros []. Qed.

Lemma reg_sim_set_bn_params pm r1 r2 w1 w2 f g c1 c2 :
  reg_sim pm r1 r2 w1 w2 →
  reg_sim pm r1 r2 (World (set_bn_params f (self w1)) g c1)
    (World (set_bn_params f (self w2)) g c2).
Proof. intros []. split; simpl; try done. congruence. Qed.

Lemma reg_sim_set_dropout_param pm r1 r2 w1 w2 f g c1 c2 :
  reg_sim pm r1 r2 w1 w2 →
  reg_sim pm r1 r2 (World (set_dropout_param f (self w1)) g c1)
    (World (set_dropout_param f (self w2)) g c2).
Proof. intros []. split; simpl; try done. congruence. Qed.

Lemma forward_body_reg_sim pm r1 r2 fs w1 w2 :
  reg_sim pm r1 r2 w1 w2 →
  rwp (forward_body fs) (forward_body fs)
      (λ fs1 w1' fs2 w2',
         fs1 = fs2 ∧ f_i fs1 = (f_i fs + 1)%Z ∧
         length (caches fs1) = S (length (caches fs)) ∧
         reg_sim pm r1 r2 w1' w2')
      w1 w2.
Proof.
  intros Hs. pose proof Hs as [_ _ _ Hp Hn Hd Hl Ht Hdp Hb Hg].
  unfold forward_body.
  apply rwp_bind, rwp_get_self.
  apply rwp_bind, rwp_getitem; [done|]. intros W _.
  apply rwp_bind, rwp_getitem; [done|]. intros b _.
  apply rwp_bind, rwp_affine_relu_forward. intros l. cbn beta iota.
  simpl self. rewrite <-Hn, <-Hd, <-Hdp.
  set (h := (relu_forward _).1).
  set (W1 := World (self w1) _ _). set (W2 := World (self w2) _ _).
  assert (reg_sim pm r1 r2 W1 W2) as Hs'
    by by apply (reg_sim_self _ _ _ w1 w2).
  clearbody W1 W2 h.
  apply rwp_bind.
  eapply (rwp_mono _ _ (λ a w1' b w2', a = b ∧ reg_sim pm r1 r2 w1' w2')).
  { repeat case_bool_decide.
    - apply rwp_bind, rwp_getitem; [done|]. intros gamma _.
      apply rwp_bind, rwp_getitem; [done|]. intros beta _.
      apply rwp_bind, rwp_index; [done|]. intros bn _.
      apply rwp_bind, rwp_invoke.
      destruct (batchnorm_forward h gamma beta bn) as [[out c] bn'].
      apply rwp_bind, rwp_modify_self. apply rwp_ret.
      split; [done|]. destruct Hs'. split; simpl; try done. congruence.
    - apply rwp_bind, rwp_getitem; [done|]. intros gamma _.
      apply rwp_bind, rwp_getitem; [done|]. intros beta _.
      apply rwp_bind, rwp_index; [done|]. intros bn _.
      apply rwp_bind, rwp_invoke.
      destruct (layernorm_forward h gamma beta bn) as [out c].
      apply rwp_ret. split; [done|]. by destruct Hs'.
    - by apply rwp_ret. }
  clear dependent W1 W2. cbn beta.
  intros [o1 c1] W1 ? W2 [<- Hs'].
  apply rwp_bind.
  eapply (rwp_mono _ _ (λ a w1' b w2', a = b ∧ reg_sim pm r1 r2 w1' w2')).
  { destruct (use_dropout (self w1)) eqn:Hud.
    - apply rwp_bind, rwp_invoke_random; [by destruct Hs'|].
      destruct (dropout_forward o1 _ _).1 as [o d].
      apply rwp_ret. split; [done|]. by destruct Hs'.
    - by apply rwp_ret. }
  cbn beta. intros [o1' d1] W1' ? W2' [<- Hs''].
  apply rwp_ret. simpl. rewrite length_app. simpl.
  split; [done|]. split; [done|]. split; [lia|done].
Qed.

Lemma forward_loop_reg_sim pm r1 r2 n : ∀ fs w1 w2,
  reg_sim pm r1 r2 w1 w2 →
  rwp (forward_loop n fs) (forward_loop n fs)
      (λ fs1 w1' fs2 w2',
         fs1 = fs2 ∧ f_i fs1 = (f_i fs + Z.of_nat n)%Z ∧
         length (caches fs1) = (length (caches fs) + n)%nat ∧
         reg_sim pm r1 r2 w1' w2')
      w1 w2.
Proof.
  induction n as [|n IH]; intros fs w1 w2 Hs; simpl forward_loop.
  - apply rwp_ret. split; [done|]. split; [lia|]. split; [lia|done].
  - apply rwp_bind.
    eapply rwp_mono; [by apply forward_body_reg_sim|]. cbn beta.
    intros fs1 w1' ? w2' (<- & Hi & Hc & Hs').
    eapply rwp_mono; [by apply IH|]. cbn beta.
    intros fs2 w1'' ? w2'' (<- & Hi' & Hc' & Hs'').
    split; [done|]. split; [lia|]. split; [lia|done].
Qed.

Lemma rwp_affine_relu_backward dout cache Q w1 w2 :
  (∀ l, Q (affine_backward (relu_backward dout cache.2) cache.1)
          (World (self w1) (np_random w1) (calls w1 ++ l))
          (affine_backward (relu_backward dout cache.2) cache.1)
          (World (self w2) (np_random w2) (calls w2 ++ l))) →
  rwp (affine_relu_backward dout cache) (affine_relu_backward dout cache)
      Q w1 w2.
Proof.
  intros HQ. unfold affine_relu_backward. destruct cache as [fc rc].
  apply rwp_bind, rwp_invoke. simpl. apply rwp_invoke. simpl.
  rewrite <-!app_assoc. apply HQ.
Qed.

Lemma grads_sim_insert pm r1 r2 lo hi g1 g2 q i v :
  q ∈ prefixes → q ≠ "W" →
  grads_sim pm r1 r2 lo hi g1 g2 →
  grads_sim pm r1 r2 lo hi (<[key q i := v]> g1) (<[key q i := v]> g2).
Proof.
  intros Hq Hne H p j Hp. specialize (H p j Hp).
  destruct (decide (q = p ∧ i = j)) as [[<- <-]|Hne'].
  - rewrite bool_decide_eq_false_2 by (by intros [? _]).
    by rewrite !lookup_insert_eq.
  - case_bool_decide.
    + destruct H as (d & W & HW & H1 & H2). exists d, W.
      by rewrite !lookup_insert_ne by (intros ?%key_eq_inv; done).
    + by rewrite !lookup_insert_ne by (intros ?%key_eq_inv; done).
Qed.

Lemma grads_sim_insert_weight pm r1 r2 i hi g1 g2 d W :
  pm !! key "W" i = Some W → (i ≤ hi)%Z →
  grads_sim pm r1 r2 i hi g1 g2 →
  grads_sim pm r1 r2 (i - 1) hi
    (<[key "W" i := t_add d (t_scale r1 W)]> g1)
    (<[key "W" i := t_add d (t_scale r2 W)]> g2).
Proof.
  intros HW Hi H p j Hp. specialize (H p j Hp).
  assert ("W" ∈ prefixes) as HWp by prefix_solve.
  destruct (decide ("W" = p ∧ i = j)) as [[<- <-]|Hne'].
  - rewrite bool_decide_eq_true_2 by (split; [done|lia]).
    exists d, W. by rewrite !lookup_insert_eq.
  - assert ((p = "W" ∧ i - 1 < j ≤ hi)%Z ↔ (p = "W" ∧ i < j ≤ hi)%Z) as Hiff.
    { split; intros [-> ?]; (split; [done|]);
        destruct (decide (i = j)); [naive_solver|lia|naive_solver|lia]. }
    rewrite (bool_decide_ext _ _ Hiff).
    case_bool_decide.
    + destruct H as (d' & W' & HW' & H1 & H2). exists d', W'.
      by rewrite !lookup_insert_ne by (intros ?%key_eq_inv; done).
    + by rewrite !lookup_insert_ne by (intros ?%key_eq_inv; done).
Qed.

Lemma backward_body_reg_sim pm r1 r2 hi fs c bs1 bs2 w1 w2 :
  reg_sim pm r1 r2 w1 w2 → bwd_sim pm r1 r2 hi bs1 bs2 →
  rwp (backward_body fs c bs1) (backward_body fs c bs2)
      (λ bs1' w1' bs2' w2',
         b_i bs1' = (b_i bs1 - 1)%Z ∧ bwd_sim pm r1 r2 hi bs1' bs2' ∧
         reg_sim pm r1 r2 w1' w2')
      w1 w2.
Proof.
  intros Hs (Hi & Hx & Hhi & Hg).
  pose proof Hs as [Hr1 Hr2 Hpm Hp Hn Hd Hl Ht Hdp Hb Hrng].
  unfold backward_body. rewrite <-Hi, <-Hx.
  apply rwp_bind, rwp_get_self. rewrite <-Hn, <-Hd, <-Hp, Hr1, Hr2.
  apply rwp_bind.
  eapply (rwp_mono _ _ (λ a w1' b w2', a = b ∧ reg_sim pm r1 r2 w1' w2')).
  { destruct (use_dropout (self w1)).
    - apply rwp_bind, rwp_index; [done|]. intros dc _.
      apply rwp_invoke. split; [done|]. by apply reg_sim_calls.
    - by apply rwp_ret. }
  cbn beta. intros dout W1 ? W2 [<- Hs1].
  apply rwp_bind.
  eapply (rwp_mono _ _
    (λ a w1' b w2',
       a.1 = b.1 ∧ grads_sim pm r1 r2 (b_i bs1) hi a.2 b.2 ∧
       reg_sim pm r1 r2 w1' w2')).
  { repeat case_bool_decide.
    - apply rwp_bind, rwp_index; [done|]. intros bc _.
      apply rwp_bind, rwp_invoke.
      destruct (batchnorm_backward_alt dout bc) as [[dx dgamma] dbeta].
      apply rwp_ret. simpl. split; [done|]. split.
      + apply grads_sim_insert; [prefix_solve|discriminate|].
        apply grads_sim_insert; [prefix_solve|discriminate|done].
      + by apply reg_sim_calls.
    - apply rwp_bind, rwp_index; [done|]. intros bc _.
      apply rwp_bind, rwp_invoke.
      destruct (layernorm_backward dout bc) as [[dx dgamma] dbeta].
      apply rwp_ret. simpl. split; [done|]. split.
      + apply grads_sim_insert; [prefix_solve|discriminate|].
        apply grads_sim_insert; [prefix_solve|discriminate|done].
      + by apply reg_sim_calls.
    - by apply rwp_ret. }
  cbn beta. clear dependent W1 W2.
  intros [dout1 g1] W1 [? g2] W2 (Heq & Hg' & Hs2). simpl in Heq, Hg'.
  subst.
  apply rwp_bind, rwp_affine_relu_backward. intros l.
  destruct (affine_backward _ _) as [[dx dW] db]. cbn beta iota.
  apply rwp_bind, rwp_getitem; [done|]. intros W HW.
  apply rwp_ret. simpl. split; [done|]. split.
  - split; [done|]. split; [done|]. simpl. split; [lia|].
    apply grads_sim_insert; [prefix_solve|discriminate|].
    by apply grads_sim_insert_weight.
  - destruct Hs2. by split.
Qed.

Lemma backward_loop_reg_sim pm r1 r2 hi fs l : ∀ bs1 bs2 w1 w2,
  reg_sim pm r1 r2 w1 w2 → bwd_sim pm r1 r2 hi bs1 bs2 →
  rwp (backward_loop fs l bs1) (backward_loop fs l bs2)
      (λ bs1' w1' bs2' w2',
         grads_sim pm r1 r2 (b_i bs1 - Z.of_nat (length l)) hi
                   (b_grads bs1') (b_grads bs2'))
      w1 w2.
Proof.
  induction l as [|c l IH]; intros bs1 bs2 w1 w2 Hs Hb; simpl backward_loop.
  - apply rwp_ret. simpl. rewrite Z.sub_0_r. apply Hb.
  - apply rwp_bind.
    eapply rwp_mono; [by apply backward_body_reg_sim|]. cbn beta.
    intros bs1' w1' bs2' w2' (Hi & Hb' & Hs').
    eapply rwp_mono; [by apply IH|]. cbn beta.
    intros bs1'' w1'' bs2'' w2'' Hg. rewrite Hi in Hg.
    by replace (b_i bs1 - Z.of_nat (length (c :: l)))%Z
      with (b_i bs1 - 1 - Z.of_nat (length l))%Z by (simpl; lia).
Qed.

Lemma loss_reg_sim pm r1 r2 X y w1 w2 :
  reg_sim pm r1 r2 w1 w2 →
  rwp (loss X (Some y)) (loss X (Some y))
      (λ v1 _ v2 _, ∃ l1 g1 l2 g2,
         v1 = LossGrads l1 g1 ∧ v2 = LossGrads l2 g2 ∧
         grads_sim pm r1 r2 0 (Z.of_nat (hidden_layers (self w1))) g1 g2)
      w1 w2.
Proof.
  intros Hs. pose proof Hs as [Hr1 Hr2 Hpm Hp Hn Hd Hl Ht Hdp Hb Hrng].
  unfold loss, hidden_layers.
  apply rwp_bind, rwp_get_self. rewrite <-Hn, <-Hd, <-Hl, <-Ht, <-Hp.
  apply rwp_bind.
  eapply (rwp_mono _ _ (λ _ w1' _ w2', reg_sim pm r1 r2 w1' w2')).
  { destruct (use_dropout (self w1)).
    - apply rwp_modify_self. rewrite <-Hrng.
      by apply reg_sim_set_dropout_param.
    - by apply rwp_ret. }
  cbn beta. intros _ W1 _ W2 Hs1.
  apply rwp_bind.
  eapply (rwp_mono _ _ (λ _ w1' _ w2', reg_sim pm r1 r2 w1' w2')).
  { case_bool_decide.
    - apply rwp_modify_self. destruct Hs1 as [? ? ? ? ? ? ? ? ? ? Hg].
      rewrite <-Hg. by apply reg_sim_set_bn_params.
    - by apply rwp_ret. }
  cbn beta. clear dependent W1 W2. intros _ W1 _ W2 Hs1.
  set (n := range_len (num_layers (self w1) - 1)).
  apply rwp_bind.
  eapply rwp_mono; [by apply forward_loop_reg_sim|]. cbn beta.
  clear dependent W1 W2. intros fs W1 ? W2 (<- & Hi & Hc & Hs1).
  simpl in Hi, Hc.
  apply rwp_bind, rwp_getitem; [done|]. intros W _.
  apply rwp_bind, rwp_getitem; [done|]. intros b _.
  apply rwp_bind, rwp_invoke. destruct (affine_forward _ W b) as [out cache].
  apply rwp_bind, rwp_invoke. destruct (softmax_loss out y) as [l dprob].
  apply rwp_bind, rwp_invoke.
  destruct (affine_backward dprob cache) as [[dx dW] db].
  apply rwp_bind.
  eapply rwp_mono;
    [apply (backward_loop_reg_sim pm r1 r2 (Z.of_nat n));
       [by repeat apply reg_sim_calls|]|].
  { split; [done|]. split; [done|]. simpl. split; [lia|].
    intros p j Hp'. rewrite bool_decide_eq_false_2 by lia. done. }
  cbn beta. intros bs1 W1' bs2 W2' Hg. apply rwp_ret.
  eexists _, _, _, _. split; [done|]. split; [done|].
  simpl in Hg. rewrite length_reverse, Hc in Hg.
  by replace (f_i fs - 1 - Z.of_nat n)%Z with 0%Z in Hg by lia.
Qed.
End reg.

(** ** The properties of the specification *)

Ltac stage_finish :=
  simpl in *; rewrite <-?app_assoc;
  split;
  [ first [ done
          | by match goal with H : _.1 = (_, _) |- _ => rewrite H end ]
  | done ].

Section final.
Context `{L : Layers}.
Import FullyConnectedNet.

Lemma two_layer_loss_frame X y (w : world TwoLayerNet.t) :
  wp (TwoLayerNet.loss X y) (λ _ w', self w' = self w)
     (λ _ w', self w' = self w) w.
Proof.
  unfold TwoLayerNet.loss.
  repeat (first [wp_step | case_match]; cbn beta iota zeta; try done).
Qed.

(** C9.  A call of [loss], on [FullyConnectedNet] as on [TwoLayerNet], with
    or without labels, whether it returns or raises, leaves every entry of
    [self.params] as it was: the parameters are only read, the gradients are
    returned in a separate dictionary. *)
Theorem loss_preserves_params :
  (∀ X y (w : world FullyConnectedNet.t),
     params (self (FullyConnectedNet.loss X y w).2) = params (self w)) ∧
  (∀ X y (w : world TwoLayerNet.t),
     TwoLayerNet.params (self (TwoLayerNet.loss X y w).2) =
     TwoLayerNet.params (self w)).
Proof.
  split; intros X y w.
  - pose proof (wp_elim _ _ _ _ (loss_frame X y w w (frame_refl w))) as H.
    destruct (loss X y w).1; apply H.
  - pose proof (wp_elim _ _ _ _ (two_layer_loss_frame X y w)) as H.
    destruct (TwoLayerNet.loss X y w).1; by rewrite H.
Qed.

Lemma wp_value {Self A} (m : M Self A) Q (w : world Self) :
  wp m Q (λ _ _, False) w → ∃ a, (m w).1 = inr a ∧ Q a (m w).2.
Proof. unfold wp. destruct (m w) as [[e|a] w']; [done|]. by exists a. Qed.

(** C5.  With no hidden layer, the test-time forward pass returns the
    output of the single affine transform of the input (cast to the
    configured dtype) with [W1] and [b1], and [affine_forward] is the only
    layer primitive it invokes: no activation, normalisation or dropout. *)
Theorem loss_without_hidden_layers X (w : world t) W b :
  num_layers (self w) = 1%Z →
  params (self w) !! "W1" = Some W →
  params (self w) !! "b1" = Some b →
  (loss X None w).1 =
    inr (Scores (affine_forward (np_copy (astype X (dtype (self w)))) W b).1) ∧
  calls (loss X None w).2 = calls w ++ [affine_forward_call].
Proof.
  intros Hn HW Hb.
  cut (wp (loss X None)
          (λ r w', r = Scores (affine_forward
                                 (np_copy (astype X (dtype (self w)))) W b).1 ∧
                   calls w' = calls w ++ [affine_forward_call])
          (λ _ _, False) w).
  { intros (r & -> & -> & ->)%wp_value. done. }
  unfold loss. wp_step. wp_step. cbn beta.
  rewrite Hn. change (range_len (1 - 1)) with 0%nat. simpl forward_loop.
  assert (key "W" 1 = "W1") as HkW by reflexivity.
  assert (key "b" 1 = "b1") as Hkb by reflexivity.
  destruct (use_dropout (self w)); case_bool_decide;
    wp_steps; simpl; rewrite ?HkW, ?HW; wp_steps; simpl; rewrite ?Hkb, ?Hb;
    wp_steps; done.
Qed.

(** C3.  What a hidden layer computes when normalisation is enabled: the
    affine transform, then the rectified-linear activation, then the
    normalisation of the activation's output, then dropout if enabled.  The
    normalisation is applied after ReLU, not to the pre-activation, and its
    result is not rectified. *)
Theorem hidden_layer_normalizes_after_relu fs (w : world t) kind W b gamma beta p :
  normalization (self w) = Some kind →
  kind = "batchnorm" ∨ kind = "layernorm" →
  params (self w) !! key "W" (f_i fs) = Some W →
  params (self w) !! key "b" (f_i fs) = Some b →
  params (self w) !! key "gamma" (f_i fs) = Some gamma →
  params (self w) !! key "beta" (f_i fs) = Some beta →
  py_index (bn_params (self w)) (f_i fs - 1) = Some p →
  let z :=
    normalize kind (relu_forward (affine_forward (f_cur_layer fs) W b).1).1
              gamma beta p in
  ∃ fs' w',
    forward_body fs w = (inr fs', w') ∧
    f_cur_layer fs' =
      (if use_dropout (self w)
       then (dropout_forward z (dropout_param (self w)) (np_random w)).1.1
       else z) ∧
    calls w' =
      calls w ++ [affine_forward_call; relu_forward_call; normalize_call kind] ++
      (if use_dropout (self w) then [dropout_forward_call] else []).
Proof.
  intros Hk Hkind HW Hb Hg Hbeta Hp z.
  cut (wp (forward_body fs)
          (λ fs' w',
             f_cur_layer fs' =
               (if use_dropout (self w)
                then (dropout_forward z (dropout_param (self w)) (np_random w)).1.1
                else z) ∧
             calls w' =
               calls w ++ [affine_forward_call; relu_forward_call;
                           normalize_call kind] ++
               (if use_dropout (self w) then [dropout_forward_call] else []))
          (λ _ _, False) w).
  { unfold wp. destruct (forward_body fs w) as [[e|fs'] w']; [done|]. eauto. }
  subst z. unfold forward_body, normalize, normalize_call.
  wp_step. wp_step. cbn beta. rewrite Hk.
  wp_step. apply wp_getitem. rewrite HW.
  wp_step. apply wp_getitem. rewrite Hb.
  wp_step. wp_step. cbn beta iota.
  destruct Hkind as [-> | ->].
  - rewrite !bool_decide_eq_true_2 by done.
    wp_step. wp_step. apply wp_getitem. rewrite Hg.
    wp_step. apply wp_getitem. rewrite Hbeta.
    wp_step. apply wp_index. rewrite Hp.
    wp_step. wp_step.
    destruct (batchnorm_forward _ gamma beta p) as [[out c] bn'].
    cbn beta iota. wp_steps. simpl.
    destruct (use_dropout (self w)); wp_steps; stage_finish.
  - rewrite (bool_decide_eq_false_2 (Some "layernorm" = Some "batchnorm"))
      by done.
    rewrite (bool_decide_eq_false_2 ("layernorm" = "batchnorm")) by done.
    rewrite !bool_decide_eq_true_2 by done.
    wp_step. wp_step. apply wp_getitem. rewrite Hg.
    wp_step. apply wp_getitem. rewrite Hbeta.
    wp_step. apply wp_index. rewrite Hp.
    wp_step. wp_step.
    destruct (layernorm_forward _ gamma beta p) as [out c].
    cbn beta iota. wp_steps. simpl.
    destruct (use_dropout (self w)); wp_steps; stage_finish.
Qed.

Lemma init_well_formed hidden_dims input_dim num_classes dropout norm reg ws dt
    seed g o :
  norm = None ∨ norm = Some "batchnorm" ∨ norm = Some "layernorm" →
  constructed hidden_dims input_dim num_classes dropout norm reg ws dt seed g o →
  well_formed o ∧ hidden_layers o = length hidden_dims.
Proof.
  intros Hnorm [Hn Hd Hr Hl Ht Hdp Hbn Hh Hf Hdom].
  assert (hidden_layers o = length hidden_dims) as Hhl.
  { unfold hidden_layers, range_len. rewrite Hl. lia. }
  split; [|done]. split; rewrite ?Hhl, ?Hn, ?Hl; try done.
  - lia.
  - intros Hne. rewrite Hbn.
    destruct Hnorm as [-> | [-> | ->]]; [done|..];
      repeat case_bool_decide; try done; by rewrite length_replicate.
Qed.

Lemma loss_outcome X y (w : world t) :
  well_formed (self w) →
  ∃ r, (loss X y w).1 = inr r ∧
       match y with
       | Some y => trained w y r (loss X (Some y) w).2
       | None => tested w r (loss X None w).2
       end.
Proof.
  intros Hwf. destruct (wp_value _ _ _ (loss_spec X y w Hwf)) as (r & Hr & H).
  exists r. split; [done|]. by destruct y.
Qed.

Lemma rwp_values {A B} (m1 : M t A) (m2 : M t B) Q w1 w2 a :
  rwp m1 m2 Q w1 w2 → (m1 w1).1 = inr a →
  ∃ b, (m2 w2).1 = inr b ∧ Q a (m1 w1).2 b (m2 w2).2.
Proof.
  unfold rwp. destruct (m1 w1) as [[e1|a1] w1'], (m2 w2) as [[e2|b] w2'];
    simpl; intros H [=]; subst; [done|]. by exists b.
Qed.

Lemma reg_sim_with_reg r (w : world t) :
  reg_sim (params (self w)) (reg (self w)) r w (with_reg r w).
Proof. done. Qed.

(** C1.  At training time the gradient of the final layer's weight matrix
    is exactly the weight gradient returned by [affine_backward] on the
    softmax gradient, and it is the same when the network is given any
    other regularisation strength [r]: it receives no [reg * W] term.  The
    gradient of every hidden layer's weight matrix is, in both runs, one
    common tensor plus the run's own [reg * W_i]. *)
Theorem final_weight_gradient_has_no_reg_term X y (w : world t) r :
  well_formed (self w) →
  let n := hidden_layers (self w) in
  ∃ h W b l1 g1 l2 g2,
    let out := affine_forward h W b in
    params (self w) !! key "W" (Z.of_nat (S n)) = Some W ∧
    params (self w) !! key "b" (Z.of_nat (S n)) = Some b ∧
    (loss X (Some y) w).1 = inr (LossGrads l1 g1) ∧
    (loss X (Some y) (with_reg r w)).1 = inr (LossGrads l2 g2) ∧
    g1 !! key "W" (Z.of_nat (S n)) =
      Some (affine_backward (softmax_loss out.1 y).2 out.2).1.2 ∧
    g2 !! key "W" (Z.of_nat (S n)) = g1 !! key "W" (Z.of_nat (S n)) ∧
    (∀ j, (1 ≤ j ≤ Z.of_nat n)%Z → ∃ d Wj,
       params (self w) !! key "W" j = Some Wj ∧
       g1 !! key "W" j = Some (t_add d (t_scale (reg (self w)) Wj)) ∧
       g2 !! key "W" j = Some (t_add d (t_scale r Wj))).
Proof.
  intros Hwf n. destruct (loss_outcome X (Some y) w Hwf) as (v & Hv & Ht).
  destruct (rwp_values _ _ _ _ _ _
              (loss_reg_sim _ _ _ X y _ _ (reg_sim_with_reg r w)) Hv)
    as (v2 & Hv2 & l1 & g1 & l2 & g2 & Hv1 & -> & Hg).
  destruct Ht as [h W b rs g w' n0 out data back HW Hb _ _ HgW _ _ _ _].
  injection Hv1 as <- <-. subst n0 out data back.
  eexists h, W, b, _, g, l2, g2. cbn zeta.
  assert ("W" ∈ prefixes) as HWp by prefix_solve.
  split; [done|]. split; [done|]. split; [done|]. split; [done|].
  split; [done|]. split.
  - specialize (Hg "W" (Z.of_nat (S n)) HWp). fold n in Hg.
    rewrite bool_decide_eq_false_2 in Hg by lia. done.
  - intros j Hj. specialize (Hg "W" j HWp). fold n in Hg.
    rewrite bool_decide_eq_true_2 in Hg by (split; [done|lia]). done.
Qed.

(** C2.  At training time the returned loss is the softmax data loss plus
    [0.5 * reg] times the sum of [np.sum(W_i ** 2)] over the hidden layers
    [1..L] only: the final layer's weight matrix does not enter the
    regularisation term, nor do the biases, scales and shifts. *)
Theorem loss_regularizes_hidden_weights_only X y (w : world t) :
  well_formed (self w) →
  let n := hidden_layers (self w) in
  ∃ h W b rs g,
    params (self w) !! key "W" (Z.of_nat (S n)) = Some W ∧
    params (self w) !! key "b" (Z.of_nat (S n)) = Some b ∧
    hidden_reg_sum (params (self w)) n = Some rs ∧
    (loss X (Some y) w).1 =
      inr (LossGrads
             (s_add (softmax_loss (affine_forward h W b).1 y).1
                    (s_mul (s_mul s_half (reg (self w))) rs))
             g).
Proof.
  intros Hwf n. destruct (loss_outcome X (Some y) w Hwf) as (r & Hr & Ht).
  destruct Ht as [h W b rs g w']. exists h, W, b, rs, g. auto.
Qed.

(** C7.  On a well-formed network a training-time call of [loss] returns,
    and the dictionary of gradients it returns has exactly the keys of
    [self.params]. *)
Theorem grads_keys_match_params X y (w : world t) :
  well_formed (self w) →
  ∃ l g, (loss X (Some y) w).1 = inr (LossGrads l g) ∧
         dom g = dom (params (self w)).
Proof.
  intros Hwf. destruct (loss_outcome X (Some y) w Hwf) as (r & Hr & Ht).
  destruct Ht as [h W b rs g w']. eauto.
Qed.

(** C6.  At test time [loss] returns the same scores (or raises the same
    exception) as the same network with dropout disabled, given that
    [dropout_forward] in ['test'] mode returns its input. *)
Theorem test_scores_ignore_dropout `{!DropoutTestIdentity L} X (w : world t) :
  (loss X None w).1 =
  (loss X None (with_self (without_dropout (self w)) w)).1.
Proof.
  assert (rwp (loss X None) (loss X None) (λ r1 _ r2 _, r1 = r2)
              w (with_self (without_dropout (self w)) w)) as H
    by by apply loss_test_sim.
  unfold rwp in H.
  destruct (loss X None w) as [[e1|r1] w1'],
           (loss X None (with_self _ w)) as [[e2|r2] w2']; simpl;
    congruence || done.
Qed.

(** C4, as amended.  Construction validates nothing itself: it succeeds
    whenever every dimension (the input dimension, each hidden dimension,
    the number of classes) is non-negative, zero included, and
    [weight_scale] is not negative; otherwise it fails with the
    [ValueError] that numpy raises, for a negative scale in
    [np.random.normal] or a negative dimension in an allocation. *)
Theorem init_fails_on_negative_dimension_or_scale hidden_dims input_dim
    num_classes dropout norm reg ws dt seed (w : world ()) :
  let r :=
    (__init__ hidden_dims input_dim num_classes dropout norm reg ws dt seed w).1 in
  if bool_decide (s_negative ws = false ∧
                  Forall (λ d, 0 ≤ d)%Z
                         (layer_dims input_dim hidden_dims num_classes))
  then ∃ o, r = inr o
  else r = inl ValueError.
Proof.
  intros r. subst r.
  pose proof (wp_elim _ _ _ _
    (init_outcome hidden_dims input_dim num_classes dropout norm reg ws dt
                  seed w)) as H.
  destruct (__init__ _ _ _ _ _ _ _ _ _ w).1 as [e|o]; case_bool_decide.
  - by destruct H.
  - by destruct H as [-> _].
  - eauto.
  - done.
Qed.

(** C8.  With non-negative dimensions and a weight scale that is not
    negative, construction returns a network
    whose parameters are, for every layer [i = 1..L+1], a weight matrix of
    shape [(dim_in, dim_out)] drawn with mean [0] and deviation
    [weight_scale] and a bias of [dim_out] zeros; for the hidden layers only,
    and only when [normalization] is not [None], a scale of ones and a shift
    of zeros of length [dim_out]; all cast to [dtype]; and no other
    parameter. *)
Theorem init_allocates_parameters hidden_dims input_dim num_classes dropout
    norm reg ws dt seed (w : world ()) :
  let dims := layer_dims input_dim hidden_dims num_classes in
  let cast := λ v, astype v dt in
  Forall (λ d, 0 ≤ d)%Z dims →
  s_negative ws = false →
  ∃ o,
    (__init__ hidden_dims input_dim num_classes dropout norm reg ws dt seed w).1
      = inr o ∧
    (∀ k, (k < length hidden_dims)%nat →
       layer_allocated cast (bool_decide (norm ≠ None)) ws dims (np_random w)
                       (params o) k) ∧
    layer_allocated cast false ws dims (np_random w) (params o)
                    (length hidden_dims) ∧
    dom (params o) =
      param_names (bool_decide (norm ≠ None)) (length hidden_dims).
Proof.
  intros dims cast Hdims Hneg.
  pose proof (wp_elim _ _ _ _ (wp_conj _ _ _ _ _ _
    (init_outcome hidden_dims input_dim num_classes dropout norm reg ws dt
                  seed w)
    (init_content hidden_dims input_dim num_classes dropout norm reg ws dt
                  seed w))) as H.
  destruct (__init__ _ _ _ _ _ _ _ _ _ w).1 as [e|o].
  - by destruct H as [[_ []] _].
  - destruct H as [_ []]. eauto.
Qed.

(** C10.  [dropout = 1] is the sentinel that disables dropout:
    [use_dropout] is [dropout != 1]; a network constructed with
    [dropout = 1] has an empty [dropout_param], which stays empty through a
    call of [loss] in either mode, and no dropout primitive is invoked;
    constructed with any other value, [loss] invokes [dropout_forward] once
    per hidden layer, and [dropout_backward] once per hidden layer at
    training time. *)
Theorem dropout_one_disables_dropout hidden_dims input_dim num_classes dropout
    norm reg ws dt seed (w0 : world ()) o X y g c :
  (__init__ hidden_dims input_dim num_classes dropout norm reg ws dt seed w0).1
    = inr o →
  let r := loss X y (World o g c) in
  let n := length hidden_dims in
  use_dropout o = bool_decide (dropout ≠ s_one) ∧
  (dropout = s_one →
   dropout_param o = ∅ ∧ dropout_param (self r.2) = ∅ ∧
   ∃ l, calls r.2 = c ++ l ∧ no_dropout_call l) ∧
  (dropout ≠ s_one →
   norm = None ∨ norm = Some "batchnorm" ∨ norm = Some "layernorm" →
   (∃ v, r.1 = inr v) ∧
   calls_of dropout_forward_call (calls r.2) =
     (calls_of dropout_forward_call c + n)%nat ∧
   calls_of dropout_backward_call (calls r.2) =
     (calls_of dropout_backward_call c +
      match y with Some _ => n | None => 0 end)%nat).
Proof.
  intros Hinit r n.
  pose proof (wp_elim _ _ _ _
    (init_content hidden_dims input_dim num_classes dropout norm reg ws dt
                  seed w0)) as Hc.
  rewrite Hinit in Hc.
  split; [apply Hc|]. split.
  - intros ->.
    assert (use_dropout o = false) as Hud.
    { rewrite (c_use_dropout _ _ _ _ _ _ _ _ _ _ _ Hc).
      by apply bool_decide_eq_false_2; intros []. }
    assert (dropout_param o = ∅) as Hdp.
    { rewrite (c_dropout_param _ _ _ _ _ _ _ _ _ _ _ Hc).
      by rewrite bool_decide_eq_false_2 by (by intros []). }
    split; [done|].
    pose proof (wp_elim _ _ _ _
      (loss_frame X y (World o g c) (World o g c) (frame_refl _))) as Hf.
    assert (frame (World o g c) r.2) as [_ _ _ _ _ _ _ Hp (l & Hl & Hno)].
    { subst r. by destruct (loss X y (World o g c)).1. }
    split; [by rewrite Hp|]. exists l. auto.
  - intros Hne Hnorm.
    destruct (init_well_formed _ _ _ _ _ _ _ _ _ _ _ Hnorm Hc) as [Hwf Hhl].
    assert (use_dropout o = true) as Hud.
    { rewrite (c_use_dropout _ _ _ _ _ _ _ _ _ _ _ Hc).
      by apply bool_decide_eq_true_2. }
    destruct (loss_outcome X y (World o g c) Hwf) as (v & Hv & Ht).
    split; [by exists v|]. subst r n.
    destruct y as [y|]; destruct Ht; simpl in *;
      repeat match goal with x := _ |- _ => subst x end;
      rewrite Hud, Hhl in *; rewrite ?Nat.add_0_r; auto.
Qed.
End final.

(** ** TwoLayerNet: construction and loss *)

Section two_layer.
Context `{L : Layers}.
Import FullyConnectedNet.

Local Ltac init_step :=
  first
    [ wp_step
    | apply random_normal_wp;
      try match goal with H : s_negative _ = _ |- _ => rewrite H end
    | apply zeros_wp
    | apply ones_wp ].

Lemma two_layer_init_outcome input_dim hidden_dim num_classes ws reg
    (w : world ()) :
  wp (TwoLayerNet.__init__ input_dim hidden_dim num_classes ws reg)
     (λ _ _, s_negative ws = false ∧
             (0 ≤ input_dim ∧ 0 ≤ hidden_dim ∧ 0 ≤ num_classes)%Z)
     (λ e w', e = ValueError ∧
              ¬ (s_negative ws = false ∧
                 (0 ≤ input_dim ∧ 0 ≤ hidden_dim ∧ 0 ≤ num_classes)%Z)) w.
Proof.
  unfold TwoLayerNet.__init__. destruct (s_negative ws) eqn:Hneg.
  { init_step. init_step. cbn iota. split; [done|]. by intros []. }
  repeat (first [init_step | case_bool_decide]; cbn beta iota zeta; simpl;
          try done; try lia).
  all: split; [done|lia].
Qed.

Lemma two_layer_init_content input_dim hidden_dim num_classes ws reg
    (w : world ()) :
  let d1 := np_random_normal s_zero ws input_dim hidden_dim (np_random w) in
  let d2 := np_random_normal s_zero ws hidden_dim num_classes d1.2 in
  wp (TwoLayerNet.__init__ input_dim hidden_dim num_classes ws reg)
     (λ o w',
        dom (TwoLayerNet.params o) = {["W1"; "b1"; "W2"; "b2"]} ∧
        TwoLayerNet.params o !! "W1" = Some d1.1 ∧
        TwoLayerNet.params o !! "b1" = Some (np_zeros hidden_dim) ∧
        TwoLayerNet.params o !! "W2" = Some d2.1 ∧
        TwoLayerNet.params o !! "b2" = Some (np_zeros num_classes) ∧
        TwoLayerNet.reg o = reg ∧
        np_random w' = d2.2 ∧ calls w' = calls w)
     (λ _ _, True) w.
Proof.
  intros d1 d2. unfold TwoLayerNet.__init__.
  destruct (s_negative ws) eqn:Hneg.
  { init_step. init_step. cbn iota. exact I. }
  repeat (first [init_step | case_bool_decide]; cbn beta iota zeta;
          try done).
Qed.

(** X1.  [TwoLayerNet.__init__] validates nothing itself: it returns a
    network whenever the three dimensions are non-negative, zero included,
    and [weight_scale] is not negative; otherwise it fails with the
    [ValueError] that numpy raises, for a negative scale in
    [np.random.normal] or a negative dimension in an allocation. *)
Theorem two_layer_init_fails_on_negative_dimension_or_scale input_dim
    hidden_dim num_classes ws reg (w : world ()) :
  let r := TwoLayerNet.__init__ input_dim hidden_dim num_classes ws reg w in
  if bool_decide (s_negative ws = false ∧
                  (0 ≤ input_dim ∧ 0 ≤ hidden_dim ∧ 0 ≤ num_classes)%Z)
  then ∃ o, r.1 = inr o
  else r.1 = inl ValueError.
Proof.
  intros r. subst r.
  pose proof (wp_elim _ _ _ _
    (two_layer_init_outcome input_dim hidden_dim num_classes ws reg w)) as H.
  destruct (TwoLayerNet.__init__ _ _ _ _ _ w) as [[e|o] w']; simpl in *;
    case_bool_decide; [by destruct H|by destruct H as [-> _]|eauto|done].
Qed.

(** X2.  With non-negative dimensions and a weight scale that is not
    negative, [TwoLayerNet.__init__] stores
    exactly the four parameters [W1], [b1], [W2], [b2]: [W1] of shape
    [(input_dim, hidden_dim)] drawn with mean [0] and deviation
    [weight_scale], [W2] of shape [(hidden_dim, num_classes)] drawn from the
    generator state that the first draw left, and biases of zeros.  No
    parameter is cast to a dtype, [reg] is stored as given, the generator
    has been used twice and no layer primitive has been invoked. *)
Theorem two_layer_init_allocates input_dim hidden_dim num_classes ws reg
    (w : world ()) :
  (0 ≤ input_dim)%Z → (0 ≤ hidden_dim)%Z → (0 ≤ num_classes)%Z →
  s_negative ws = false →
  let d1 := np_random_normal s_zero ws input_dim hidden_dim (np_random w) in
  let d2 := np_random_normal s_zero ws hidden_dim num_classes d1.2 in
  ∃ o w',
    TwoLayerNet.__init__ input_dim hidden_dim num_classes ws reg w
      = (inr o, w') ∧
    dom (TwoLayerNet.params o) = {["W1"; "b1"; "W2"; "b2"]} ∧
    TwoLayerNet.params o !! "W1" = Some d1.1 ∧
    TwoLayerNet.params o !! "b1" = Some (np_zeros hidden_dim) ∧
    TwoLayerNet.params o !! "W2" = Some d2.1 ∧
    TwoLayerNet.params o !! "b2" = Some (np_zeros num_classes) ∧
    TwoLayerNet.reg o = reg ∧
    np_random w' = d2.2 ∧ calls w' = calls w.
Proof.
  intros H1 H2 H3 Hneg d1 d2.
  pose proof (wp_conj _ _ _ _ _ _
    (two_layer_init_outcome input_dim hidden_dim num_classes ws reg w)
    (two_layer_init_content input_dim hidden_dim num_classes ws reg w)) as H.
  unfold wp in H.
  destruct (TwoLayerNet.__init__ _ _ _ _ _ w) as [[e|o] w'].
  - destruct H as [[_ Hn] _]. destruct Hn. auto.
  - destruct H as [_ H]. by exists o, w'.
Qed.

(** X3.  [TwoLayerNet.loss] returns exactly when [self.params] has the
    four names [W1], [b1], [W2], [b2]; otherwise it raises [KeyError] for
    the first missing one in that order.  A missing [W1] or [b1] is noticed
    before any layer primitive runs, a missing [W2] or [b2] after the first
    layer's affine and ReLU stages. *)
Theorem two_layer_loss_missing_key X y (w : world TwoLayerNet.t) :
  let r := TwoLayerNet.loss X y w in
  match first_missing (TwoLayerNet.params (self w)) with
  | None => ∃ v, r.1 = inr v
  | Some k =>
    r.1 = inl (KeyError k) ∧
    calls r.2 =
      calls w ++
      (if bool_decide (k = "W1" ∨ k = "b1") then []
       else [affine_forward_call; relu_forward_call])
  end.
Proof.
  intros r. subst r.
  cut (wp (TwoLayerNet.loss X y)
          (λ _ _, first_missing (TwoLayerNet.params (self w)) = None)
          (λ e w', ∃ k, first_missing (TwoLayerNet.params (self w)) = Some k ∧
                        e = KeyError k ∧
                        calls w' =
                          calls w ++
                          (if bool_decide (k = "W1" ∨ k = "b1") then []
                           else [affine_forward_call; relu_forward_call])) w).
  { intros H%wp_elim.
    destruct (TwoLayerNet.loss X y w) as [[e|v] w']; simpl in *.
    - destruct H as (k & -> & -> & ->). done.
    - rewrite H. eauto. }
  unfold TwoLayerNet.loss, first_missing.
  wp_step. wp_step. cbn beta.
  wp_step. apply wp_getitem.
  destruct (TwoLayerNet.params (self w) !! "W1") as [W1|] eqn:HW1; simpl;
    rewrite ?HW1; [|exists "W1"; by rewrite app_nil_r].
  wp_step. apply wp_getitem.
  destruct (TwoLayerNet.params (self w) !! "b1") as [b1|] eqn:Hb1; simpl;
    rewrite ?Hb1; [|exists "b1"; by rewrite app_nil_r].
  wp_step. wp_step. cbn beta iota. simpl.
  wp_step. apply wp_getitem.
  destruct (TwoLayerNet.params (self w) !! "W2") as [W2|] eqn:HW2; simpl;
    rewrite ?HW2; [|by exists "W2"].
  wp_step. apply wp_getitem.
  destruct (TwoLayerNet.params (self w) !! "b2") as [b2|] eqn:Hb2; simpl;
    rewrite ?Hb2; [|by exists "b2"].
  destruct y as [y|]; repeat (wp_steps; simpl; rewrite ?HW1, ?HW2); done.
Qed.

Lemma two_layer_loss_test X (w : world TwoLayerNet.t) W1 b1 W2 b2 :
  TwoLayerNet.params (self w) !! "W1" = Some W1 →
  TwoLayerNet.params (self w) !! "b1" = Some b1 →
  TwoLayerNet.params (self w) !! "W2" = Some W2 →
  TwoLayerNet.params (self w) !! "b2" = Some b2 →
  let hidden := (relu_forward (affine_forward X W1 b1).1).1 in
  TwoLayerNet.loss X None w =
    (inr (Scores (affine_forward hidden W2 b2).1),
     World (self w) (np_random w)
           (calls w ++ [affine_forward_call; relu_forward_call;
                        affine_forward_call])).
Proof.
  intros HW1 Hb1 HW2 Hb2 hidden.
  cut (wp (TwoLayerNet.loss X None)
          (λ r w', r = Scores (affine_forward hidden W2 b2).1 ∧
                   w' = World (self w) (np_random w)
                              (calls w ++ [affine_forward_call;
                                           relu_forward_call;
                                           affine_forward_call]))
          (λ _ _, False) w).
  { unfold wp. destruct (TwoLayerNet.loss X None w) as [[e|r] w']; [done|].
    by intros [-> ->]. }
  unfold TwoLayerNet.loss.
  wp_step. wp_step. cbn beta.
  wp_step. apply wp_getitem. rewrite HW1.
  wp_step. apply wp_getitem. rewrite Hb1.
  wp_step. wp_step. cbn beta iota. simpl.
  wp_step. apply wp_getitem. rewrite HW2.
  wp_step. apply wp_getitem. rewrite Hb2.
  wp_steps. simpl. rewrite <-app_assoc.
  subst hidden. match goal with H : affine_forward _ _ _ = _ |- _ => by rewrite H end.
Qed.

(** X4.  At test time [TwoLayerNet.loss] returns
    [affine(relu(affine(X, W1, b1)), W2, b2)], computed on [X] itself (no
    cast, no copy), and invokes exactly [affine_forward], [relu_forward],
    [affine_forward]. *)
Theorem two_layer_loss_test_scores X (w : world TwoLayerNet.t) W1 b1 W2 b2 :
  TwoLayerNet.params (self w) !! "W1" = Some W1 →
  TwoLayerNet.params (self w) !! "b1" = Some b1 →
  TwoLayerNet.params (self w) !! "W2" = Some W2 →
  TwoLayerNet.params (self w) !! "b2" = Some b2 →
  let hidden := (relu_forward (affine_forward X W1 b1).1).1 in
  (TwoLayerNet.loss X None w).1 =
    inr (Scores (affine_forward hidden W2 b2).1) ∧
  calls (TwoLayerNet.loss X None w).2 =
    calls w ++ [affine_forward_call; relu_forward_call; affine_forward_call].
Proof.
  intros HW1 Hb1 HW2 Hb2 hidden.
  by rewrite (two_layer_loss_test X w W1 b1 W2 b2 HW1 Hb1 HW2 Hb2).
Qed.

Lemma two_layer_loss_train X y (w : world TwoLayerNet.t) W1 b1 W2 b2 :
  TwoLayerNet.params (self w) !! "W1" = Some W1 →
  TwoLayerNet.params (self w) !! "b1" = Some b1 →
  TwoLayerNet.params (self w) !! "W2" = Some W2 →
  TwoLayerNet.params (self w) !! "b2" = Some b2 →
  let reg := TwoLayerNet.reg (self w) in
  let first := affine_forward X W1 b1 in
  let hidden := relu_forward first.1 in
  let last := affine_forward hidden.1 W2 b2 in
  let data := softmax_loss last.1 y in
  let back2 := affine_backward data.2 last.2 in
  let back1 := affine_backward (relu_backward back2.1.1 hidden.2) first.2 in
  wp (TwoLayerNet.loss X (Some y))
     (λ r w', ∃ g,
        r = LossGrads
              (s_add data.1
                 (s_mul (s_mul s_half reg)
                        (s_add (np_sum (t_sq W1)) (np_sum (t_sq W2)))))
              g ∧
        dom g = {["W1"; "b1"; "W2"; "b2"]} ∧
        g !! "W1" = Some (t_add back1.1.2 (t_scale reg W1)) ∧
        g !! "b1" = Some back1.2 ∧
        g !! "W2" = Some (t_add back2.1.2 (t_scale reg W2)) ∧
        g !! "b2" = Some back2.2)
     (λ _ _, False) w.
Proof.
  intros HW1 Hb1 HW2 Hb2 reg first hidden last data back2 back1.
  subst reg first hidden last data back2 back1.
  unfold TwoLayerNet.loss.
  repeat (wp_steps; rewrite ?HW1, ?Hb1, ?HW2, ?Hb2; cbn beta iota).
  simpl in *. subst.
  repeat (match goal with H : _ = (_, _) |- _ => rewrite !H end; simpl).
  eexists. split; [done|].
  split; [rewrite !dom_insert_L, dom_empty_L; set_solver|].
  by rewrite !lookup_insert_eq, !lookup_insert_ne, !lookup_insert_eq by done.
Qed.

(** X5.  At training time [TwoLayerNet.loss] returns the softmax data loss
    plus [0.5 * reg * (sum(W1**2) + sum(W2**2))]; the gradients have exactly
    the four parameter names; each weight gradient is the gradient that
    the backward pass returns plus [reg * W], for the final layer as for
    the first, and the bias gradients carry no regularisation term. *)
Theorem two_layer_loss_regularizes_both_layers X y (w : world TwoLayerNet.t)
    W1 b1 W2 b2 :
  TwoLayerNet.params (self w) !! "W1" = Some W1 →
  TwoLayerNet.params (self w) !! "b1" = Some b1 →
  TwoLayerNet.params (self w) !! "W2" = Some W2 →
  TwoLayerNet.params (self w) !! "b2" = Some b2 →
  let reg := TwoLayerNet.reg (self w) in
  let first := affine_forward X W1 b1 in
  let hidden := relu_forward first.1 in
  let last := affine_forward hidden.1 W2 b2 in
  let data := softmax_loss last.1 y in
  let back2 := affine_backward data.2 last.2 in
  let back1 := affine_backward (relu_backward back2.1.1 hidden.2) first.2 in
  ∃ g,
    (TwoLayerNet.loss X (Some y) w).1 =
      inr (LossGrads
             (s_add data.1
                (s_mul (s_mul s_half reg)
                       (s_add (np_sum (t_sq W1)) (np_sum (t_sq W2)))))
             g) ∧
    dom g = {["W1"; "b1"; "W2"; "b2"]} ∧
    g !! "W1" = Some (t_add back1.1.2 (t_scale reg W1)) ∧
    g !! "b1" = Some back1.2 ∧
    g !! "W2" = Some (t_add back2.1.2 (t_scale reg W2)) ∧
    g !! "b2" = Some back2.2.
Proof.
  intros HW1 Hb1 HW2 Hb2 reg first hidden last data back2 back1.
  destruct (wp_value _ _ _
    (two_layer_loss_train X y w W1 b1 W2 b2 HW1 Hb1 HW2 Hb2))
    as (r & Hr & g & -> & Hg).
  by exists g.
Qed.

(** X6.  [TwoLayerNet.loss], returning or raising, leaves the object
    ([params] and [reg]) and the state of [np.random] as they were; it
    invokes no normalisation and no dropout primitive. *)
Theorem two_layer_loss_is_read_only X y (w : world TwoLayerNet.t) :
  let w' := (TwoLayerNet.loss X y w).2 in
  self w' = self w ∧ np_random w' = np_random w ∧
  ∃ l, calls w' = calls w ++ l ∧
       ∀ c, c ∈ l →
         c ∈ [affine_forward_call; relu_forward_call; softmax_loss_call;
              affine_backward_call; relu_backward_call].
Proof.
  intros w'. subst w'.
  cut (wp (TwoLayerNet.loss X y)
          (λ _ w', self w' = self w ∧ np_random w' = np_random w ∧
                   ∃ l, calls w' = calls w ++ l ∧
                        ∀ c, c ∈ l →
                          c ∈ [affine_forward_call; relu_forward_call;
                               softmax_loss_call; affine_backward_call;
                               relu_backward_call])
          (λ _ w', self w' = self w ∧ np_random w' = np_random w ∧
                   ∃ l, calls w' = calls w ++ l ∧
                        ∀ c, c ∈ l →
                          c ∈ [affine_forward_call; relu_forward_call;
                               softmax_loss_call; affine_backward_call;
                               relu_backward_call]) w).
  { intros H%wp_elim. destruct (TwoLayerNet.loss X y w).1; exact H. }
  unfold TwoLayerNet.loss.
  repeat (first [wp_step | case_match]; cbn beta iota zeta; try done).
  all: simpl; split; [done|]; split; [done|].
  all: rewrite <-?app_assoc; eexists;
    (split; [first [reflexivity | symmetry; apply app_nil_r]|]).
  all: intros c; rewrite ?elem_of_app, ?elem_of_cons, !elem_of_nil; tauto.
Qed.

(** X7.  On a network that [TwoLayerNet.__init__] returned, [loss]
    returns in both modes, whatever the input; at training time the
    gradients have exactly the keys of [self.params]. *)
Theorem two_layer_init_then_loss input_dim hidden_dim num_classes ws reg
    (w0 : world ()) o X y g c :
  (TwoLayerNet.__init__ input_dim hidden_dim num_classes ws reg w0).1 = inr o →
  (∃ s, (TwoLayerNet.loss X None (World o g c)).1 = inr (Scores s)) ∧
  (∃ l gr, (TwoLayerNet.loss X (Some y) (World o g c)).1 = inr (LossGrads l gr) ∧
           dom gr = dom (TwoLayerNet.params o)).
Proof.
  intros Hinit.
  pose proof (wp_elim _ _ _ _
    (two_layer_init_content input_dim hidden_dim num_classes ws reg w0)) as H.
  rewrite Hinit in H. cbn zeta in H.
  destruct H as (Hdom & HW1 & Hb1 & HW2 & Hb2 & _).
  split.
  - eexists. by rewrite (two_layer_loss_test X (World o g c) _ _ _ _ HW1 Hb1 HW2 Hb2).
  - destruct (wp_value _ _ _
      (two_layer_loss_train X y (World o g c) _ _ _ _ HW1 Hb1 HW2 Hb2))
      as (r & Hr & gr & -> & Hg & _).
    eexists _, gr. split; [done|]. by rewrite Hdom.
Qed.
End two_layer.

(** ** The primitives invoked, the state written, the errors raised *)

Section traces.
Context `{L : Layers}.
Import FullyConnectedNet.

Lemma frame_layer_forward_calls w0 w :
  frame w0 w → layer_forward_calls (self w) = layer_forward_calls (self w0).
Proof. intros [_ Hn Hd _ _ _ _ _ _]. unfold layer_forward_calls. by rewrite Hn, Hd. Qed.

Lemma frame_layer_backward_calls w0 w :
  frame w0 w → layer_backward_calls (self w) = layer_backward_calls (self w0).
Proof. intros [_ Hn Hd _ _ _ _ _ _]. unfold layer_backward_calls. by rewrite Hn, Hd. Qed.

Lemma forward_body_calls fs w :
  wp (forward_body fs)
     (λ fs' w', calls w' = calls w ++ layer_forward_calls (self w) ∧
                length (caches fs') = S (length (caches fs)))
     (λ _ _, True) w.
Proof.
  unfold forward_body, layer_forward_calls.
  repeat (first [wp_step | case_match | case_bool_decide];
          cbn beta iota zeta; simpl self; simpl calls; simpl np_random;
          try done).
  all: simpl; rewrite <-?app_assoc, ?length_app; simpl; split; [done|lia].
Qed.

Lemma forward_loop_calls n : ∀ fs w0 w,
  frame w0 w →
  wp (forward_loop n fs)
     (λ fs' w',
        calls w' = calls w ++ mjoin (replicate n (layer_forward_calls (self w0))) ∧
        length (caches fs') = (n + length (caches fs))%nat)
     (λ _ _, True) w.
Proof.
  induction n as [|n IH]; intros fs w0 w Hf; simpl forward_loop.
  - apply wp_ret. by rewrite app_nil_r.
  - apply wp_bind.
    eapply wp_mono;
      [apply wp_conj; [apply forward_body_calls|by apply (forward_body_frame fs w0 w)]|..];
      cbn beta; [|done].
    intros fs' w' [[Hc Hl] Hf'].
    eapply wp_mono; [by apply (IH fs' w0 w')|..]; cbn beta; [|done].
    intros fs'' w'' [Hc' Hl']. split; [|lia].
    rewrite Hc', Hc, (frame_layer_forward_calls _ _ Hf). simpl.
    by rewrite <-app_assoc.
Qed.

Lemma backward_body_calls fs cache bs w :
  wp (backward_body fs cache bs)
     (λ _ w', calls w' = calls w ++ layer_backward_calls (self w))
     (λ _ _, True) w.
Proof.
  unfold backward_body, layer_backward_calls.
  repeat (first [wp_step | case_match | case_bool_decide];
          cbn beta iota zeta; simpl self; simpl calls; simpl np_random;
          try done).
  all: simpl; by rewrite <-?app_assoc.
Qed.

Lemma backward_loop_calls fs l : ∀ bs w0 w,
  frame w0 w →
  wp (backward_loop fs l bs)
     (λ _ w',
        calls w' =
        calls w ++ mjoin (replicate (length l) (layer_backward_calls (self w0))))
     (λ _ _, True) w.
Proof.
  induction l as [|c l IH]; intros bs w0 w Hf; simpl backward_loop.
  - apply wp_ret. by rewrite app_nil_r.
  - apply wp_bind.
    eapply wp_mono;
      [apply wp_conj;
        [apply backward_body_calls|by apply (backward_body_frame fs c bs w0 w)]|..];
      cbn beta; [|done].
    intros bs' w' [Hc Hf'].
    eapply wp_mono; [by apply (IH bs' w0 w')|..]; cbn beta; [|done].
    intros bs'' w'' Hc'.
    rewrite Hc', Hc, (frame_layer_backward_calls _ _ Hf). simpl.
    by rewrite <-app_assoc.
Qed.

Lemma loss_calls_wp X y w :
  wp (loss X y)
     (λ _ w', calls w' = calls w ++ loss_calls (self w) (hidden_layers (self w)) y)
     (λ _ _, True) w.
Proof.
  pose proof (frame_refl w) as Hf. unfold loss, loss_calls.
  set (n := hidden_layers (self w)).
  wp_step. wp_step. cbn beta.
  wp_step. apply wp_if.
  set (Q := λ _ w', wp _ _ _ w').
  assert (∀ w', frame w w' → calls w' = calls w → Q tt w') as HQ; last first.
  { destruct (use_dropout (self w)) eqn:?; wp_step; apply HQ; try done;
      by frame_finish. }
  clear Hf. intros w1 Hf Hc1. subst Q. cbn beta.
  wp_step.
  set (Q := λ _ w', wp _ _ _ w').
  assert (∀ w', frame w w' → calls w' = calls w → Q tt w') as HQ; last first.
  { case_bool_decide; wp_step; apply HQ; try done; by frame_finish. }
  clear dependent w1. intros w1 Hf Hc1. subst Q. cbn beta.
  wp_step.
  eapply wp_mono;
    [apply wp_conj;
      [by apply (forward_loop_calls n _ w w1)|by apply (forward_loop_frame n _ w w1)]|..];
    cbn beta; [|done].
  simpl. intros fs w2 [[Hc Hl] Hf2]. rewrite Hc1 in Hc.
  rewrite Nat.add_0_r in Hl.
  repeat (first [wp_step | case_match]; cbn beta iota zeta; simpl self;
          simpl calls; simpl np_random; try done).
  - eapply wp_mono;
      [apply (backward_loop_calls fs (reverse (caches fs)) _ w); by frame_finish|..];
      cbn beta; [|done].
    intros bs w3 Hc3. wp_step. simpl in Hc3.
    rewrite Hc3, Hc, length_reverse, Hl. by rewrite <-!app_assoc.
  - simpl. rewrite Hc. by rewrite <-!app_assoc.
Qed.

(** X8.  On a well-formed network [FullyConnectedNet.loss] returns and
    invokes the layer primitives in this order: for each hidden layer
    [affine_forward], [relu_forward], the normalisation if enabled, the
    dropout if enabled; then the final [affine_forward]; at test time
    nothing more (dropout is invoked at test time too, no backward
    primitive is); at training time [softmax_loss], [affine_backward], and
    for each hidden layer, last first, the dropout backward pass if enabled,
    the normalisation backward pass if enabled, [relu_backward],
    [affine_backward]. *)
Theorem loss_call_trace X y (w : world t) :
  well_formed (self w) →
  ∃ r, (loss X y w).1 = inr r ∧
       calls (loss X y w).2 =
         calls w ++ loss_calls (self w) (hidden_layers (self w)) y.
Proof.
  intros Hwf.
  pose proof (wp_conj _ _ _ _ _ _ (loss_spec X y w Hwf) (loss_calls_wp X y w))
    as H.
  unfold wp in H. destruct (loss X y w) as [[e|r] w']; [by destruct H|].
  exists r. by destruct H.
Qed.
End traces.

Section modes.
Context `{L : Layers}.
Import FullyConnectedNet.

Lemma keeps_config_refl w : keeps_config w w.
Proof. done. Qed.

Lemma forward_body_keeps fs w0 w :
  keeps_config w0 w →
  wp (forward_body fs) (λ _ w', keeps_config w0 w')
     (λ _ w', keeps_config w0 w') w.
Proof.
  intros (Hn & Hd & Hb). unfold forward_body, keeps_config.
  repeat (first [wp_step | case_match | case_bool_decide];
          cbn beta iota zeta; simpl self; simpl calls; simpl np_random;
          try done).
  all: simpl; split; [done|]; split; [done|]; intros ?; congruence.
Qed.

Lemma forward_loop_keeps n : ∀ fs w0 w,
  keeps_config w0 w →
  wp (forward_loop n fs) (λ _ w', keeps_config w0 w')
     (λ _ w', keeps_config w0 w') w.
Proof.
  induction n as [|n IH]; intros fs w0 w Hk; simpl.
  - by apply wp_ret.
  - apply wp_bind. eapply wp_mono; [by apply forward_body_keeps|..]; simpl; auto.
Qed.

Lemma backward_body_keeps fs cache bs w0 w :
  keeps_config w0 w →
  wp (backward_body fs cache bs) (λ _ w', keeps_config w0 w')
     (λ _ w', keeps_config w0 w') w.
Proof.
  intros (Hn & Hd & Hb). unfold backward_body, keeps_config.
  repeat (first [wp_step | case_match | case_bool_decide];
          cbn beta iota zeta; simpl self; simpl calls; simpl np_random;
          try done).
Qed.

Lemma backward_loop_keeps fs l : ∀ bs w0 w,
  keeps_config w0 w →
  wp (backward_loop fs l bs) (λ _ w', keeps_config w0 w')
     (λ _ w', keeps_config w0 w') w.
Proof.
  induction l as [|c l IH]; intros bs w0 w Hk; simpl.
  - by apply wp_ret.
  - apply wp_bind. eapply wp_mono; [by apply backward_body_keeps|..]; simpl; auto.
Qed.

Lemma loss_modes X y w :
  let after w' :=
    dropout_param (self w') =
      (if use_dropout (self w)
       then <["mode" := PStr (mode_of y)]> (dropout_param (self w))
       else dropout_param (self w)) ∧
    (normalization (self w) ≠ Some "batchnorm" →
     bn_params (self w') = bn_params (self w)) in
  wp (loss X y) (λ _ w', after w') (λ _ w', after w') w.
Proof.
  intros after. unfold loss.
  wp_step. wp_step. cbn beta.
  wp_step. apply wp_if.
  set (Q := λ _ w', wp _ _ _ w').
  assert (∀ w', after w' → normalization (self w') = normalization (self w) →
                bn_params (self w') = bn_params (self w) → Q tt w') as HQ;
    last first.
  { destruct (use_dropout (self w)) eqn:Hud; wp_step; apply HQ; try done;
      subst after; simpl; by rewrite Hud. }
  intros w1 Ha Hn1 Hb1. subst Q. cbn beta.
  wp_step.
  set (Q := λ _ w', wp _ _ _ w').
  assert (∀ w', after w' → normalization (self w') = normalization (self w) →
                Q tt w') as HQ; last first.
  { case_bool_decide as Hbn; wp_step; apply HQ; try done.
    subst after. simpl. destruct Ha as [Ha _]. split; [done|]. by intros []. }
  clear dependent w1. intros w1 Ha Hn1. subst Q. cbn beta.
  assert (∀ w', keeps_config w1 w' → after w') as Hkeep.
  { intros w' (Hn & Hd & Hb). destruct Ha as [Ha1 Ha2]. split.
    - by rewrite Hd.
    - intros Hne. rewrite Hb by congruence. auto. }
  wp_step.
  eapply wp_mono; [apply (forward_loop_keeps _ _ w1 w1 (keeps_config_refl _))|..];
    cbn beta; [|auto].
  intros fs w2 Hk2.
  repeat (first [wp_step | case_match]; cbn beta iota zeta; simpl self;
          simpl calls; simpl np_random; try (by apply Hkeep)).
  eapply wp_mono; [apply (backward_loop_keeps _ _ _ w1); exact Hk2|..];
    cbn beta; [|auto].
  intros bs w3 Hk3. wp_step. by apply Hkeep.
Qed.

(** X9.  [FullyConnectedNet.loss] writes to the object: with dropout
    enabled, [dropout_param['mode']] is the mode of the call afterwards
    (['test'] without labels, ['train'] with), the other entries of
    [dropout_param] unchanged, also when the call raises; with dropout
    disabled [dropout_param] is unchanged.  Unless batch normalisation is
    in use, [bn_params] is unchanged. *)
Theorem loss_sets_mode X y (w : world t) :
  let w' := (loss X y w).2 in
  dropout_param (self w') =
    (if use_dropout (self w)
     then <["mode" := PStr (mode_of y)]> (dropout_param (self w))
     else dropout_param (self w)) ∧
  (normalization (self w) ≠ Some "batchnorm" →
   bn_params (self w') = bn_params (self w)).
Proof.
  intros w'. subst w'.
  pose proof (wp_elim _ _ _ _ (loss_modes X y w)) as H.
  destruct (loss X y w).1; exact H.
Qed.

Lemma forward_body_errors fs w :
  wp (forward_body fs) (λ _ _, True) (λ e _, lookup_error e) w.
Proof.
  unfold forward_body, lookup_error.
  repeat (first [wp_step | case_match | case_bool_decide];
          cbn beta iota zeta; simpl self; simpl calls; simpl np_random;
          try done; try (by left);
          try (right; eexists _, _; split; [|reflexivity]; prefix_solve)).
Qed.

Lemma forward_loop_errors n : ∀ fs w,
  wp (forward_loop n fs) (λ _ _, True) (λ e _, lookup_error e) w.
Proof.
  induction n as [|n IH]; intros fs w; simpl.
  - by apply wp_ret.
  - apply wp_bind. eapply wp_mono; [by apply forward_body_errors|..]; simpl; auto.
Qed.

Lemma backward_body_errors fs cache bs w :
  wp (backward_body fs cache bs) (λ _ _, True) (λ e _, lookup_error e) w.
Proof.
  unfold backward_body, lookup_error.
  repeat (first [wp_step | case_match | case_bool_decide];
          cbn beta iota zeta; simpl self; simpl calls; simpl np_random;
          try done; try (by left);
          try (right; eexists _, _; split; [|reflexivity]; prefix_solve)).
Qed.

Lemma backward_loop_errors fs l : ∀ bs w,
  wp (backward_loop fs l bs) (λ _ _, True) (λ e _, lookup_error e) w.
Proof.
  induction l as [|c l IH]; intros bs w; simpl.
  - by apply wp_ret.
  - apply wp_bind. eapply wp_mono; [by apply backward_body_errors|..]; simpl; auto.
Qed.

Lemma loss_errors X y w :
  wp (loss X y) (λ _ _, True) (λ e _, lookup_error e) w.
Proof.
  unfold loss.
  wp_step. wp_step. cbn beta.
  wp_step. apply wp_if.
  set (Q := λ _ w', wp _ _ _ w').
  assert (∀ w', Q tt w') as HQ; last first.
  { destruct (use_dropout (self w)); wp_step; apply HQ. }
  intros w1. subst Q. cbn beta.
  wp_step.
  set (Q := λ _ w', wp _ _ _ w').
  assert (∀ w', Q tt w') as HQ; last first.
  { case_bool_decide; wp_step; apply HQ. }
  clear w1. intros w1. subst Q. cbn beta.
  wp_step.
  eapply wp_mono; [apply forward_loop_errors|..]; cbn beta; [|auto].
  intros fs w2 _. unfold lookup_error.
  repeat (first [wp_step | case_match]; cbn beta iota zeta; simpl self;
          simpl calls; simpl np_random; try done;
          try (right; eexists _, _; split; [|reflexivity]; prefix_solve)).
  eapply wp_mono; [apply backward_loop_errors|..]; cbn beta; [|auto].
  intros bs w3 _. by wp_step.
Qed.

(** X10.  The only exceptions [FullyConnectedNet.loss] raises itself are
    those of its lookups: [KeyError] for a parameter name [W_i], [b_i],
    [gamma_i] or [beta_i], and [IndexError] for a list index; never a
    [ValueError]. *)
Theorem loss_raises_only_lookup_errors X y (w : world t) e :
  (loss X y w).1 = inl e →
  e = IndexError ∨ ∃ p i, p ∈ prefixes ∧ e = KeyError (key p i).
Proof.
  intros He. pose proof (wp_elim _ _ _ _ (loss_errors X y w)) as H.
  by rewrite He in H.
Qed.

(** X11.  Well-formedness is an invariant of [loss]: after a call on a
    well-formed network the network is well-formed, so the next call, in
    either mode and on any input, returns as well. *)
Theorem loss_keeps_well_formed X y (w : world t) :
  well_formed (self w) →
  well_formed (self (loss X y w).2) ∧
  ∀ X' y', ∃ r, (loss X' y' (loss X y w).2).1 = inr r.
Proof.
  intros Hwf.
  pose proof (wp_elim _ _ _ _ (loss_frame X y w w (frame_refl w))) as Hf.
  assert (frame w (loss X y w).2) as Hf' by (by destruct (loss X y w).1).
  pose proof (frame_well_formed _ _ Hwf Hf') as Hwf'.
  split; [done|]. intros X' y'.
  destruct (loss_outcome X' y' _ Hwf') as (r & Hr & _). by exists r.
Qed.
End modes.

(** ** Construction followed by loss *)

Section construction.
Context `{L : Layers}.
Import FullyConnectedNet.

(** X12.  On a network that [FullyConnectedNet.__init__] returned for one
    of the three documented normalisation settings, [loss] returns: the
    scores at test time, and at training time a loss together with gradients
    whose keys are exactly those of [self.params]. *)
Theorem init_then_loss_returns hidden_dims input_dim num_classes dropout norm
    reg ws dt seed (w0 : world ()) o X y g c :
  norm = None ∨ norm = Some "batchnorm" ∨ norm = Some "layernorm" →
  (__init__ hidden_dims input_dim num_classes dropout norm reg ws dt seed w0).1
    = inr o →
  ∃ r, (loss X y (World o g c)).1 = inr r ∧
       match r, y with
       | Scores _, None => True
       | LossGrads _ gr, Some _ => dom gr = dom (params o)
       | _, _ => False
       end.
Proof.
  intros Hnorm Hinit.
  pose proof (wp_elim _ _ _ _
    (init_content hidden_dims input_dim num_classes dropout norm reg ws dt
                  seed w0)) as Hc.
  rewrite Hinit in Hc.
  destruct (init_well_formed _ _ _ _ _ _ _ _ _ _ _ Hnorm Hc) as [Hwf _].
  destruct (loss_outcome X y (World o g c) Hwf) as (r & Hr & Ht).
  exists r. split; [done|]. by destruct y; destruct Ht.
Qed.

(** X13.  The parameter names ['W'+str(i)], ['b'+str(i)],
    ['gamma'+str(i)], ['beta'+str(i)] never collide: equal names have the
    same prefix and the same layer number (so ['b'+str(i)] is never a
    ['beta'+str(j)]). *)
Theorem parameter_names_are_distinct p q i j :
  p ∈ prefixes → q ∈ prefixes → key p i = key q j → p = q ∧ i = j.
Proof. apply key_eq_inv. Qed.

(** X14.  The parameters, the normalisation dictionaries and the state in
    which construction leaves [np.random] do not depend on [seed],
    [dropout] or [reg]: [seed] is only stored in [dropout_param] and does
    not seed the weight initialisation.  If one construction fails, so
    does the other, with the same exception. *)
Theorem init_weights_ignore_seed hidden_dims input_dim num_classes norm ws dt
    dropout1 reg1 seed1 dropout2 reg2 seed2 (w : world ()) :
  let r1 := __init__ hidden_dims input_dim num_classes dropout1 norm reg1 ws dt
                     seed1 w in
  let r2 := __init__ hidden_dims input_dim num_classes dropout2 norm reg2 ws dt
                     seed2 w in
  r1.2 = r2.2 ∧
  match r1.1, r2.1 with
  | inr o1, inr o2 => params o1 = params o2 ∧ bn_params o1 = bn_params o2
  | inl e1, inl e2 => e1 = e2
  | _, _ => False
  end.
Proof.
  intros r1 r2. subst r1 r2. unfold __init__.
  unfold mbind, M_bind, bind.
  destruct (init_loop norm ws hidden_dims _ w) as [[e|st] w1]; [done|].
  destruct (random_normal ws (prev_dim st) num_classes w1) as [[e|W] w2];
    [done|].
  by destruct (zeros num_classes w2) as [[e|b] w3].
Qed.

(** X15.  If [self.params] has no ['W1'], [FullyConnectedNet.loss]
    raises [KeyError('W1')] before any layer primitive is invoked and
    before [np.random] is used; yet [dropout_param['mode']] has already been
    overwritten with the mode of the call. *)
Theorem loss_missing_first_weight X y (w : world t) :
  params (self w) !! "W1" = None →
  (loss X y w).1 = inl (KeyError "W1") ∧
  calls (loss X y w).2 = calls w ∧
  np_random (loss X y w).2 = np_random w ∧
  (use_dropout (self w) = true →
   dropout_param (self (loss X y w).2) !! "mode" = Some (PStr (mode_of y))).
Proof.
  intros HW.
  cut (wp (loss X y) (λ _ _, False)
          (λ e w', e = KeyError "W1" ∧ calls w' = calls w ∧
                   np_random w' = np_random w ∧
                   (use_dropout (self w) = true →
                    dropout_param (self w') !! "mode" =
                      Some (PStr (mode_of y)))) w).
  { intros H%wp_elim. destruct (loss X y w) as [[e|r] w']; [|done].
    simpl in *. by destruct H as (-> & ? & ? & ?). }
  assert (key "W" 1 = "W1") as HkW by reflexivity.
  unfold loss. wp_step. wp_step. cbn beta.
  wp_step. apply wp_if.
  set (Q := λ _ w', wp _ _ _ w').
  assert (∀ w', params (self w') = params (self w) → calls w' = calls w →
                np_random w' = np_random w →
                (use_dropout (self w) = true →
                 dropout_param (self w') !! "mode" = Some (PStr (mode_of y))) →
                Q tt w') as HQ; last first.
  { destruct (use_dropout (self w)) eqn:Hud; wp_step; apply HQ; try done.
    intros _. simpl. apply lookup_insert_eq. }
  intros w1 Hp1 Hc1 Hr1 Hm1. subst Q. cbn beta.
  wp_step.
  set (Q := λ _ w', wp _ _ _ w').
  assert (∀ w', params (self w') = params (self w) → calls w' = calls w →
                np_random w' = np_random w →
                (use_dropout (self w) = true →
                 dropout_param (self w') !! "mode" = Some (PStr (mode_of y))) →
                Q tt w') as HQ; last first.
  { case_bool_decide; wp_step; apply HQ; done. }
  clear dependent w1. intros w1 Hp1 Hc1 Hr1 Hm1. subst Q. cbn beta.
  wp_step.
  destruct (range_len (num_layers (self w) - 1)) as [|n]; simpl forward_loop.
  - wp_step. cbn beta. simpl f_i. wp_step. apply wp_getitem.
    by rewrite HkW, HW.
  - wp_step. unfold forward_body. simpl f_i.
    wp_step. wp_step. cbn beta. wp_step. apply wp_getitem.
    by rewrite HkW, Hp1, HW.
Qed.
End construction.

(** ** The caches of the backward pass *)

Section pairing.
Context `{L : Layers}.
Import FullyConnectedNet.

Lemma backward_body_index fs c bs w :
  wp (backward_body fs c bs) (λ bs' _, b_i bs' = (b_i bs - 1)%Z)
     (λ _ _, True) w.
Proof.
  unfold backward_body.
  repeat (first [wp_step | case_match | case_bool_decide];
          cbn beta iota zeta; simpl self; simpl calls; simpl np_random;
          try done).
Qed.

Lemma backward_loop_take fs k : ∀ bs w,
  (k ≤ length (caches fs))%nat → b_i bs = Z.of_nat k →
  backward_loop fs (reverse (take k (caches fs))) bs w =
  backward_by_index fs k bs w.
Proof.
  induction k as [|k IH]; intros bs w Hk Hi; [done|].
  destruct (lookup_lt_is_Some_2 (caches fs) k) as [c Hc]; [lia|].
  rewrite (take_S_r _ _ _ Hc), reverse_snoc.
  simpl backward_loop. simpl backward_by_index.
  unfold backward_layer, index.
  rewrite Hi, py_index_pos by lia.
  replace (Z.to_nat (Z.of_nat (S k) - 1)) with k by lia. rewrite Hc.
  unfold mbind, M_bind, bind, ret.
  pose proof (wp_elim _ _ _ _ (backward_body_index fs c bs w)) as Hb.
  destruct (backward_body fs c bs w) as [[e|bs'] w']; [done|].
  simpl in Hb. apply IH; lia.
Qed.

(** X16.  In the backward loop the iteration over [reversed(caches)] and
    the counter [i] stay in step: the loop is the same computation as
    reading [caches[i-1]] by index in each round, so the affine-relu cache,
    the normalisation cache and the dropout cache used in one round belong
    to the same layer. *)
Theorem backward_loop_reads_caches_by_index fs bs (w : world t) :
  b_i bs = Z.of_nat (length (caches fs)) →
  backward_loop fs (reverse (caches fs)) bs w =
  backward_by_index fs (length (caches fs)) bs w.
Proof.
  intros Hi. rewrite <-(backward_loop_take fs _ bs w) by done.
  by rewrite firstn_all.
Qed.
End pairing.

(** ** The two modes and the two classes *)

Section consistency.
Context `{L : Layers}.
Import FullyConnectedNet.

Lemma loss_after_forward X y (w : world t) fs w1 W b :
  use_dropout (self w) = false →
  normalization (self w) ≠ Some "batchnorm" →
  forward_loop (hidden_layers (self w))
    (Fwd 1 (np_copy (astype X (dtype (self w)))) [] [] [] s_zero) w
    = (inr fs, w1) →
  params (self w) !! key "W" (f_i fs) = Some W →
  params (self w) !! key "b" (f_i fs) = Some b →
  let out := affine_forward (f_cur_layer fs) W b in
  let w2 := World (self w1) (np_random w1) (calls w1 ++ [affine_forward_call]) in
  loss X y w =
    match y with
    | None => (inr (Scores out.1), w2)
    | Some y =>
      let data := softmax_loss out.1 y in
      let back := affine_backward data.2 out.2 in
      let w3 := World (self w1) (np_random w1)
                      (calls w1 ++ [affine_forward_call; softmax_loss_call;
                                    affine_backward_call]) in
      match backward_loop fs (reverse (caches fs))
              (Bwd (f_i fs - 1) back.1.1
                   (<[key "b" (f_i fs) := back.2]>
                      (<[key "W" (f_i fs) := back.1.2]> ∅))) w3 with
      | (inr bs, w4) =>
        (inr (LossGrads
                (s_add data.1 (s_mul (s_mul s_half (reg (self w))) (reg_sum fs)))
                (b_grads bs)), w4)
      | (inl e, w4) => (inl e, w4)
      end
    end.
Proof.
  intros Hud Hbn Hfwd HW Hb out w2. subst out w2.
  unfold loss, hidden_layers in *.
  unfold mbind, M_bind, bind, get_self, mret, M_ret, ret.
  rewrite Hud, bool_decide_eq_false_2 by done.
  destruct w as [o g c]. simpl in *. rewrite Hfwd.
  unfold getitem, ret. rewrite HW, Hb. unfold invoke. simpl.
  destruct (affine_forward (f_cur_layer fs) W b) as [out cache].
  destruct y as [y|]; [|done]. simpl.
  destruct (softmax_loss out y) as [l dprob]. simpl.
  destruct (affine_backward dprob cache) as [[dx dW] db]. simpl.
  rewrite <-!app_assoc. simpl. done.
Qed.

(** X17.  Without dropout and without batch normalisation the two modes
    run the same forward pass: the training-time loss is the softmax loss of
    the very scores that the test-time call returns, plus
    [0.5 * reg] times the sum of [np.sum(W_i ** 2)] over the hidden
    layers. *)
Theorem train_loss_uses_test_scores X y (w : world t) :
  well_formed (self w) →
  use_dropout (self w) = false →
  normalization (self w) ≠ Some "batchnorm" →
  ∃ s rs g,
    (loss X None w).1 = inr (Scores s) ∧
    hidden_reg_sum (params (self w)) (hidden_layers (self w)) = Some rs ∧
    (loss X (Some y) w).1 =
      inr (LossGrads
             (s_add (softmax_loss s y).1
                    (s_mul (s_mul s_half (reg (self w))) rs))
             g).
Proof.
  intros Hwf Hud Hbn.
  set (n := hidden_layers (self w)).
  set (fs0 := Fwd 1 (np_copy (astype X (dtype (self w)))) [] [] [] s_zero).
  assert (fwd_inv w 0 fs0 w) as Hinv0.
  { split; simpl; try done.
    - by destruct (norm_on _).
    - by destruct (use_dropout _).
    - destruct (use_dropout _); lia. }
  pose proof (wp_elim _ _ _ _
    (forward_loop_spec w n 0 fs0 w Hwf (frame_refl w) (le_n _) Hinv0)) as Hfl.
  destruct (forward_loop n fs0 w) as [[e|fs] w1] eqn:Hfwd; simpl in Hfl;
    [done|].
  destruct Hfl as [[Hi _ _ _ Hrs _ _] _].
  destruct (params_final _ Hwf) as [[W HW] [b Hb]]. fold n in HW, Hb.
  rewrite <-Hi in HW, Hb.
  pose proof (loss_after_forward X None w fs w1 W b Hud Hbn Hfwd HW Hb) as Ht.
  pose proof (loss_after_forward X (Some y) w fs w1 W b Hud Hbn Hfwd HW Hb)
    as Htr.
  cbn zeta in Ht, Htr.
  destruct (loss_outcome X (Some y) w Hwf) as (r & Hr & _).
  rewrite Htr in Hr. rewrite Ht, Htr. simpl in *.
  revert Hr. destruct (backward_loop fs _ _ _) as [[e|bs] w4];
    [simpl; discriminate|].
  intros _. simpl. eexists _, _, _. split; [done|]. split; [exact Hrs|]. done.
Qed.

(** X18.  [FullyConnectedNet([H], normalization=None)] and
    [TwoLayerNet(hidden_dim=H)], constructed from the same state of
    [np.random], draw the same weights: the parameters of the first are
    those of the second cast to [dtype], and both leave the generator in
    the same state; they fail on the same dimensions with the same
    exception. *)
Theorem one_hidden_layer_init_matches_two_layer input_dim hidden_dim
    num_classes ws reg dropout dt seed (w : world ()) :
  match TwoLayerNet.__init__ input_dim hidden_dim num_classes ws reg w,
        __init__ [hidden_dim] input_dim num_classes dropout None reg ws dt
                 seed w with
  | (inr o2, w2), (inr o, w1) =>
    params o = (λ v, astype v dt) <$> TwoLayerNet.params o2 ∧
    FullyConnectedNet.reg o = TwoLayerNet.reg o2 ∧
    num_layers o = 2%Z ∧ bn_params o = [] ∧ w1 = w2
  | (inl e2, w2), (inl e1, w1) => e1 = e2 ∧ w1 = w2
  | _, _ => False
  end.
Proof.
  unfold TwoLayerNet.__init__, __init__. simpl init_loop. unfold init_body.
  rewrite (bool_decide_eq_false_2 (None ≠ None)) by (by intros []).
  unfold mbind, M_bind, bind, mret, M_ret, ret. simpl.
  destruct (random_normal ws input_dim hidden_dim w) as [[e|W1] w1]; simpl;
    [done|].
  destruct (zeros hidden_dim w1) as [[e|b1] w2]; simpl; [done|].
  destruct (random_normal ws hidden_dim num_classes w2) as [[e|W2] w3]; simpl;
    [done|].
  destruct (zeros num_classes w3) as [[e|b2] w4]; simpl; [done|].
  done.
Qed.

Lemma one_hidden_layer_loss_train X y (w : world t) W1 b1 W2 b2 :
  num_layers (self w) = 2%Z →
  normalization (self w) = None →
  use_dropout (self w) = false →
  params (self w) !! "W1" = Some W1 →
  params (self w) !! "b1" = Some b1 →
  params (self w) !! "W2" = Some W2 →
  params (self w) !! "b2" = Some b2 →
  let reg := reg (self w) in
  let first := affine_forward (np_copy (astype X (dtype (self w)))) W1 b1 in
  let hidden := relu_forward first.1 in
  let last := affine_forward hidden.1 W2 b2 in
  let data := softmax_loss last.1 y in
  let back2 := affine_backward data.2 last.2 in
  let back1 := affine_backward (relu_backward back2.1.1 hidden.2) first.2 in
  wp (loss X (Some y))
     (λ r w', ∃ g,
        r = LossGrads
              (s_add data.1
                 (s_mul (s_mul s_half reg) (s_add s_zero (np_sum (t_sq W1)))))
              g ∧
        dom g = {["W1"; "b1"; "W2"; "b2"]} ∧
        g !! "W1" = Some (t_add back1.1.2 (t_scale reg W1)) ∧
        g !! "b1" = Some back1.2 ∧
        g !! "W2" = Some back2.1.2 ∧
        g !! "b2" = Some back2.2)
     (λ _ _, False) w.
Proof.
  intros Hn Hnorm Hud HW1 Hb1 HW2 Hb2 reg first hidden last data back2 back1.
  subst reg first hidden last data back2 back1.
  assert (params (self w) !! key "W" 1 = Some W1) as HW1' by exact HW1.
  assert (params (self w) !! key "b" 1 = Some b1) as Hb1' by exact Hb1.
  assert (params (self w) !! key "W" (1 + 1) = Some W2) as HW2' by exact HW2.
  assert (params (self w) !! key "b" (1 + 1) = Some b2) as Hb2' by exact Hb2.
  assert (params (self w) !! key "W" (1 + 1 - 1) = Some W1) as HW1''
    by exact HW1.
  unfold loss. wp_step. wp_step. cbn beta.
  rewrite Hn, Hud, Hnorm.
  rewrite (bool_decide_eq_false_2 (None = Some "batchnorm")) by done.
  change (range_len (2 - 1)) with 1%nat. simpl forward_loop.
  unfold forward_body. simpl f_i. simpl f_cur_layer. simpl caches.
  simpl reg_sum. simpl bnorm_caches. simpl drop_caches.
  repeat (wp_steps;
          rewrite ?Hud, ?Hnorm, ?HW1', ?Hb1', ?HW2', ?Hb2', ?HW1'';
          rewrite ?(bool_decide_eq_false_2 (None = Some "batchnorm")) by done;
          rewrite ?(bool_decide_eq_false_2 (None = Some "layernorm")) by done;
          cbn beta iota; simpl f_i; simpl f_cur_layer; simpl caches;
          simpl reg_sum; simpl self; simpl b_i; simpl b_cur_dout;
          simpl b_grads; simpl reverse; simpl backward_loop;
          unfold backward_body).
  simpl in *. subst.
  repeat (match goal with H : _ = (_, _) |- _ => rewrite !H end; simpl).
  eexists. split; [done|].
  change (key "W" (1 + 1)) with "W2". change (key "b" (1 + 1)) with "b2".
  change (key "W" (1 + 1 - 1)) with "W1". change (key "b" (1 + 1 - 1)) with "b1".
  split; [rewrite !dom_insert_L, dom_empty_L; set_solver|].
  by rewrite !lookup_insert_eq, !lookup_insert_ne, !lookup_insert_eq by done.
Qed.

Lemma one_hidden_layer_loss_test X (w : world t) W1 b1 W2 b2 :
  num_layers (self w) = 2%Z →
  normalization (self w) = None →
  use_dropout (self w) = false →
  params (self w) !! "W1" = Some W1 →
  params (self w) !! "b1" = Some b1 →
  params (self w) !! "W2" = Some W2 →
  params (self w) !! "b2" = Some b2 →
  let first := affine_forward (np_copy (astype X (dtype (self w)))) W1 b1 in
  wp (loss X None)
     (λ r w', r = Scores (affine_forward (relu_forward first.1).1 W2 b2).1)
     (λ _ _, False) w.
Proof.
  intros Hn Hnorm Hud HW1 Hb1 HW2 Hb2 first. subst first.
  assert (params (self w) !! key "W" 1 = Some W1) as HW1' by exact HW1.
  assert (params (self w) !! key "b" 1 = Some b1) as Hb1' by exact Hb1.
  assert (params (self w) !! key "W" (1 + 1) = Some W2) as HW2' by exact HW2.
  assert (params (self w) !! key "b" (1 + 1) = Some b2) as Hb2' by exact Hb2.
  unfold loss. wp_step. wp_step. cbn beta.
  rewrite Hn, Hud, Hnorm.
  rewrite (bool_decide_eq_false_2 (None = Some "batchnorm")) by done.
  change (range_len (2 - 1)) with 1%nat. simpl forward_loop.
  unfold forward_body. simpl f_i. simpl f_cur_layer. simpl caches.
  simpl reg_sum. simpl bnorm_caches. simpl drop_caches.
  repeat (wp_steps;
          rewrite ?Hud, ?Hnorm, ?HW1', ?Hb1', ?HW2', ?Hb2';
          rewrite ?(bool_decide_eq_false_2 (None = Some "batchnorm")) by done;
          rewrite ?(bool_decide_eq_false_2 (None = Some "layernorm")) by done;
          cbn beta iota; simpl f_i; simpl f_cur_layer; simpl caches;
          simpl reg_sum; simpl self).
  simpl in *. subst.
  repeat (match goal with H : _ = (_, _) |- _ => rewrite !H end; simpl).
  done.
Qed.

(** X19.  A [FullyConnectedNet] with one hidden layer, no normalisation
    and no dropout computes the scores of the [TwoLayerNet] with the same
    parameters on the input cast to [dtype] and copied.  At training time the
    two agree on the data loss and on the gradients of [W1], [b1] and [b2];
    they differ in the final layer: [TwoLayerNet] adds [reg * W2] to the
    gradient of [W2] and [sum(W2**2)] to the regularisation term,
    [FullyConnectedNet] does not. *)
Theorem one_hidden_layer_net_matches_two_layer_net X y (w : world t)
    W1 b1 W2 b2 :
  num_layers (self w) = 2%Z →
  normalization (self w) = None →
  use_dropout (self w) = false →
  params (self w) !! "W1" = Some W1 →
  params (self w) !! "b1" = Some b1 →
  params (self w) !! "W2" = Some W2 →
  params (self w) !! "b2" = Some b2 →
  let reg := reg (self w) in
  let two := two_layer_world (TwoLayerNet.Build (params (self w)) reg) w in
  let X' := np_copy (astype X (dtype (self w))) in
  ∃ s l1 g1 l2 g2 dW2,
    (loss X None w).1 = inr (Scores s) ∧
    (TwoLayerNet.loss X' None two).1 = inr (Scores s) ∧
    (loss X (Some y) w).1 = inr (LossGrads l1 g1) ∧
    (TwoLayerNet.loss X' (Some y) two).1 = inr (LossGrads l2 g2) ∧
    l1 = s_add (softmax_loss s y).1
               (s_mul (s_mul s_half reg) (s_add s_zero (np_sum (t_sq W1)))) ∧
    l2 = s_add (softmax_loss s y).1
               (s_mul (s_mul s_half reg)
                      (s_add (np_sum (t_sq W1)) (np_sum (t_sq W2)))) ∧
    dom g1 = dom g2 ∧
    g1 !! "W1" = g2 !! "W1" ∧ g1 !! "b1" = g2 !! "b1" ∧
    g1 !! "b2" = g2 !! "b2" ∧
    g1 !! "W2" = Some dW2 ∧
    g2 !! "W2" = Some (t_add dW2 (t_scale reg W2)).
Proof.
  intros Hn Hnorm Hud HW1 Hb1 HW2 Hb2 reg two X'.
  destruct (wp_value _ _ _
    (one_hidden_layer_loss_test X w W1 b1 W2 b2 Hn Hnorm Hud HW1 Hb1 HW2 Hb2))
    as (r1 & Hr1 & ->).
  destruct (wp_value _ _ _
    (one_hidden_layer_loss_train X y w W1 b1 W2 b2 Hn Hnorm Hud HW1 Hb1 HW2
                                 Hb2))
    as (r2 & Hr2 & g1 & -> & Hd1 & Hg1W1 & Hg1b1 & Hg1W2 & Hg1b2).
  pose proof (two_layer_loss_test X' two W1 b1 W2 b2 HW1 Hb1 HW2 Hb2) as Hr3.
  destruct (wp_value _ _ _
    (two_layer_loss_train X' y two W1 b1 W2 b2 HW1 Hb1 HW2 Hb2))
    as (r4 & Hr4 & g2 & -> & Hd2 & Hg2W1 & Hg2b1 & Hg2W2 & Hg2b2).
  cbn zeta in *.
  eexists _, _, g1, _, g2, _.
  split; [exact Hr1|]. split; [by rewrite Hr3|].
  split; [exact Hr2|]. split; [exact Hr4|].
  split; [done|]. split; [done|]. split; [by rewrite Hd1, Hd2|].
  split; [by rewrite Hg1W1, Hg2W1|]. split; [by rewrite Hg1b1, Hg2b1|].
  split; [by rewrite Hg1b2, Hg2b2|]. split; [exact Hg1W2|]. exact Hg2W2.
Qed.
End consistency.

(** ** A normalisation setting that [loss] does not know *)

Section plain.
Context `{L : Layers}.
Import FullyConnectedNet.

Lemma forward_body_plain w0 w fs k :
  frame w0 w → unnormalized (self w0) →
  has_affine_params (self w0) (hidden_layers (self w0)) →
  (k < hidden_layers (self w0))%nat → f_i fs = Z.of_nat (S k) →
  wp (forward_body fs)
     (λ fs' w',
        f_i fs' = Z.of_nat (S (S k)) ∧
        length (caches fs') = S (length (caches fs)) ∧
        length (drop_caches fs') =
          (length (drop_caches fs) + if use_dropout (self w0) then 1 else 0)%nat)
     (λ _ _, False) w.
Proof.
  intros [Hp Hn Hd _ _ _ _ _ _] [Hbn Hln] Hpar Hk Hi.
  destruct (Hpar k) as [[W HW] [b Hb]]; [lia|].
  unfold forward_body. rewrite Hi.
  wp_step. wp_step. cbn beta. rewrite Hp, Hn, Hd.
  wp_step. apply wp_getitem. rewrite HW.
  wp_step. apply wp_getitem. rewrite Hb.
  wp_step. wp_step. cbn beta iota.
  rewrite !bool_decide_eq_false_2 by done.
  destruct (use_dropout (self w0)); wp_steps; simpl;
    rewrite ?length_app; simpl; (split; [lia|]); split; lia.
Qed.

Lemma forward_loop_plain w0 n : ∀ k fs w,
  frame w0 w → unnormalized (self w0) →
  has_affine_params (self w0) (hidden_layers (self w0)) →
  (k + n ≤ hidden_layers (self w0))%nat → f_i fs = Z.of_nat (S k) →
  wp (forward_loop n fs)
     (λ fs' w',
        f_i fs' = Z.of_nat (S (k + n)) ∧
        length (caches fs') = (n + length (caches fs))%nat ∧
        length (drop_caches fs') =
          (length (drop_caches fs) + if use_dropout (self w0) then n else 0)%nat ∧
        frame w0 w')
     (λ _ _, False) w.
Proof.
  induction n as [|n IH]; intros k fs w Hf Hun Hpar Hk Hi; simpl forward_loop.
  - apply wp_ret. rewrite Nat.add_0_r. destruct (use_dropout _); auto with lia.
  - apply wp_bind.
    eapply wp_mono;
      [apply wp_conj;
        [apply (forward_body_plain w0 w fs k); [done..|lia|done]
        |by apply (forward_body_frame fs w0 w)]|..];
      cbn beta; [|tauto].
    intros fs' w' [(Hi' & Hc' & Hd') Hf'].
    eapply wp_mono; [apply (IH (S k) fs' w'); auto; lia|..]; cbn beta; [|done].
    intros fs'' w'' (Hi'' & Hc'' & Hd'' & Hf'').
    split; [rewrite Hi''; f_equal; lia|]. split; [lia|]. split; [|done].
    rewrite Hd'', Hd'. destruct (use_dropout _); lia.
Qed.

Lemma backward_body_plain w0 w fs cache bs j :
  frame w0 w → unnormalized (self w0) →
  has_affine_params (self w0) (hidden_layers (self w0)) →
  (j < hidden_layers (self w0))%nat → b_i bs = Z.of_nat (S j) →
  (use_dropout (self w0) = true → (j < length (drop_caches fs))%nat) →
  wp (backward_body fs cache bs)
     (λ bs' w',
        b_i bs' = Z.of_nat j ∧
        dom (b_grads bs') =
          dom (b_grads bs) ∪ layer_names false (Z.of_nat (S j)))
     (λ _ _, False) w.
Proof.
  intros [Hp Hn Hd _ _ _ _ _ _] [Hbn Hln] Hpar Hj Hi Hdc.
  destruct (Hpar j) as [[W HW] _]; [lia|].
  assert (∀ V (l : list V),
            py_index l (Z.of_nat (S j) - 1) = l !! j) as Hidx.
  { intros V l. rewrite py_index_pos by lia. f_equal. lia. }
  unfold backward_body. rewrite Hi.
  wp_step. wp_step. cbn beta. rewrite Hp, Hn, Hd.
  rewrite !bool_decide_eq_false_2 by done.
  destruct (use_dropout (self w0)) eqn:Hud.
  - destruct (lookup_lt_is_Some_2 (drop_caches fs) j) as [dc Hdcj]; [auto|].
    wp_step. wp_step. apply wp_index. rewrite Hidx, Hdcj.
    wp_steps. simpl. rewrite HW. wp_steps. simpl.
    split; [lia|]. rewrite !dom_insert_L. unfold layer_names. set_solver.
  - wp_steps. simpl. rewrite HW. wp_steps. simpl.
    split; [lia|]. rewrite !dom_insert_L. unfold layer_names. set_solver.
Qed.

Lemma backward_loop_plain w0 fs l : ∀ bs w,
  frame w0 w → unnormalized (self w0) →
  has_affine_params (self w0) (hidden_layers (self w0)) →
  (length l ≤ hidden_layers (self w0))%nat →
  b_i bs = Z.of_nat (length l) →
  (use_dropout (self w0) = true → (length l ≤ length (drop_caches fs))%nat) →
  wp (backward_loop fs l bs)
     (λ bs' w',
        dom (b_grads bs') = dom (b_grads bs) ∪ hidden_names false (length l))
     (λ _ _, False) w.
Proof.
  induction l as [|c l IH]; intros bs w Hf Hun Hpar Hlen Hi Hdc.
  - apply wp_ret. simpl. set_solver.
  - simpl backward_loop. simpl length in *. apply wp_bind.
    eapply wp_mono;
      [apply wp_conj;
        [apply (backward_body_plain w0 w fs c bs (length l));
           [done..|lia|done|intros; specialize (Hdc ltac:(done)); lia]
        |by apply (backward_body_frame fs c bs w0 w)]|..];
      cbn beta; [|tauto].
    intros bs1 w1 [[Hi1 Hdom1] Hf1].
    eapply wp_mono;
      [apply (IH bs1 w1); auto; [lia|intros; specialize (Hdc ltac:(done)); lia]|..];
      cbn beta; [|done].
    intros bs2 w2 Hdom2. rewrite Hdom2, Hdom1. simpl. set_solver.
Qed.

Lemma loss_plain X y w :
  (1 ≤ num_layers (self w))%Z → unnormalized (self w) →
  has_affine_params (self w) (hidden_layers (self w)) →
  wp (loss X (Some y))
     (λ r _, ∃ l g, r = LossGrads l g ∧
                    dom g = param_names false (hidden_layers (self w)))
     (λ _ _, False) w.
Proof.
  intros Hnl Hun Hpar. pose proof (frame_refl w) as Hf. unfold loss.
  set (n := hidden_layers (self w)) in *.
  wp_step. wp_step. cbn beta.
  wp_step. apply wp_if.
  set (Q := λ _ w', wp _ _ _ w').
  assert (∀ w', frame w w' → Q tt w') as HQ; last first.
  { destruct (use_dropout (self w)) eqn:?; wp_step; apply HQ; by frame_finish. }
  clear Hf. intros w1 Hf. subst Q. cbn beta.
  wp_step.
  set (Q := λ _ w', wp _ _ _ w').
  assert (∀ w', frame w w' → Q tt w') as HQ; last first.
  { case_bool_decide; wp_step; apply HQ; by frame_finish. }
  clear dependent w1. intros w1 Hf. subst Q. cbn beta.
  wp_step.
  eapply wp_mono;
    [apply (forward_loop_plain w n 0 _ w1 Hf Hun Hpar); [done|done]|..];
    cbn beta; [|done].
  clear dependent w1. simpl. intros fs w1 (Hi & Hc & Hdc & Hf).
  rewrite Nat.add_0_r in Hc.
  destruct (Hpar n) as [[W HW] [b Hb]]; [done|].
  rewrite Hi. wp_step. apply wp_getitem. rewrite HW.
  wp_step. apply wp_getitem. rewrite Hb.
  wp_step. wp_step. destruct (affine_forward _ W b) as [out cache].
  cbn beta iota.
  wp_step. wp_step. destruct (softmax_loss out y) as [l dprob].
  cbn beta iota.
  wp_step. wp_step.
  destruct (affine_backward dprob cache) as [[dx dW] db].
  cbn beta iota. wp_step.
  eapply wp_mono;
    [apply (backward_loop_plain w fs (reverse (caches fs)) _ _);
       rewrite ?length_reverse, ?Hc; try done;
       [by frame_finish | simpl; f_equal; lia
       | intros Hud; rewrite Hdc, Hud; lia]|..];
    cbn beta; [|done].
  rewrite length_reverse, Hc.
  intros bs w2 Hdom. wp_step. eexists _, _. split; [done|].
  rewrite Hdom. simpl. rewrite !dom_insert_L, dom_empty_L.
  unfold param_names, layer_names. set_solver.
Qed.

Lemma elem_of_hidden_names_false x n :
  x ∈ hidden_names false n → ∃ p j, (p = "W" ∨ p = "b") ∧ x = key p j.
Proof.
  induction n as [|n IH]; simpl; [set_solver|].
  rewrite elem_of_union. intros [?|Hx]; [auto|].
  unfold layer_names in Hx.
  rewrite union_empty_r_L, elem_of_union, !elem_of_singleton in Hx.
  destruct Hx as [-> | ->]; eauto.
Qed.

Lemma scale_not_in_affine_names n i :
  (key "gamma" i ∉ param_names false n) ∧
  (key "beta" i ∉ param_names false n).
Proof.
  assert (∀ x, x ∈ param_names false n →
               ∃ p j, (p = "W" ∨ p = "b") ∧ x = key p j) as Hel.
  { intros x. unfold param_names. rewrite elem_of_union.
    intros [Hx|Hx]; [by eapply elem_of_hidden_names_false|].
    unfold layer_names in Hx.
    rewrite union_empty_r_L, elem_of_union, !elem_of_singleton in Hx.
    destruct Hx as [-> | ->]; eauto. }
  split; intros (p & j & Hp & Heq)%Hel;
    apply key_eq_inv in Heq; try prefix_solve;
    destruct Heq as [<- _]; by destruct Hp.
Qed.

(** X20.  [normalization] is not validated.  Constructed with a string
    other than ['batchnorm'] and ['layernorm'], the network has a scale and a
    shift for every hidden layer but no normalisation dictionary; [loss]
    returns, invokes no normalisation primitive, and at training time
    returns gradients for the weights and biases only: every [gamma_i] and
    [beta_i] is a key of [self.params] without a gradient. *)
Theorem unknown_normalization_gives_no_scale_gradients hidden_dims input_dim
    num_classes dropout kind reg ws dt seed (w0 : world ()) o X y g c :
  kind ≠ "batchnorm" → kind ≠ "layernorm" →
  (__init__ hidden_dims input_dim num_classes dropout (Some kind) reg ws dt
            seed w0).1 = inr o →
  ∃ l gr,
    (loss X (Some y) (World o g c)).1 = inr (LossGrads l gr) ∧
    dom (params o) = param_names true (length hidden_dims) ∧
    dom gr = param_names false (length hidden_dims) ∧
    bn_params o = [] ∧
    calls (loss X (Some y) (World o g c)).2 =
      c ++ loss_calls o (length hidden_dims) (Some y) ∧
    layer_forward_calls o =
      [affine_forward_call; relu_forward_call] ++
      (if use_dropout o then [dropout_forward_call] else []) ∧
    ∀ k, (k < length hidden_dims)%nat →
      key "gamma" (Z.of_nat (S k)) ∈ dom (params o) ∧
      (key "gamma" (Z.of_nat (S k)) ∉ dom gr) ∧
      key "beta" (Z.of_nat (S k)) ∈ dom (params o) ∧
      (key "beta" (Z.of_nat (S k)) ∉ dom gr).
Proof.
  intros Hbn Hln Hinit.
  pose proof (wp_elim _ _ _ _
    (init_content hidden_dims input_dim num_classes dropout (Some kind) reg ws
                  dt seed w0)) as Hc.
  rewrite Hinit in Hc.
  destruct Hc as [Hnorm _ _ Hnl _ _ Hbp _ _ Hdom].
  rewrite bool_decide_eq_true_2 in Hdom by done.
  assert (hidden_layers o = length hidden_dims) as Hhl.
  { unfold hidden_layers, range_len. rewrite Hnl. lia. }
  assert (unnormalized o) as Hun.
  { unfold unnormalized. rewrite Hnorm. split; congruence. }
  assert (has_affine_params o (hidden_layers o)) as Hpar.
  { intros j Hj. rewrite Hhl in Hj. rewrite <-!elem_of_dom, Hdom.
    unfold param_names.
    destruct (decide (j = length hidden_dims)) as [->|Hne].
    - unfold layer_names. set_solver.
    - pose proof (layer_names_hidden true j (length hidden_dims)) as Hsub.
      unfold layer_names in *. split; set_solver by lia. }
  pose proof (wp_conj _ _ _ _ _ _
    (loss_plain X y (World o g c) ltac:(simpl; lia) Hun Hpar)
    (loss_calls_wp X (Some y) (World o g c))) as Hrun.
  unfold wp in Hrun.
  destruct (loss X (Some y) (World o g c)) as [[e|r] w'] eqn:Hr;
    [by destruct Hrun|].
  destruct Hrun as [(l & gr & -> & Hgr) Hcalls].
  simpl in Hgr, Hcalls. rewrite Hhl in Hgr, Hcalls.
  exists l, gr. split; [done|]. split; [done|]. split; [done|].
  split.
  { rewrite Hbp. rewrite !bool_decide_eq_false_2 by congruence. done. }
  split; [done|]. split.
  { unfold layer_forward_calls. rewrite Hnorm.
    by rewrite !bool_decide_eq_false_2 by congruence. }
  intros k Hk. rewrite Hdom, Hgr.
  pose proof (layer_names_hidden true k (length hidden_dims) Hk) as Hsub.
  pose proof (scale_not_in_affine_names (length hidden_dims) (Z.of_nat (S k)))
    as [Hg Hb].
  unfold param_names, layer_names in *. set_solver.
Qed.
End plain.

(** ** The dictionaries of batch normalisation *)

Section running.
Context `{L : Layers}.
Import FullyConnectedNet.

Lemma forward_body_bn start w0 w fs k :
  frame w0 w → normalization (self w0) = Some "batchnorm" →
  f_i fs = Z.of_nat (S k) →
  bn_updated (params (self w0)) start (bn_params (self w)) k →
  wp (forward_body fs)
     (λ fs' w',
        f_i fs' = Z.of_nat (S (S k)) ∧
        bn_updated (params (self w0)) start (bn_params (self w')) (S k))
     (λ _ _, True) w.
Proof.
  intros [Hp Hn _ _ _ _ _ _ _] Hbn Hi (Hlen & Hrest & Hdone).
  assert (∀ (l : list (gmap string (pyval tensor scalar))),
            py_index l (Z.of_nat (S k) - 1) = l !! k) as Hidx.
  { intros l. rewrite py_index_pos by lia. f_equal. lia. }
  assert (∀ (l : list (gmap string (pyval tensor scalar))) v,
            py_setindex l (Z.of_nat (S k) - 1) v = <[k := v]> l) as Hset.
  { intros l v. unfold py_setindex. rewrite bool_decide_eq_true_2 by lia.
    f_equal. lia. }
  unfold forward_body. rewrite Hi.
  wp_step. wp_step. cbn beta. rewrite Hp, Hn, Hbn.
  rewrite (bool_decide_eq_true_2 (Some "batchnorm" = Some "batchnorm")) by done.
  wp_step. apply wp_getitem.
  destruct (params (self w0) !! key "W" _) as [W|]; [|done].
  wp_step. apply wp_getitem.
  destruct (params (self w0) !! key "b" _) as [b|]; [|done].
  wp_step. wp_step. cbn beta iota.
  wp_step. wp_step. apply wp_getitem.
  destruct (params (self w0) !! key "gamma" _) as [gamma|] eqn:Hg; [|done].
  wp_step. apply wp_getitem.
  destruct (params (self w0) !! key "beta" _) as [beta|] eqn:Hbeta; [|done].
  wp_step. apply wp_index. rewrite Hidx.
  destruct (bn_params (self w) !! k) as [p|] eqn:Hpk; [|done].
  wp_step. wp_step.
  set (x := (relu_forward (affine_forward (f_cur_layer fs) W b).1).1).
  destruct (batchnorm_forward x gamma beta p) as [[out cache] p'] eqn:Hfw.
  cbn beta iota. wp_step. wp_step. cbn beta. wp_step.
  assert (bn_updated (params (self w0)) start
            (<[k := p']> (bn_params (self w))) (S k)) as Hupd.
  { split; [by rewrite length_insert|]. split.
    - intros j Hj. rewrite list_lookup_insert_ne by lia. apply Hrest. lia.
    - intros j Hj. destruct (decide (j = k)) as [->|Hne].
      + exists x, gamma, beta, p. rewrite <-Hrest by lia.
        split; [done|]. split; [done|]. split; [done|].
        rewrite list_lookup_insert_eq by (by eapply lookup_lt_Some).
        by rewrite Hfw.
      + rewrite list_lookup_insert_ne by done. apply Hdone. lia. }
  destruct (use_dropout (self w)); wp_steps; simpl; rewrite Hset;
    (split; [lia|done]).
Qed.

Lemma forward_loop_bn start w0 n : ∀ k fs w,
  frame w0 w → normalization (self w0) = Some "batchnorm" →
  f_i fs = Z.of_nat (S k) →
  bn_updated (params (self w0)) start (bn_params (self w)) k →
  wp (forward_loop n fs)
     (λ _ w', bn_updated (params (self w0)) start (bn_params (self w')) (k + n))
     (λ _ _, True) w.
Proof.
  induction n as [|n IH]; intros k fs w Hf Hbn Hi Hup; simpl forward_loop.
  - apply wp_ret. by rewrite Nat.add_0_r.
  - apply wp_bind.
    eapply wp_mono;
      [apply wp_conj;
        [by apply (forward_body_bn start w0 w fs k)
        |by apply (forward_body_frame fs w0 w)]|..];
      cbn beta; [|done].
    intros fs' w' [[Hi' Hup'] Hf'].
    replace (k + S n)%nat with (S k + n)%nat by lia.
    by apply IH.
Qed.

Lemma backward_body_self fs cache bs w :
  wp (backward_body fs cache bs) (λ _ w', self w' = self w)
     (λ _ w', self w' = self w) w.
Proof.
  unfold backward_body.
  repeat (first [wp_step | case_match | case_bool_decide];
          cbn beta iota zeta; simpl self; simpl calls; simpl np_random;
          try done).
Qed.

Lemma backward_loop_self fs l : ∀ bs w,
  wp (backward_loop fs l bs) (λ _ w', self w' = self w)
     (λ _ w', self w' = self w) w.
Proof.
  induction l as [|c l IH]; intros bs w; simpl.
  - by apply wp_ret.
  - apply wp_bind.
    eapply wp_mono; [apply backward_body_self|..]; cbn beta; [|done].
    intros bs' w' Hs. eapply wp_mono; [apply IH|..]; cbn beta; congruence.
Qed.

Lemma loss_bn X y w :
  normalization (self w) = Some "batchnorm" →
  wp (loss X y)
     (λ _ w',
        bn_updated (params (self w))
          ((λ d, <["mode" := PStr (mode_of y)]> d) <$> bn_params (self w))
          (bn_params (self w')) (hidden_layers (self w)))
     (λ _ _, True) w.
Proof.
  intros Hbn. pose proof (frame_refl w) as Hf. unfold loss.
  set (n := hidden_layers (self w)).
  set (start := (λ d, <["mode" := PStr (mode_of y)]> d) <$> bn_params (self w)).
  wp_step. wp_step. cbn beta.
  wp_step. apply wp_if.
  set (Q := λ _ w', wp _ _ _ w').
  assert (∀ w', frame w w' → bn_params (self w') = bn_params (self w) →
                Q tt w') as HQ; last first.
  { destruct (use_dropout (self w)) eqn:?; wp_step; apply HQ; try done;
      by frame_finish. }
  clear Hf. intros w1 Hf Hb1. subst Q. cbn beta.
  wp_step. rewrite Hbn.
  rewrite (bool_decide_eq_true_2 (Some "batchnorm" = Some "batchnorm")) by done.
  wp_step.
  assert (frame w (World (set_bn_params
                             (fmap (λ d, <["mode" := PStr (mode_of y)]> d))
                             (self w1))
                          (np_random w1) (calls w1))) as Hf2
    by by frame_finish.
  wp_step.
  eapply wp_mono;
    [apply wp_conj;
      [apply (forward_loop_bn start w n 0 _ _ Hf2 Hbn); [done|]
      |by apply (forward_loop_frame n _ w _ Hf2)]|..];
    cbn beta; [| |done].
  { simpl. rewrite Hb1. split; [done|]. split; [done|]. intros; lia. }
  simpl. intros fs w2 [Hup Hf3].
  repeat (first [wp_step | case_match]; cbn beta iota zeta; simpl self;
          simpl calls; simpl np_random; try done).
  eapply wp_mono; [apply backward_loop_self|..]; cbn beta; [|done].
  intros bs w3 Hs. wp_step. by rewrite Hs.
Qed.

(** X21.  With batch normalisation, after a call of [loss] the
    dictionary [bn_params[j]] is the one that layer [j+1]'s own call of
    [batchnorm_forward] returned, given the layer's scale and shift and the
    dictionary the layer had before with ['mode'] set to the mode of the
    call; the list keeps its length. *)
Theorem batchnorm_statistics_stay_with_their_layer X y (w : world t) :
  well_formed (self w) →
  normalization (self w) = Some "batchnorm" →
  ∃ r, (loss X y w).1 = inr r ∧
    length (bn_params (self (loss X y w).2)) = hidden_layers (self w) ∧
    ∀ j, (j < hidden_layers (self w))%nat → ∃ h gamma beta p,
      bn_params (self w) !! j = Some p ∧
      params (self w) !! key "gamma" (Z.of_nat (S j)) = Some gamma ∧
      params (self w) !! key "beta" (Z.of_nat (S j)) = Some beta ∧
      bn_params (self (loss X y w).2) !! j =
        Some (batchnorm_forward h gamma beta
                (<["mode" := PStr (mode_of y)]> p)).2.
Proof.
  intros Hwf Hbn.
  pose proof (wp_conj _ _ _ _ _ _ (loss_spec X y w Hwf) (loss_bn X y w Hbn))
    as H.
  unfold wp in H. destruct (loss X y w) as [[e|r] w']; [by destruct H|].
  destruct H as [_ (Hlen & _ & Hdone)]. exists r. split; [done|]. simpl.
  split.
  { rewrite Hlen, length_fmap. apply (wf_bn_params _ Hwf). by rewrite Hbn. }
  intros j Hj. destruct (Hdone j Hj) as (h & gamma & beta & p' & Hp & Hg & Hb & Hn).
  rewrite list_lookup_fmap in Hp.
  destruct (bn_params (self w) !! j) as [p|]; [|done].
  injection Hp as <-. by exists h, gamma, beta, p.
Qed.
End running.

(** ** Configuration and randomness *)

Section more.
Context `{L : Layers}.
Import FullyConnectedNet.

Local Ltac init_step :=
  first
    [ wp_step
    | apply random_normal_wp;
      try match goal with H : s_negative _ = _ |- _ => rewrite H end
    | apply zeros_wp
    | apply ones_wp ].

(** X22.  What construction stores besides the parameters:
    [normalization], [reg], [dtype] as given and
    [num_layers = 1 + len(hidden_dims)]; when [dropout] is not [1],
    [dropout_param] with ['mode'] ['train'], ['p'] the given [dropout], and
    ['seed'] exactly when a seed is given, and no other key; one
    normalisation dictionary per hidden layer, [{'mode': 'train'}] for batch
    normalisation and [{}] for layer normalisation, and none for any other
    setting. *)
Theorem init_configures_dropout_and_normalization hidden_dims input_dim
    num_classes dropout norm reg ws dt seed (w0 : world ()) o :
  (__init__ hidden_dims input_dim num_classes dropout norm reg ws dt seed w0).1
    = inr o →
  normalization o = norm ∧
  FullyConnectedNet.reg o = reg ∧
  dtype o = dt ∧
  num_layers o = (1 + Z.of_nat (length hidden_dims))%Z ∧
  (dropout ≠ s_one →
   use_dropout o = true ∧
   dropout_param o !! "mode" = Some (PStr "train") ∧
   dropout_param o !! "p" = Some (PNum dropout) ∧
   dropout_param o !! "seed" = PInt <$> seed ∧
   dom (dropout_param o) ⊆ {["mode"; "p"; "seed"]}) ∧
  bn_params o =
    (if bool_decide (norm = Some "batchnorm")
     then replicate (length hidden_dims) {["mode" := PStr "train"]}
     else if bool_decide (norm = Some "layernorm")
          then replicate (length hidden_dims) ∅
          else []).
Proof.
  intros Hinit.
  pose proof (wp_elim _ _ _ _
    (init_content hidden_dims input_dim num_classes dropout norm reg ws dt
                  seed w0)) as Hc.
  rewrite Hinit in Hc.
  destruct Hc as [Hnorm Hud Hreg Hnl Hdt Hdp Hbp _ _ _].
  split; [done|]. split; [done|]. split; [done|]. split; [done|].
  split; [|done].
  intros Hne. rewrite Hud, Hdp, !bool_decide_eq_true_2 by done.
  split; [done|]. cbn zeta.
  destruct seed as [seed|]; simpl;
    (split; [reflexivity|]); (split; [reflexivity|]); (split; [reflexivity|]);
    rewrite ?dom_insert_L, dom_singleton_L; set_solver.
Qed.

Lemma init_body_calls norm ws i st (w : world ()) :
  wp (init_body norm ws i st) (λ _ w', calls w' = calls w)
     (λ _ w', calls w' = calls w) w.
Proof.
  unfold init_body. destruct (s_negative ws) eqn:Hneg.
  { init_step. init_step. cbn iota. done. }
  repeat (first [init_step | case_bool_decide]; cbn beta iota zeta;
          try done).
Qed.

Lemma init_loop_calls norm ws hs : ∀ st (w : world ()),
  wp (init_loop norm ws hs st) (λ _ w', calls w' = calls w)
     (λ _ w', calls w' = calls w) w.
Proof.
  induction hs as [|i hs IH]; intros st w; simpl init_loop.
  - by apply wp_ret.
  - apply wp_bind.
    eapply wp_mono; [apply init_body_calls|..]; cbn beta; [|done].
    intros st' w' Hc. eapply wp_mono; [apply IH|..]; cbn beta; congruence.
Qed.

Lemma init_draws hidden_dims input_dim num_classes dropout norm reg ws dt
    seed (w : world ()) :
  wp (__init__ hidden_dims input_dim num_classes dropout norm reg ws dt seed)
     (λ _ w',
        np_random w' =
          rng_at ws (layer_dims input_dim hidden_dims num_classes)
                 (np_random w) (S (length hidden_dims)) ∧
        calls w' = calls w)
     (λ _ w', calls w' = calls w) w.
Proof.
  unfold __init__. apply wp_bind.
  set (dims := layer_dims input_dim hidden_dims num_classes).
  eapply wp_mono;
    [apply wp_conj;
      [apply (init_loop_content norm ws dims (np_random w) hidden_dims 0)
      |apply init_loop_calls]|..];
    cbn beta; [| | |tauto].
  { unfold init_inv; simpl. repeat split; try done; intros; lia. }
  { intros j i Hj. unfold dims, layer_dims. simpl.
    by rewrite lookup_app_l by (by eapply lookup_lt_Some). }
  simpl. intros st w' [(Hcur & Hprev & Hrng & _) Hc].
  set (n := length hidden_dims) in *.
  assert (dims !!! S n = num_classes) as Hnc.
  { unfold dims, layer_dims. simpl.
    apply list_lookup_total_correct. by rewrite lookup_app_r, Nat.sub_diag. }
  apply wp_bind, random_normal_wp.
  destruct (s_negative ws); [exact Hc|].
  destruct (bool_decide (0 ≤ prev_dim st ∧ 0 ≤ num_classes)%Z);
    [cbn beta|exact Hc].
  apply wp_bind, zeros_wp.
  destruct (bool_decide (0 ≤ num_classes)%Z); [cbn beta|exact Hc].
  apply wp_ret. split; [|done]. simpl np_random.
  change (rng_at ws dims (np_random w) (S n)) with
    (np_random_normal s_zero ws (dims !!! n) (dims !!! S n)
                      (rng_at ws dims (np_random w) n)).2.
  rewrite Hrng, Hprev.
  change ((hidden_dims ++ [num_classes]) !!! n) with (dims !!! S n).
  by rewrite Hnc.
Qed.

(** X23.  A successful construction uses [np.random] once per layer, in
    the order of the layers, [L+1] times in all (scales, shifts and biases
    are not random), and invokes no layer primitive. *)
Theorem init_draws_once_per_layer hidden_dims input_dim num_classes dropout
    norm reg ws dt seed (w : world ()) o :
  let r := __init__ hidden_dims input_dim num_classes dropout norm reg ws dt
                    seed w in
  r.1 = inr o →
  np_random r.2 =
    rng_at ws (layer_dims input_dim hidden_dims num_classes) (np_random w)
           (S (length hidden_dims)) ∧
  calls r.2 = calls w.
Proof.
  intros r Hr. subst r.
  pose proof (wp_elim _ _ _ _
    (init_draws hidden_dims input_dim num_classes dropout norm reg ws dt seed
                w)) as H.
  by rewrite Hr in H.
Qed.

Lemma forward_body_rng fs w :
  use_dropout (self w) = false →
  wp (forward_body fs)
     (λ _ w', np_random w' = np_random w ∧
              use_dropout (self w') = use_dropout (self w))
     (λ _ w', np_random w' = np_random w ∧
              use_dropout (self w') = use_dropout (self w)) w.
Proof.
  intros Hud. unfold forward_body.
  wp_step. wp_step. cbn beta. rewrite Hud.
  repeat (first [wp_step | case_match | case_bool_decide];
          cbn beta iota zeta; simpl self; simpl calls; simpl np_random;
          try done).
Qed.

Lemma forward_loop_rng n : ∀ fs w,
  use_dropout (self w) = false →
  wp (forward_loop n fs)
     (λ _ w', np_random w' = np_random w ∧
              use_dropout (self w') = use_dropout (self w))
     (λ _ w', np_random w' = np_random w ∧
              use_dropout (self w') = use_dropout (self w)) w.
Proof.
  induction n as [|n IH]; intros fs w Hud; simpl.
  - by apply wp_ret.
  - apply wp_bind.
    eapply wp_mono; [by apply forward_body_rng|..]; cbn beta; [|done].
    intros fs' w' [Hr Hu].
    eapply wp_mono; [apply IH; congruence|..]; cbn beta;
      intros ? ? [? ?]; split; congruence.
Qed.

Lemma backward_body_rng fs cache bs w :
  wp (backward_body fs cache bs) (λ _ w', np_random w' = np_random w)
     (λ _ w', np_random w' = np_random w) w.
Proof.
  unfold backward_body.
  repeat (first [wp_step | case_match | case_bool_decide];
          cbn beta iota zeta; simpl self; simpl calls; simpl np_random;
          try done).
Qed.

Lemma backward_loop_rng fs l : ∀ bs w,
  wp (backward_loop fs l bs) (λ _ w', np_random w' = np_random w)
     (λ _ w', np_random w' = np_random w) w.
Proof.
  induction l as [|c l IH]; intros bs w; simpl.
  - by apply wp_ret.
  - apply wp_bind.
    eapply wp_mono; [apply backward_body_rng|..]; cbn beta; [|done].
    intros bs' w' Hs. eapply wp_mono; [apply IH|..]; cbn beta; congruence.
Qed.

Lemma loss_rng X y w :
  use_dropout (self w) = false →
  wp (loss X y) (λ _ w', np_random w' = np_random w)
     (λ _ w', np_random w' = np_random w) w.
Proof.
  intros Hud. unfold loss.
  wp_step. wp_step. cbn beta. rewrite Hud.
  wp_step. wp_step. cbn beta.
  wp_step.
  set (Q := λ _ w', wp _ _ _ w').
  assert (∀ w', np_random w' = np_random w → use_dropout (self w') = false →
                Q tt w') as HQ; last first.
  { case_bool_decide; wp_step; apply HQ; done. }
  intros w1 Hr1 Hu1. subst Q. cbn beta.
  wp_step.
  eapply wp_mono; [by apply forward_loop_rng|..]; cbn beta;
    [|intros ? ? [? ?]; congruence].
  intros fs w2 [Hr2 _].
  repeat (first [wp_step | case_match]; cbn beta iota zeta; simpl self;
          simpl calls; simpl np_random; try congruence).
  eapply wp_mono; [apply backward_loop_rng|..]; cbn beta;
    [|simpl; congruence].
  intros bs w3 Hr3. wp_step. simpl in Hr3. congruence.
Qed.

(** X24.  With dropout disabled, [loss] does not use [np.random]: the
    state of the generator after the call, returning or raising, is the
    state before. *)
Theorem loss_without_dropout_leaves_rng X y (w : world t) :
  use_dropout (self w) = false →
  np_random (loss X y w).2 = np_random w.
Proof.
  intros Hud. pose proof (wp_elim _ _ _ _ (loss_rng X y w Hud)) as H.
  by destruct (loss X y w).1.
Qed.
End more.

(** ** What the regularisation strength reaches *)

Section strength.
Context `{L : Layers}.
Import FullyConnectedNet.

Lemma loss_test_reg_sim pm r1 r2 X w1 w2 :
  reg_sim pm r1 r2 w1 w2 →
  rwp (loss X None) (loss X None) (λ v1 _ v2 _, v1 = v2) w1 w2.
Proof.
  intros Hs. pose proof Hs as [Hr1 Hr2 Hpm Hp Hn Hd Hl Ht Hdp Hb Hrng].
  unfold loss.
  apply rwp_bind, rwp_get_self. rewrite <-Hn, <-Hd, <-Hl, <-Ht, <-Hp.
  apply rwp_bind.
  eapply (rwp_mono _ _ (λ _ w1' _ w2', reg_sim pm r1 r2 w1' w2')).
  { destruct (use_dropout (self w1)).
    - apply rwp_modify_self. rewrite <-Hrng.
      by apply reg_sim_set_dropout_param.
    - by apply rwp_ret. }
  cbn beta. intros _ W1 _ W2 Hs1.
  apply rwp_bind.
  eapply (rwp_mono _ _ (λ _ w1' _ w2', reg_sim pm r1 r2 w1' w2')).
  { case_bool_decide.
    - apply rwp_modify_self. destruct Hs1 as [? ? ? ? ? ? ? ? ? ? Hg].
      rewrite <-Hg. by apply reg_sim_set_bn_params.
    - by apply rwp_ret. }
  cbn beta. clear dependent W1 W2. intros _ W1 _ W2 Hs1.
  apply rwp_bind.
  eapply rwp_mono; [by apply forward_loop_reg_sim|]. cbn beta.
  clear dependent W1 W2. intros fs W1 ? W2 (<- & Hi & Hc & Hs1).
  apply rwp_bind, rwp_getitem; [done|]. intros W _.
  apply rwp_bind, rwp_getitem; [done|]. intros b _.
  apply rwp_bind, rwp_invoke. destruct (affine_forward _ W b) as [out cache].
  by apply rwp_ret.
Qed.

(** X25.  The regularisation strength enters only the loss value and the
    weight gradients: run from the same state with any other [reg], [loss]
    returns the same scores at test time, and at training time gradients
    with the same keys and the same entries for every bias, scale and
    shift. *)
Theorem reg_changes_only_loss_and_weight_gradients X y (w : world t) r :
  well_formed (self w) →
  (∃ s, (loss X None w).1 = inr (Scores s) ∧
        (loss X None (with_reg r w)).1 = inr (Scores s)) ∧
  ∃ l1 g1 l2 g2,
    (loss X (Some y) w).1 = inr (LossGrads l1 g1) ∧
    (loss X (Some y) (with_reg r w)).1 = inr (LossGrads l2 g2) ∧
    dom g1 = dom g2 ∧
    ∀ p j, p ∈ ["b"; "gamma"; "beta"] → g1 !! key p j = g2 !! key p j.
Proof.
  intros Hwf. split.
  - destruct (loss_outcome X None w Hwf) as (v & Hv & Ht).
    destruct (rwp_values _ _ _ _ _ _
                (loss_test_reg_sim _ _ _ X _ _ (reg_sim_with_reg r w)) Hv)
      as (v2 & Hv2 & <-).
    destruct Ht. eauto.
  - assert (well_formed (self (with_reg r w))) as Hwf2 by (by destruct Hwf).
    destruct (loss_outcome X (Some y) w Hwf) as (v & Hv & Ht).
    destruct (loss_outcome X (Some y) (with_reg r w) Hwf2) as (v' & Hv' & Ht').
    destruct (rwp_values _ _ _ _ _ _
                (loss_reg_sim _ _ _ X y _ _ (reg_sim_with_reg r w)) Hv)
      as (v2 & Hv2 & l1 & g1 & l2 & g2 & -> & -> & Hg).
    rewrite Hv2 in Hv'. injection Hv' as <-.
    exists l1, g1, l2, g2. split; [done|]. split; [done|]. split.
    + inversion Ht; subst. inversion Ht'; subst. simpl in *. congruence.
    + intros p j Hp.
      assert (p ∈ prefixes ∧ p ≠ "W") as [Hp' Hne].
      { revert Hp. unfold prefixes. rewrite !elem_of_cons, !elem_of_nil.
        intros [->|[->|[->|[]]]]; split; auto; discriminate. }
      specialize (Hg p j Hp').
      by rewrite bool_decide_eq_false_2 in Hg by (by intros [? _]).
Qed.
End strength.

(** ** The properties on concrete networks *)

Import FullyConnectedNet Symbolic.

Ltac wf_compute :=
  split; [done | auto | vm_compute; reflexivity | intros; reflexivity].

Global Instance sym_dropout_test_identity : DropoutTestIdentity layers.
Proof.
  intros x dp g Hmode. simpl. unfold sym_dropout_forward.
  by rewrite bool_decide_eq_true_2.
Qed.

(** C1 on the network without hidden layers, whose only weight matrix is
    the final one, run with its own [reg] and with [reg = 0]. *)
Lemma final_weight_gradient_has_no_reg_term_witness :
  well_formed net0 ∧
  ∃ h l1 g1 l2 g2,
    (loss (Var "X") (Some (Var "y")) (start net0)).1 = inr (LossGrads l1 g1) ∧
    (loss (Var "X") (Some (Var "y")) (with_reg (Lit 0) (start net0))).1 =
      inr (LossGrads l2 g2) ∧
    g1 !! "W1" =
      Some (affine_backward
              (softmax_loss (affine_forward h (Var "W1") (Var "b1")).1
                            (Var "y")).2
              (affine_forward h (Var "W1") (Var "b1")).2).1.2 ∧
    g2 !! "W1" = g1 !! "W1".
Proof.
  assert (well_formed net0) as Hwf by wf_compute.
  split; [exact Hwf|].
  destruct (final_weight_gradient_has_no_reg_term (L:=layers) (Var "X")
              (Var "y") (start net0) (Lit 0) Hwf)
    as (h & W & b & l1 & g1 & l2 & g2 & HW & Hb & H1 & H2 & Hg1 & Hg2 & _).
  change (Some (Var "W1") = Some W) in HW. injection HW as <-.
  change (Some (Var "b1") = Some b) in Hb. injection Hb as <-.
  exists h, l1, g1, l2, g2. auto.
Defined.

(** C2 on a network with one hidden layer: the regularisation term sums
    over [W1] and leaves [W2] out. *)
Lemma loss_regularizes_hidden_weights_only_witness :
  well_formed net1 ∧
  ∃ h W b g,
    params net1 !! "W2" = Some W ∧
    (loss (Var "X") (Some (Var "y")) (start net1)).1 =
      inr (LossGrads
             (s_add (softmax_loss (affine_forward h W b).1 (Var "y")).1
                    (s_mul (s_mul s_half (Var "reg"))
                           (s_add s_zero (np_sum (t_sq (Var "W1"))))))
             g).
Proof.
  assert (well_formed net1) as Hwf by wf_compute.
  split; [exact Hwf|].
  destruct (loss_regularizes_hidden_weights_only (L:=layers) (Var "X") (Var "y")
              (start net1) Hwf) as (h & W & b & rs & g & HW & Hb & Hrs & Hl).
  exists h, W, b, g. split; [exact HW|].
  change (Some (s_add s_zero (np_sum (t_sq (Var "W1")))) = Some rs) in Hrs.
  injection Hrs as <-. exact Hl.
Defined.

(** C7 on a network with one hidden layer, layer normalisation and
    dropout. *)
Lemma grads_keys_match_params_witness :
  well_formed net1 ∧
  ∃ l g, (loss (Var "X") (Some (Var "y")) (start net1)).1 =
           inr (LossGrads l g) ∧
         dom g = dom (params net1).
Proof.
  assert (well_formed net1) as Hwf by wf_compute.
  split; [exact Hwf|].
  exact (grads_keys_match_params (L:=layers) (Var "X") (Var "y") (start net1) Hwf).
Defined.

(** C5 on the network without hidden layers. *)
Lemma loss_without_hidden_layers_witness :
  (loss (Var "X") None (start net0)).1 =
    inr (Scores (affine_forward (np_copy (astype (Var "X") "float64"))
                                (Var "W1") (Var "b1")).1) ∧
  calls (loss (Var "X") None (start net0)).2 = [affine_forward_call].
Proof.
  apply (loss_without_hidden_layers (L:=layers) (Var "X") (start net0) (Var "W1") (Var "b1"));
    reflexivity.
Defined.

(** C6 on a network with one hidden layer and dropout. *)
Lemma test_scores_ignore_dropout_witness :
  (loss (Var "X") None (start net1)).1 =
  (loss (Var "X") None (start (without_dropout net1))).1.
Proof.
  exact (test_scores_ignore_dropout (L:=layers) (Var "X") (start net1)).
Defined.

(** C3 on the hidden layer of a network with layer normalisation and
    dropout. *)
Lemma hidden_layer_normalizes_after_relu_witness :
  ∃ fs' w',
    forward_body (Fwd 1 (Var "X") [] [] [] (Lit 0)) (start net1) = (inr fs', w') ∧
    f_cur_layer fs' =
      (dropout_forward
         (layernorm_forward
            (relu_forward (affine_forward (Var "X") (Var "W1") (Var "b1")).1).1
            (Var "gamma1") (Var "beta1") ∅).1
         (dropout_param net1) (Var "rng")).1.1 ∧
    calls w' = [affine_forward_call; relu_forward_call;
                layernorm_forward_call; dropout_forward_call].
Proof.
  refine (hidden_layer_normalizes_after_relu (L:=layers)
            (Fwd (L:=layers) 1 (Var "X") [] [] [] (Lit 0)) (start net1)
            "layernorm" (Var "W1") (Var "b1") (Var "gamma1") (Var "beta1") ∅
            _ _ _ _ _ _ _);
    first [reflexivity | right; reflexivity].
Defined.

(** C4 as stated fails: constructing a network whose hidden layer has
    dimension [0] succeeds. *)
Lemma init_accepts_zero_dimension :
  ∃ o, (__init__ [0%Z] 4 3 (Lit 1) None (Lit 0) (Var "weight_scale")
                 "float32" None (start tt)).1 = inr o.
Proof. eexists. reflexivity. Qed.

(** Both constructors fail on [weight_scale = -1]. *)
Lemma init_rejects_negative_scale :
  (__init__ [5%Z] 4 3 (Lit 1) None (Lit 0) (Lit (-1)) "float32" None
            (start tt)).1 = inl ValueError ∧
  (TwoLayerNet.__init__ 4 5 3 (Lit (-1)) (Lit 0) (start tt)).1 =
    inl ValueError.
Proof. split; reflexivity. Qed.

(** C8 on [FullyConnectedNet([5], input_dim=4, num_classes=3,
    normalization='batchnorm')]. *)
Lemma init_allocates_parameters_witness :
  ∃ o,
    (__init__ [5%Z] 4 3 (Lit 1) (Some "batchnorm") (Lit 0) (Var "weight_scale")
              "float32" None (start tt)).1 = inr o ∧
    params o !! "W1" =
      Some (astype (np_random_normal s_zero (Var "weight_scale") 4 5
                                     (Var "rng")).1 "float32") ∧
    params o !! "gamma1" = Some (astype (np_ones 5) "float32") ∧
    params o !! "b2" = Some (astype (np_zeros 3) "float32") ∧
    params o !! "gamma2" = None.
Proof.
  destruct (init_allocates_parameters (L:=layers) [5%Z] 4 3 (Lit 1) (Some "batchnorm")
              (Lit 0) (Var "weight_scale") "float32" None (start tt))
    as (o & Ho & Hhidden & Hfinal & _).
  { repeat constructor; done. }
  { reflexivity. }
  exists o. split; [exact Ho|].
  destruct (Hhidden 0%nat) as (HW & _ & Hg & _); [simpl; lia|].
  destruct Hfinal as (_ & Hb & Hg2 & _).
  auto.
Defined.

(** C10 on a network constructed with [dropout=1]. *)
Lemma dropout_one_disables_dropout_witness :
  use_dropout constructed_net = false ∧
  dropout_param constructed_net = ∅ ∧
  dropout_param
    (self (loss (Var "X") (Some (Var "y")) (start constructed_net)).2) = ∅ ∧
  ∃ l, calls (loss (Var "X") (Some (Var "y")) (start constructed_net)).2 = l ∧
       no_dropout_call l.
Proof.
  assert ((__init__ [5%Z] 4 3 (Lit 1) None (Lit 0) (Var "weight_scale")
                    "float32" None (start tt)).1 = inr constructed_net)
    as Hinit by reflexivity.
  destruct (dropout_one_disables_dropout (L:=layers) [5%Z] 4 3 (Lit 1) None
              (Lit 0) (Var "weight_scale") "float32" None (start tt)
              constructed_net (Var "X") (Some (Var "y")) (Var "rng") [] Hinit)
    as (Hud & Hone & _).
  destruct (Hone eq_refl) as (Hdp & Hdp' & l & Hl & Hno).
  split; [exact Hud|]. split; [exact Hdp|]. split; [exact Hdp'|].
  exists l. split; [exact Hl | exact Hno].
Defined.

(** The order of the code and the documented order
    (affine - norm - relu) give different results. *)
Lemma hidden_layer_differs_from_documented_order :
  let h := Var "X" in
  let a := (affine_forward h (Var "W1") (Var "b1")).1 in
  (layernorm_forward (relu_forward a).1 (Var "gamma1") (Var "beta1") ∅).1 ≠
  (relu_forward (layernorm_forward a (Var "gamma1") (Var "beta1") ∅).1).1.
Proof. discriminate. Qed.

Ltac wf_plain :=
  split; [done | auto | vm_compute; reflexivity | intros H; by destruct H].

(** X2 on [TwoLayerNet(input_dim=4, hidden_dim=5, num_classes=3)]. *)
Lemma two_layer_init_allocates_witness :
  ∃ o w',
    TwoLayerNet.__init__ 4 5 3 (Var "weight_scale") (Var "reg") (start tt)
      = (inr o, w') ∧
    dom (TwoLayerNet.params o) = {["W1"; "b1"; "W2"; "b2"]} ∧
    TwoLayerNet.params o !! "W1" =
      Some (np_random_normal s_zero (Var "weight_scale") 4 5 (Var "rng")).1 ∧
    TwoLayerNet.params o !! "b2" = Some (np_zeros 3) ∧
    TwoLayerNet.reg o = Var "reg".
Proof.
  destruct (two_layer_init_allocates (L:=layers) 4 5 3 (Var "weight_scale")
              (Var "reg") (start tt))
    as (o & w' & Hinit & Hdom & HW1 & _ & _ & Hb2 & Hreg & _);
    [lia | lia | lia | reflexivity |].
  exists o, w'. auto.
Defined.

(** X4 on a network with named parameters. *)
Lemma two_layer_loss_test_scores_witness :
  (TwoLayerNet.loss (Var "X") None (start two_layer_net)).1 =
    inr (Scores
           (affine_forward
              (relu_forward (affine_forward (Var "X") (Var "W1") (Var "b1")).1).1
              (Var "W2") (Var "b2")).1) ∧
  calls (TwoLayerNet.loss (Var "X") None (start two_layer_net)).2 =
    [affine_forward_call; relu_forward_call; affine_forward_call].
Proof.
  apply (two_layer_loss_test_scores (L:=layers) (Var "X") (start two_layer_net)
           (Var "W1") (Var "b1") (Var "W2") (Var "b2")); reflexivity.
Defined.

(** X5 on a network with named parameters. *)
Lemma two_layer_loss_regularizes_both_layers_witness :
  ∃ data g,
    (TwoLayerNet.loss (Var "X") (Some (Var "y")) (start two_layer_net)).1 =
      inr (LossGrads
             (s_add data
                (s_mul (s_mul s_half (Var "reg"))
                       (s_add (np_sum (t_sq (Var "W1")))
                              (np_sum (t_sq (Var "W2"))))))
             g) ∧
    dom g = {["W1"; "b1"; "W2"; "b2"]}.
Proof.
  destruct (two_layer_loss_regularizes_both_layers (L:=layers) (Var "X")
              (Var "y") (start two_layer_net)
              (Var "W1") (Var "b1") (Var "W2") (Var "b2")
              eq_refl eq_refl eq_refl eq_refl)
    as (g & Hl & Hdom & _).
  eexists _, g. split; [exact Hl | exact Hdom].
Defined.

(** X7 on [TwoLayerNet(input_dim=4, hidden_dim=5, num_classes=3)]. *)
Lemma two_layer_init_then_loss_witness :
  ∃ o,
    (TwoLayerNet.__init__ 4 5 3 (Var "weight_scale") (Var "reg") (start tt)).1
      = inr o ∧
    (∃ s, (TwoLayerNet.loss (Var "X") None (start o)).1 = inr (Scores s)) ∧
    (∃ l gr, (TwoLayerNet.loss (Var "X") (Some (Var "y")) (start o)).1 =
               inr (LossGrads l gr) ∧
             dom gr = dom (TwoLayerNet.params o)).
Proof.
  eexists. split; [reflexivity|].
  apply (two_layer_init_then_loss (L:=layers) 4 5 3 (Var "weight_scale")
           (Var "reg") (start tt) _ (Var "X") (Var "y") (Var "rng") []).
  reflexivity.
Defined.

(** X8 on a network with one hidden layer, layer normalisation and
    dropout, at training time. *)
Lemma loss_call_trace_witness :
  well_formed net1 ∧
  ∃ r, (loss (Var "X") (Some (Var "y")) (start net1)).1 = inr r ∧
       calls (loss (Var "X") (Some (Var "y")) (start net1)).2 =
         [affine_forward_call; relu_forward_call; layernorm_forward_call;
          dropout_forward_call; affine_forward_call; softmax_loss_call;
          affine_backward_call; dropout_backward_call;
          layernorm_backward_call; relu_backward_call; affine_backward_call].
Proof.
  assert (well_formed net1) as Hwf by wf_compute.
  split; [exact Hwf|].
  exact (loss_call_trace (L:=layers) (Var "X") (Some (Var "y")) (start net1) Hwf).
Defined.

(** X9 on a network with layer normalisation and dropout, at test
    time. *)
Lemma loss_sets_mode_witness :
  dropout_param (self (loss (Var "X") None (start net1)).2) =
    <["mode" := PStr "test"]> (dropout_param net1) ∧
  bn_params (self (loss (Var "X") None (start net1)).2) = [∅].
Proof.
  destruct (loss_sets_mode (L:=layers) (Var "X") None (start net1))
    as [Hd Hb].
  split; [exact Hd|]. exact (Hb ltac:(discriminate)).
Defined.

(** X10 on a network whose parameters have been removed. *)
Lemma loss_raises_only_lookup_errors_witness :
  (loss (Var "X") None (start net_without_params)).1 = inl (KeyError "W1") ∧
  (KeyError "W1" = IndexError ∨
   ∃ p i, p ∈ prefixes ∧ KeyError "W1" = KeyError (key p i)).
Proof.
  split; [reflexivity|].
  apply (loss_raises_only_lookup_errors (L:=layers) (Var "X") None
           (start net_without_params)).
  reflexivity.
Defined.

(** X11: a training-time call followed by a test-time call. *)
Lemma loss_keeps_well_formed_witness :
  well_formed net1 ∧
  well_formed (self (loss (Var "X") (Some (Var "y")) (start net1)).2) ∧
  ∃ r, (loss (Var "X") None
             (loss (Var "X") (Some (Var "y")) (start net1)).2).1 = inr r.
Proof.
  assert (well_formed net1) as Hwf by wf_compute.
  split; [exact Hwf|].
  destruct (loss_keeps_well_formed (L:=layers) (Var "X") (Some (Var "y"))
              (start net1) Hwf) as [Hwf' Hnext].
  split; [exact Hwf'|]. exact (Hnext (Var "X") None).
Defined.

(** X12 on [FullyConnectedNet([5], input_dim=4, num_classes=3,
    dropout=0.5, normalization='batchnorm')]. *)
Lemma init_then_loss_returns_witness :
  ∃ o gr l,
    (__init__ [5%Z] 4 3 Half (Some "batchnorm") (Lit 0) (Var "weight_scale")
              "float32" None (start tt)).1 = inr o ∧
    (loss (Var "X") (Some (Var "y")) (start o)).1 = inr (LossGrads l gr) ∧
    dom gr = dom (params o).
Proof.
  eexists.
  destruct (init_then_loss_returns (L:=layers) [5%Z] 4 3 Half
              (Some "batchnorm") (Lit 0) (Var "weight_scale") "float32" None
              (start tt) _ (Var "X") (Some (Var "y")) (Var "rng") []
              (or_intror (or_introl eq_refl)) eq_refl)
    as (r & Hr & Hdom).
  destruct r as [s|l gr]; [destruct Hdom|].
  exists gr, l. split; [reflexivity|]. split; [exact Hr | exact Hdom].
Defined.

(** X13 on the name ['beta12']. *)
Lemma parameter_names_are_distinct_witness :
  key "beta" 12 = "beta12" ∧ "beta" = "beta" ∧ 12%Z = 12%Z.
Proof.
  split; [reflexivity|].
  apply (parameter_names_are_distinct "beta" "beta" 12 12);
    [unfold prefixes; rewrite !elem_of_cons; tauto..|reflexivity].
Defined.

(** X15 on a network whose parameters have been removed. *)
Lemma loss_missing_first_weight_witness :
  (loss (Var "X") (Some (Var "y")) (start net_without_params)).1 =
    inl (KeyError "W1") ∧
  calls (loss (Var "X") (Some (Var "y")) (start net_without_params)).2 = [] ∧
  dropout_param
    (self (loss (Var "X") (Some (Var "y")) (start net_without_params)).2)
    !! "mode" = Some (PStr "train").
Proof.
  destruct (loss_missing_first_weight (L:=layers) (Var "X") (Some (Var "y"))
              (start net_without_params) eq_refl) as (He & Hc & _ & Hm).
  split; [exact He|]. split; [exact Hc|]. exact (Hm eq_refl).
Defined.

(** X16 on the caches of one hidden layer. *)
Lemma backward_loop_reads_caches_by_index_witness :
  let fs := Fwd (L:=layers) 2 (Var "h") [(Var "fc1", Var "relu1")] [] []
                (Lit 0) in
  let bs := Bwd (L:=layers) 1 (Var "dout") ∅ in
  backward_loop fs (reverse (caches fs)) bs (start net_plain) =
  backward_by_index fs 1 bs (start net_plain).
Proof.
  intros fs bs.
  exact (backward_loop_reads_caches_by_index (L:=layers) fs bs
           (start net_plain) eq_refl).
Defined.

(** X17 on a network with one hidden layer. *)
Lemma train_loss_uses_test_scores_witness :
  well_formed net_plain ∧
  ∃ s g,
    (loss (Var "X") None (start net_plain)).1 = inr (Scores s) ∧
    (loss (Var "X") (Some (Var "y")) (start net_plain)).1 =
      inr (LossGrads
             (s_add (softmax_loss s (Var "y")).1
                    (s_mul (s_mul s_half (Var "reg"))
                           (s_add s_zero (np_sum (t_sq (Var "W1"))))))
             g).
Proof.
  assert (well_formed net_plain) as Hwf by wf_plain.
  split; [exact Hwf|].
  destruct (train_loss_uses_test_scores (L:=layers) (Var "X") (Var "y")
              (start net_plain) Hwf eq_refl ltac:(discriminate))
    as (s & rs & g & Hs & Hrs & Hl).
  exists s, g. split; [exact Hs|].
  change (Some (s_add s_zero (np_sum (t_sq (Var "W1")))) = Some rs) in Hrs.
  injection Hrs as <-. exact Hl.
Defined.

(** X19 on the two networks with named parameters. *)
Lemma one_hidden_layer_net_matches_two_layer_net_witness :
  ∃ s l1 g1 l2 g2 dW2,
    (loss (Var "X") None (start net_plain)).1 = inr (Scores s) ∧
    (TwoLayerNet.loss (np_copy (astype (Var "X") "float64")) None
                      (start two_layer_net)).1 = inr (Scores s) ∧
    (loss (Var "X") (Some (Var "y")) (start net_plain)).1 =
      inr (LossGrads l1 g1) ∧
    (TwoLayerNet.loss (np_copy (astype (Var "X") "float64")) (Some (Var "y"))
                      (start two_layer_net)).1 = inr (LossGrads l2 g2) ∧
    g1 !! "W1" = g2 !! "W1" ∧
    g1 !! "W2" = Some dW2 ∧
    g2 !! "W2" = Some (t_add dW2 (t_scale (Var "reg") (Var "W2"))).
Proof.
  destruct (one_hidden_layer_net_matches_two_layer_net (L:=layers) (Var "X")
              (Var "y") (start net_plain)
              (Var "W1") (Var "b1") (Var "W2") (Var "b2")
              eq_refl eq_refl eq_refl eq_refl eq_refl eq_refl eq_refl)
    as (s & l1 & g1 & l2 & g2 & dW2 & H1 & H2 & H3 & H4 & _ & _ & _ & H5 & _ &
        _ & H6 & H7).
  exists s, l1, g1, l2, g2, dW2. auto 10.
Defined.

(** X20 on [FullyConnectedNet([5], input_dim=4, num_classes=3,
    normalization='groupnorm')]. *)
Lemma unknown_normalization_gives_no_scale_gradients_witness :
  ∃ o l gr,
    (__init__ [5%Z] 4 3 (Lit 1) (Some "groupnorm") (Lit 0)
              (Var "weight_scale") "float32" None (start tt)).1 = inr o ∧
    (loss (Var "X") (Some (Var "y")) (start o)).1 = inr (LossGrads l gr) ∧
    "gamma1" ∈ dom (params o) ∧ "gamma1" ∉ dom gr.
Proof.
  eexists.
  destruct (unknown_normalization_gives_no_scale_gradients (L:=layers) [5%Z]
              4 3 (Lit 1) "groupnorm" (Lit 0) (Var "weight_scale") "float32"
              None (start tt) _ (Var "X") (Var "y") (Var "rng") []
              ltac:(discriminate) ltac:(discriminate) eq_refl)
    as (l & gr & Hl & _ & _ & _ & _ & _ & Hk).
  destruct (Hk 0%nat Nat.lt_0_1) as (Hin & Hout & _).
  exists l, gr. split; [reflexivity|]. split; [exact Hl|].
  split; [exact Hin | exact Hout].
Defined.

(** X21 on a network with one hidden layer, at test time. *)
Lemma batchnorm_statistics_stay_with_their_layer_witness :
  well_formed net_bn ∧
  ∃ r h,
    (loss (Var "X") None (start net_bn)).1 = inr r ∧
    bn_params (self (loss (Var "X") None (start net_bn)).2) !! 0%nat =
      Some (batchnorm_forward h (Var "gamma1") (Var "beta1")
              {["mode" := PStr "test"]}).2.
Proof.
  assert (well_formed net_bn) as Hwf by wf_compute.
  split; [exact Hwf|].
  destruct (batchnorm_statistics_stay_with_their_layer (L:=layers) (Var "X")
              None (start net_bn) Hwf eq_refl) as (r & Hr & _ & Hj).
  destruct (Hj 0%nat Nat.lt_0_1)
    as (h & gamma & beta & p & Hp & Hg & Hb & Hnew).
  change (Some {["mode" := PStr "train"]} = Some p) in Hp. injection Hp as <-.
  change (Some (Var "gamma1") = Some gamma) in Hg. injection Hg as <-.
  change (Some (Var "beta1") = Some beta) in Hb. injection Hb as <-.
  exists r, h. split; [exact Hr|]. exact Hnew.
Defined.

(** X22 on [FullyConnectedNet([5, 6], input_dim=4, num_classes=3,
    dropout=0.5, normalization='batchnorm', seed=7)]. *)
Lemma init_configures_dropout_and_normalization_witness :
  ∃ o,
    (__init__ [5%Z; 6%Z] 4 3 Half (Some "batchnorm") (Lit 0)
              (Var "weight_scale") "float32" (Some 7%Z) (start tt)).1 = inr o ∧
    use_dropout o = true ∧
    dropout_param o !! "p" = Some (PNum Half) ∧
    dropout_param o !! "seed" = Some (PInt 7) ∧
    bn_params o = [{["mode" := PStr "train"]}; {["mode" := PStr "train"]}].
Proof.
  eexists. split; [reflexivity|].
  destruct (init_configures_dropout_and_normalization (L:=layers) [5%Z; 6%Z] 4
              3 Half (Some "batchnorm") (Lit 0) (Var "weight_scale") "float32"
              (Some 7%Z) (start tt) _ eq_refl)
    as (_ & _ & _ & _ & Hd & Hb).
  destruct (Hd ltac:(discriminate)) as (Hud & _ & Hp & Hs & _).
  split; [exact Hud|]. split; [exact Hp|]. split; [exact Hs|]. exact Hb.
Defined.

(** X23 on [FullyConnectedNet([5], input_dim=4, num_classes=3)]. *)
Lemma init_draws_once_per_layer_witness :
  ∃ o,
    (__init__ [5%Z] 4 3 (Lit 1) None (Lit 0) (Var "weight_scale") "float32"
              None (start tt)).1 = inr o ∧
    np_random (__init__ [5%Z] 4 3 (Lit 1) None (Lit 0) (Var "weight_scale")
                        "float32" None (start tt)).2 =
      (np_random_normal s_zero (Var "weight_scale") 5 3
         (np_random_normal s_zero (Var "weight_scale") 4 5 (Var "rng")).2).2.
Proof.
  eexists. split; [reflexivity|].
  exact (proj1 (init_draws_once_per_layer (L:=layers) [5%Z] 4 3 (Lit 1) None
                  (Lit 0) (Var "weight_scale") "float32" None (start tt) _
                  eq_refl)).
Defined.

(** X24 on a network with one hidden layer and no dropout. *)
Lemma loss_without_dropout_leaves_rng_witness :
  np_random (loss (Var "X") (Some (Var "y")) (start net_plain)).2 = Var "rng".
Proof.
  exact (loss_without_dropout_leaves_rng (L:=layers) (Var "X") (Some (Var "y"))
           (start net_plain) eq_refl).
Defined.

(** X25 on a network with one hidden layer, layer normalisation and
    dropout, run with its own [reg] and with [reg = 0]. *)
Lemma reg_changes_only_loss_and_weight_gradients_witness :
  well_formed net1 ∧
  (loss (Var "X") None (start net1)).1 =
    (loss (Var "X") None (with_reg (Lit 0) (start net1))).1 ∧
  ∃ l1 g1 l2 g2,
    (loss (Var "X") (Some (Var "y")) (start net1)).1 = inr (LossGrads l1 g1) ∧
    (loss (Var "X") (Some (Var "y")) (with_reg (Lit 0) (start net1))).1 =
      inr (LossGrads l2 g2) ∧
    g1 !! "b1" = g2 !! "b1" ∧ g1 !! "gamma1" = g2 !! "gamma1" ∧
    g1 !! "beta1" = g2 !! "beta1" ∧ g1 !! "b2" = g2 !! "b2".
Proof.
  assert (well_formed net1) as Hwf by wf_compute.
  split; [exact Hwf|].
  destruct (reg_changes_only_loss_and_weight_gradients (L:=layers) (Var "X")
              (Var "y") (start net1) (Lit 0) Hwf)
    as [(s & Hs1 & Hs2) (l1 & g1 & l2 & g2 & H1 & H2 & _ & Hg)].
  split; [by rewrite Hs1, Hs2|].
  exists l1, g1, l2, g2. split; [exact H1|]. split; [exact H2|].
  split; [apply (Hg "b" 1%Z); rewrite !elem_of_cons; tauto|].
  split; [apply (Hg "gamma" 1%Z); rewrite !elem_of_cons; tauto|].
  split; [apply (Hg "beta" 1%Z); rewrite !elem_of_cons; tauto|].
  apply (Hg "b" 2%Z); rewrite !elem_of_cons; tauto.
Defined.
